(** * EmuMevzuatAgent: the CRAG agent pipeline (router, retrieval, grader,
      answer stage, query rewriting, workflow graph) with its typed state
      and the chat endpoint, embedded from [src/app/agent] and
      [src/app/api/v1].

    Conventions of the embedding.
    - A Python [str] is a sequence of Unicode code points.  We model the
      code points below 256 (Latin-1), one [ascii] per code point, which
      covers every literal of the source (the keyword [bölüm] included).
    - A Python [float] is modelled by an exact rational ([Q]); float
      literals are the decimals they denote.
    - A Python [dict] state is a record of optional fields ([None] = key
      absent); a [dict]/[set] over chunk ids is a [gmap]/[gset] over [Z].
    - Calls to the outside world (SQL statements of the session, the
      embedding service, the completion service) run in a state and
      exception monad over an abstract world, so that every call may
      return rows or raise. *)

From Stdlib Require Import String Ascii List ZArith QArith Qminmax Lia Lqa.
From Stdlib Require Import Permutation Sorted.
From stdpp Require Import base option list gmap sets strings.

Local Open Scope string_scope.
Local Open Scope list_scope.

(** ** Python text primitives on Latin-1 code points *)

Module PyStr.

Definition code (c : ascii) : nat := nat_of_ascii c.

Definition between (lo hi : nat) (c : ascii) : bool :=
  (lo <=? code c)%nat && (code c <=? hi)%nat.

(** [\d] and [str.isdecimal]: below 256 only the ASCII digits. *)
Definition is_digit (c : ascii) : bool := between 48 57 c.

(** [str.isalpha] below 256. *)
Definition is_alpha (c : ascii) : bool :=
  between 65 90 c || between 97 122 c
  || (code c =? 170)%nat || (code c =? 181)%nat || (code c =? 186)%nat
  || between 192 214 c || between 216 246 c || between 248 255 c.

(** Non-decimal characters with [isdigit] or [isnumeric] below 256:
    superscripts two, three, one and the three vulgar fractions. *)
Definition is_numeric_extra (c : ascii) : bool :=
  (code c =? 178)%nat || (code c =? 179)%nat || (code c =? 185)%nat
  || between 188 190 c.

(** [\w] of a [str] pattern: alphanumeric or underscore. *)
Definition is_word (c : ascii) : bool :=
  is_alpha c || is_digit c || is_numeric_extra c || (code c =? 95)%nat.

(** [\s] and [str.isspace] below 256. *)
Definition is_space (c : ascii) : bool :=
  between 9 13 c || between 28 32 c || (code c =? 133)%nat || (code c =? 160)%nat.

(** [str.lower] on one code point. *)
Definition lower_char (c : ascii) : ascii :=
  if between 65 90 c || between 192 214 c || between 216 222 c
  then ascii_of_nat (code c + 32) else c.

Definition chars (s : string) : list ascii := list_ascii_of_string s.
Definition str (l : list ascii) : string := string_of_list_ascii l.

Definition lower (s : string) : string := str (map lower_char (chars s)).

(** [str.split()] with no argument: maximal runs of non-space characters. *)
Fixpoint split_ws_aux (cur : list ascii) (l : list ascii) : list (list ascii) :=
  match l with
  | [] => match cur with [] => [] | _ => [rev cur] end
  | c :: l' =>
      if is_space c
      then match cur with
           | [] => split_ws_aux [] l'
           | _ => rev cur :: split_ws_aux [] l'
           end
      else split_ws_aux (c :: cur) l'
  end.

Definition split (s : string) : list string := map str (split_ws_aux [] (chars s)).

(** [str.strip()] is only used through [not s.strip()]: true when every
    character is white space. *)
Definition is_blank (s : string) : bool := forallb is_space (chars s).

Fixpoint is_prefix (p l : list ascii) : bool :=
  match p, l with
  | [], _ => true
  | a :: p', b :: l' => if Ascii.eqb a b then is_prefix p' l' else false
  | _ :: _, [] => false
  end.

Fixpoint contains_list (p l : list ascii) : bool :=
  is_prefix p l || match l with [] => false | _ :: l' => contains_list p l' end.

(** [w in s] on strings. *)
Definition contains (w s : string) : bool := contains_list (chars w) (chars s).

(** [", ".join(parts)] *)
Fixpoint join (sep : string) (parts : list string) : string :=
  match parts with
  | [] => ""
  | [p] => p
  | p :: rest => p +:+ sep +:+ join sep rest
  end.

(** [str(n)] for a non-negative integer. *)
Definition digit_char (n : nat) : ascii := ascii_of_nat (48 + n).

Fixpoint dec_aux (fuel n : nat) (acc : list ascii) : list ascii :=
  match fuel with
  | O => acc
  | S f =>
      let acc' := digit_char (n mod 10) :: acc in
      if (n <? 10)%nat then acc' else dec_aux f (n / 10) acc'
  end.

Definition str_of_nat (n : nat) : string := str (dec_aux (S n) n []).

Definition str_of_Z (z : Z) : string :=
  match z with
  | Z0 => "0"
  | Zpos p => str_of_nat (Pos.to_nat p)
  | Zneg p => "-" +:+ str_of_nat (Pos.to_nat p)
  end.

(** [s[:n]] *)
Definition take (n : nat) (s : string) : string := String.substring 0 n s.

End PyStr.

(** ** A backtracking matcher for the [re] patterns of the router

    [run r st] lists the states reachable by matching [r] from [st], in
    the order in which a backtracking engine tries them (greedy
    repetition first); [search] takes the first success at the leftmost
    start, as [Pattern.search] does. *)

Module Re.

Inductive regex : Type :=
| Eps : regex
| Chr : (ascii -> bool) -> regex
| Seq : regex -> regex -> regex
| Alt : regex -> regex -> regex
| Star : regex -> regex
| WordB : regex
| Group : regex -> regex.

Definition Plus (r : regex) : regex := Seq r (Star r).
Definition Opt (r : regex) : regex := Alt r Eps.

Fixpoint Times (n : nat) (r : regex) : regex :=
  match n with O => Eps | S n' => Seq r (Times n' r) end.

(** A literal character, and its [re.IGNORECASE] variant. *)
Definition Lit (c : ascii) : regex := Chr (Ascii.eqb c).
Definition LitI (c : ascii) : regex := Chr (fun x => Ascii.eqb (PyStr.lower_char x) c).

Fixpoint Word (mk : ascii -> regex) (l : list ascii) : regex :=
  match l with
  | [] => Eps
  | [c] => mk c
  | c :: l' => Seq (mk c) (Word mk l')
  end.

Record mstate : Type := MState {
  m_prev : option ascii;          (* the character before the position *)
  m_rest : list ascii;            (* the text from the position on *)
  m_grp : option (list ascii)     (* group 1, when it has matched *)
}.

Definition is_word_opt (o : option ascii) : bool :=
  match o with Some c => PyStr.is_word c | None => false end.

(** [\b]: exactly one side of the position is a word character. *)
Definition at_boundary (st : mstate) : bool :=
  xorb (is_word_opt (m_prev st)) (is_word_opt (head (m_rest st))).

Definition consumed (st st' : mstate) : list ascii :=
  firstn (length (m_rest st) - length (m_rest st')) (m_rest st).

(** Greedy repetition of [step]: one more round first, then stopping
    here.  A round that consumes nothing is not repeated. *)
Fixpoint star_run (step : mstate -> list mstate) (fuel : nat) (st : mstate)
  : list mstate :=
  match fuel with
  | O => [st]
  | S f =>
      flat_map
        (fun st' =>
           if (length (m_rest st') <? length (m_rest st))%nat
           then star_run step f st' else [])
        (step st)
      ++ [st]
  end.

Fixpoint run (r : regex) (st : mstate) : list mstate :=
  match r with
  | Eps => [st]
  | Chr p =>
      match m_rest st with
      | c :: rest => if p c then [MState (Some c) rest (m_grp st)] else []
      | [] => []
      end
  | Seq r1 r2 => flat_map (run r2) (run r1 st)
  | Alt r1 r2 => run r1 st ++ run r2 st
  | Star r1 => star_run (run r1) (length (m_rest st)) st
  | WordB => if at_boundary st then [st] else []
  | Group r1 =>
      map (fun st' => MState (m_prev st') (m_rest st') (Some (consumed st st')))
          (run r1 st)
  end.

(** One match: [group(0)] and [group(1)]. *)
Record rmatch : Type := RMatch { group0 : string; group1 : string }.

Definition match_at (r : regex) (prev : option ascii) (rest : list ascii)
  : option rmatch :=
  let st := MState prev rest None in
  match run r st with
  | st' :: _ =>
      Some (RMatch (PyStr.str (consumed st st'))
                   (PyStr.str (default [] (m_grp st'))))
  | [] => None
  end.

Fixpoint search_from (r : regex) (prev : option ascii) (rest : list ascii)
  : option rmatch :=
  match match_at r prev rest with
  | Some m => Some m
  | None =>
      match rest with
      | c :: rest' => search_from r (Some c) rest'
      | [] => None
      end
  end.

Definition search (r : regex) (s : string) : option rmatch :=
  search_from r None (PyStr.chars s).

End Re.

(** ** Data model ([state.py]) *)

Inductive QueryType : Type := CODE | METADATA | VECTOR.

(** [QueryType.value] *)
Definition QueryType_value (t : QueryType) : string :=
  match t with CODE => "code" | METADATA => "metadata" | VECTOR => "vector" end.

Record RetrievedChunk : Type := mkRetrievedChunk {
  chunk_id : Z;
  reg_doc_id : Z;
  reg_code : string;
  url : option string;
  heading : option string;
  content : string;
  score_vec : Q;
  score_fts : Q;
  rrf_rank : Q
}.

Record GradeResult : Type := mkGradeResult {
  is_relevant : bool;
  reason : string;
  confidence : Q
}.

Record RouterResult : Type := mkRouterResult {
  rr_query_type : QueryType;
  extracted_code : option string;
  extracted_metadata : option string;
  reasoning : string
}.

Record Citation : Type := mkCitation {
  cit_reg_code : string;
  cit_url : option string;
  cit_chunk_id : Z;
  excerpt : string
}.

Record GenerationResult : Type := mkGenerationResult {
  answer : string;
  citations : list Citation;
  gen_confidence : Q;
  has_sufficient_evidence : bool
}.

(** The [dict] threaded through the graph: a field is [None] when the key
    is absent (or bound to Python's [None]). *)
Record state : Type := mkState {
  query : option string;
  thread_id : option string;
  query_type : option QueryType;
  router_result : option RouterResult;
  retrieval : option (list RetrievedChunk);
  graded_chunks : option (list (RetrievedChunk * GradeResult));
  relevant_chunks : option (list RetrievedChunk);
  query_history : option (list string);
  search_iterations : option Z;
  max_iterations : option Z;
  generation : option GenerationResult;
  error : option string
}.

(** The empty [dict]. *)
Definition empty_state : state :=
  mkState None None None None None None None None None None None None.

(** [state.get(key, dflt)] *)
Definition get {A : Type} (field : state -> option A) (st : state) (dflt : A) : A :=
  default dflt (field st).

(** Truth value of a [str]. *)
Definition truthy (s : string) : bool := negb (String.eqb s "").

(** ** Query router ([nodes/router.py]) *)

Module Router.
Import Re.

Definition digit : regex := Chr PyStr.is_digit.
Definition space : regex := Chr PyStr.is_space.
Definition dot : regex := Lit ".".

(** The letters [ö] and [ü] of the keyword [bölüm] as code points. *)
Definition o_uml : ascii := ascii_of_nat 246.
Definition u_uml : ascii := ascii_of_nat 252.
Definition bolum : list ascii := ["b"; o_uml; "l"; u_uml; "m"]%char.

(** [r'\b(\d+(?:\.\d+)+)\b'] *)
Definition CODE_PATTERN : regex :=
  Seq WordB
      (Seq (Group (Seq (Plus digit) (Plus (Seq dot (Plus digit)))))
           WordB).

(** [SECTION_PATTERN], compiled with [re.IGNORECASE]: a word boundary, one
    of the keywords section, bölüm, madde, optional white space, group 1 =
    digits followed by any number of dot-digits blocks, a word boundary. *)
Definition SECTION_PATTERN : regex :=
  Seq WordB
      (Seq (Alt (Word LitI (PyStr.chars "section"))
                (Alt (Word LitI bolum) (Word LitI (PyStr.chars "madde"))))
           (Seq (Star space)
                (Seq (Group (Seq (Plus digit) (Star (Seq dot (Plus digit)))))
                     WordB))).

(** [r'\bR\.?G\.?\s*(\d+)\b'], [re.IGNORECASE] *)
Definition RG_PATTERN : regex :=
  Seq WordB
      (Seq (LitI "r") (Seq (Opt dot) (Seq (LitI "g") (Seq (Opt dot)
           (Seq (Star space) (Seq (Group (Plus digit)) WordB)))))).

(** [r'\bA\.?E\.?\s*(\d+)\b'], [re.IGNORECASE] *)
Definition AE_PATTERN : regex :=
  Seq WordB
      (Seq (LitI "a") (Seq (Opt dot) (Seq (LitI "e") (Seq (Opt dot)
           (Seq (Star space) (Seq (Group (Plus digit)) WordB)))))).

Definition roman (c : ascii) : bool :=
  existsb (Ascii.eqb (PyStr.lower_char c)) (PyStr.chars "ivxlcdm").

(** [r'\bEK\s*([IVXLCDM]+)\b'], [re.IGNORECASE] *)
Definition EK_PATTERN : regex :=
  Seq WordB
      (Seq (LitI "e") (Seq (LitI "k")
           (Seq (Star space) (Seq (Group (Plus (Chr roman))) WordB)))).

(** [r'\b\d{2}\.\d{2}\.\d{4}\b'] *)
Definition DATE_PATTERN : regex :=
  Seq WordB
      (Seq (Times 2 digit) (Seq dot (Seq (Times 2 digit) (Seq dot
           (Seq (Times 4 digit) WordB))))).

Definition _detect_code (q : string) : option string :=
  match search SECTION_PATTERN q with
  | Some m => Some (group1 m)
  | None =>
      match search CODE_PATTERN q with
      | Some m => Some (group1 m)
      | None => None
      end
  end.

Fixpoint first_match (patterns : list (regex * string)) (q : string)
  : option string :=
  match patterns with
  | [] => None
  | (pattern, label) :: rest =>
      match search pattern q with
      | Some m => Some (label +:+ " " +:+ group0 m)
      | None => first_match rest q
      end
  end.

Definition _detect_metadata (q : string) : option string :=
  first_match
    [(RG_PATTERN, "R.G."); (AE_PATTERN, "A.E."); (EK_PATTERN, "EK");
     (DATE_PATTERN, "date")] q.

(** [if detected: ...] on an optional string. *)
Definition detected (o : option string) : option string :=
  match o with
  | Some s => if truthy s then Some s else None
  | None => None
  end.

Definition route_query (st : state) : state :=
  let q := get query st "" in
  let history := get query_history st [] in
  let history' :=
    if truthy q && negb (bool_decide (q ∈ history))
    then history ++ [q] else history in
  let out (t : QueryType) (r : RouterResult) : state :=
    mkState (Some q) None (Some t) (Some r) None None None (Some history')
            None None None None in
  match detected (_detect_code q) with
  | Some c =>
      out CODE
          (mkRouterResult CODE (Some c) None
             ("Detected regulation code pattern: " +:+ c))
  | None =>
      match detected (_detect_metadata q) with
      | Some m =>
          out METADATA
              (mkRouterResult METADATA None (Some m)
                 ("Detected metadata pattern: " +:+ m))
      | None =>
          out VECTOR
              (mkRouterResult VECTOR None None
                 "Natural language query - using semantic search")
      end
  end.

End Router.

(** ** Effects: the outside world

    A computation may read and change the world (the database session,
    the remote services) and either returns a value or raises an
    exception, of which only the message is kept. *)

Definition Exn : Type := string.

Definition M (W A : Type) : Type := W -> (Exn + A) * W.

#[global] Instance M_ret {W} : MRet (M W) := fun A (a : A) w => (inr a, w).

#[global] Instance M_bind {W} : MBind (M W) := fun A B (f : A -> M W B) (m : M W A) w =>
  match m w with
  | (inr a, w') => f a w'
  | (inl e, w') => (inl e, w')
  end.

Definition raise {W A} (e : Exn) : M W A := fun w => (inl e, w).

(** [try: m except Exception as e: h e] *)
Definition try_catch {W A} (m : M W A) (h : Exn -> M W A) : M W A := fun w =>
  match m w with
  | (inr a, w') => (inr a, w')
  | (inl e, w') => h e w'
  end.

(** The four SQL statements of [retrieve.py], with their parameters. *)
Inductive Statement : Type :=
| SelectByCode (code code_prefix : string) (limit : Z)
| SelectVector (embedding : list Q) (limit : Z)
| SelectText (query_text : string) (limit : Z)
| SelectAll (limit : Z).

(** A result row.  [row_metric] is the computed column of the statement
    ([vec_distance] or [fts_score]); [None] stands for SQL NULL. *)
Record Row : Type := mkRow {
  row_chunk_id : Z;
  row_reg_doc_id : Z;
  row_reg_code : string;
  row_url : option string;
  row_heading : option string;
  row_content : string;
  row_metric : option Q
}.

(** What the agent calls: the embedding client, [session.execute]
    followed by [fetchall], the construction of the chat client and its
    [ainvoke] on a system and a human message, and the order in which a
    Python [set] of chunk ids is iterated. *)
Record Services (W : Type) : Type := mkServices {
  aembed_query : string -> M W (list Q);
  execute : Statement -> M W (list Row);
  get_llm : M W unit;
  ainvoke : string -> string -> M W string;
  set_iter : gset Z -> list Z;
  set_iter_str : gset string -> list string
}.
Arguments aembed_query {W}.
Arguments execute {W}.
Arguments get_llm {W}.
Arguments ainvoke {W}.
Arguments set_iter {W}.
Arguments set_iter_str {W}.

(** Iterating a set yields each of its elements once, in some order. *)
Definition set_iter_ok {W} (sv : Services W) : Prop :=
  forall s : gset Z, set_iter sv s ≡ₚ elements s.

Definition Qltb (a b : Q) : bool := negb (Qle_bool b a).

(** Truth value of an optional float: [None] and [0.0] are false. *)
Definition truthy_float (o : option Q) : bool :=
  match o with Some x => negb (Qeq_bool x 0%Q) | None => false end.

(** ** Retrieval node ([nodes/retrieve.py]) *)

Module Retrieve.

Definition TOP_K_VECTOR : Z := 20.
Definition TOP_K_FTS : Z := 20.
Definition TOP_K_FINAL : Z := 12.
Definition RRF_K : Z := 60.

Definition chunk_of_row (row : Row) (sv sf rr : Q) : RetrievedChunk :=
  mkRetrievedChunk (row_chunk_id row) (row_reg_doc_id row) (row_reg_code row)
                   (row_url row) (row_heading row) (row_content row) sv sf rr.

(** [1.0 / (RRF_K + rank + 1)] *)
Definition rrf_term (rank : Z) : Q := (1 / inject_Z (RRF_K + rank + 1))%Q.

(** The loop body of [_search_hybrid] for one chunk id. *)
Definition sentinel : Z := 999.

Definition by_id (chunks : list RetrievedChunk) : gmap Z (Z * RetrievedChunk) :=
  list_to_map (reverse (imap (fun i c => (chunk_id c, (Z.of_nat i, c))) chunks)).

Definition rank_in (m : gmap Z (Z * RetrievedChunk)) (id : Z) : Z :=
  match m !! id with Some (i, _) => i | None => sentinel end.

Definition data_in (m : gmap Z (Z * RetrievedChunk)) (id : Z) : option RetrievedChunk :=
  match m !! id with Some (_, c) => Some c | None => None end.

Definition rrf_score_of (vec_rank fts_rank : Z) : Q :=
  let s0 : Q := 0%Q in
  let s1 := if (vec_rank <? sentinel)%Z then (s0 + rrf_term vec_rank)%Q else s0 in
  if (fts_rank <? sentinel)%Z then (s1 + rrf_term fts_rank)%Q else s1.

Definition score_entry (vec_by_id fts_by_id : gmap Z (Z * RetrievedChunk)) (id : Z)
  : option (Q * RetrievedChunk) :=
  let rrf_score := rrf_score_of (rank_in vec_by_id id) (rank_in fts_by_id id) in
  let chunk_data :=
    match data_in vec_by_id id with
    | Some c => Some c
    | None => data_in fts_by_id id
    end in
  match chunk_data with
  | Some c => Some (rrf_score, c)
  | None => None
  end.

(** [list.sort(key=lambda x: x[0], reverse=True)]: a stable sort by
    decreasing key, written as an insertion sort. *)
Fixpoint insert_desc {A} (x : Q * A) (l : list (Q * A)) : list (Q * A) :=
  match l with
  | [] => [x]
  | y :: l' => if Qltb (fst x) (fst y) then y :: insert_desc x l' else x :: l
  end.

Fixpoint sort_desc {A} (l : list (Q * A)) : list (Q * A) :=
  match l with
  | [] => []
  | x :: l' => insert_desc x (sort_desc l')
  end.

Definition restamp (e : Q * RetrievedChunk) : RetrievedChunk :=
  let '(rrf_score, chunk) := e in
  mkRetrievedChunk (chunk_id chunk) (reg_doc_id chunk) (reg_code chunk)
                   (url chunk) (heading chunk) (content chunk)
                   (score_vec chunk) (score_fts chunk) rrf_score.

Section WithServices.
Context {W : Type} (sv : Services W).

Definition _embed_query (q : string) : M W (list Q) := aembed_query sv q.

Definition _search_by_code (code : string) : M W (list RetrievedChunk) :=
  rows ← execute sv (SelectByCode code (code +:+ ".%") TOP_K_FINAL);
  mret (map (fun row => chunk_of_row row 1%Q 1%Q 1%Q) rows).

(** [1.0 / (1.0 + d)] raises [ZeroDivisionError] when [d] is [-1.0]. *)
Definition divides_by_zero (row : Row) : bool :=
  truthy_float (row_metric row) && Qeq_bool (1 + default 0 (row_metric row))%Q 0%Q.

Definition _search_vector (query_embedding : list Q) : M W (list RetrievedChunk) :=
  rows ← execute sv (SelectVector query_embedding TOP_K_VECTOR);
  if existsb divides_by_zero rows then raise "float division by zero" else
  mret (imap (fun i row =>
                let similarity : Q :=
                  if truthy_float (row_metric row)
                  then (1 / (1 + default 0 (row_metric row)))%Q else 0%Q in
                chunk_of_row row similarity 0%Q (rrf_term (Z.of_nat i)))
             rows).

Definition fts_value (row : Row) : Q :=
  if truthy_float (row_metric row) then default 0%Q (row_metric row) else (1 # 2)%Q.

Definition _search_text_only (query_text : string) : M W (list RetrievedChunk) :=
  if negb (truthy query_text) || PyStr.is_blank query_text
  then mret []
  else
    rows ← execute sv (SelectText query_text TOP_K_FTS);
    mret (map (fun row => chunk_of_row row 0%Q (fts_value row) (fts_value row)) rows).

(** The fusion of [_search_hybrid] once both result lists are there. *)
Definition scored_chunks (vec_chunks fts_chunks : list RetrievedChunk)
  : list (Q * RetrievedChunk) :=
  let vec_by_id := by_id vec_chunks in
  let fts_by_id := by_id fts_chunks in
  let all_ids : gset Z := dom vec_by_id ∪ dom fts_by_id in
  omap (score_entry vec_by_id fts_by_id) (set_iter sv all_ids).

Definition fuse (vec_chunks fts_chunks : list RetrievedChunk) : list RetrievedChunk :=
  map restamp (take (Z.to_nat TOP_K_FINAL) (sort_desc (scored_chunks vec_chunks fts_chunks))).

Definition _search_hybrid (q : string) (query_embedding : list Q)
  : M W (list RetrievedChunk) :=
  vec_chunks ← _search_vector query_embedding;
  fts_chunks ← _search_text_only q;
  mret (fuse vec_chunks fts_chunks).

Definition _search_all_chunks (limit : Z) : M W (list RetrievedChunk) :=
  rows ← execute sv (SelectAll limit);
  mret (map (fun row => chunk_of_row row 0%Q 0%Q (1 # 2)%Q) rows).

(** [query_type == QueryType.CODE and router_result and
    router_result.extracted_code]: the code to look up, if any. *)
Definition code_route (st : state) : option string :=
  match get query_type st VECTOR, router_result st with
  | CODE, Some r =>
      match extracted_code r with
      | Some c => if truthy c then Some c else None
      | None => None
      end
  | _, _ => None
  end.

Definition is_empty {A} (l : list A) : bool :=
  match l with [] => true | _ => false end.

(** The inner [try]: hybrid search, full-text search when it raises. *)
Definition hybrid_attempt (q : string) : M W (list RetrievedChunk) :=
  embedding ← _embed_query q;
  _search_hybrid q embedding.

Definition hybrid_or_text (q : string) : M W (list RetrievedChunk) :=
  try_catch (hybrid_attempt q) (fun _ => _search_text_only q).

(** The [if]/[elif] of the outer [try]: the strategy chosen by the
    routing decision. *)
Definition primary_search (st : state) : M W (list RetrievedChunk) :=
  let q := get query st "" in
  match code_route st with
  | Some c => _search_by_code c
  | None =>
      if truthy q && negb (PyStr.is_blank q)
      then hybrid_or_text q
      else mret []
  end.

(** The body of the outer [try]. *)
Definition search_with_fallback (st : state) : M W (list RetrievedChunk) :=
  chunks ← primary_search st;
  if is_empty chunks then _search_all_chunks TOP_K_FINAL else mret chunks.

(** The value returned by the node. *)
Definition retrieved (st : state) (chunks : list RetrievedChunk) : state :=
  mkState (Some (get query st "")) None None None (Some chunks) None None None
          (Some (get search_iterations st 0%Z + 1)%Z) None None None.

Definition retrieve_documents (st : state) : M W state :=
  chunks ←
    try_catch (search_with_fallback st)
      (fun _ => try_catch (_search_all_chunks TOP_K_FINAL) (fun _ => mret []));
  mret (retrieved st chunks).

End WithServices.
End Retrieve.

(** ** Grading node ([nodes/grade.py]) *)

Module Grade.

Definition MIN_CONTENT_LENGTH : nat := 50.

Definition stop_words : list string :=
  ["the"; "a"; "an"; "is"; "are"; "was"; "were"; "be"; "been";
   "what"; "how"; "when"; "where"; "which"; "who"; "why";
   "for"; "of"; "to"; "in"; "on"; "at"; "by"; "with"; "and"; "or"].

Definition meaningful (w : string) : bool :=
  (2 <? String.length w)%nat && negb (bool_decide (w ∈ stop_words)).

Definition _keyword_match_score (q content : string) : Q :=
  if negb (truthy q) || negb (truthy content) then 0%Q
  else
    let query_lower := PyStr.lower q in
    let content_lower := PyStr.lower content in
    let query_words := List.filter meaningful (PyStr.split query_lower) in
    if Retrieve.is_empty query_words then (1 # 2)%Q
    else
      let matches :=
        length (List.filter (fun word => PyStr.contains word content_lower) query_words) in
      (inject_Z (Z.of_nat matches) / inject_Z (Z.of_nat (length query_words)))%Q.

(** [max(a, b, c)] and [min(a, b)] of Python: the first extremal argument. *)
Definition max3 (a b c : Q) : Q :=
  let m := if Qltb a b then b else a in
  if Qltb m c then c else m.

Definition min2 (a b : Q) : Q := if Qltb b a then b else a.

(** [f"{x:.2f}"] on a non-negative rational: two decimals, the nearest
    hundredth (ties to even). *)
Definition hundredths (x : Q) : Z :=
  let n := (Qnum x * 100)%Z in
  let d := Zpos (Qden x) in
  let fl := (n / d)%Z in
  let r2 := (2 * (n mod d))%Z in
  if (r2 <? d)%Z then fl
  else if (d <? r2)%Z then (fl + 1)%Z
  else if Z.even fl then fl else (fl + 1)%Z.

Definition two_digits (z : Z) : string :=
  if (z <? 10)%Z then "0" +:+ PyStr.str_of_Z z else PyStr.str_of_Z z.

Definition fmt2 (x : Q) : string :=
  let h := hundredths x in
  PyStr.str_of_Z (h / 100) +:+ "." +:+ two_digits (h mod 100).

Definition _heuristic_grade (q : string) (chunk : RetrievedChunk) : GradeResult :=
  if (String.length (content chunk) <? MIN_CONTENT_LENGTH)%nat
  then mkGradeResult false "Content too short" (9 # 10)%Q
  else
    let keyword_score := _keyword_match_score q (content chunk) in
    let retrieval_score := max3 (score_vec chunk) (score_fts chunk) (rrf_rank chunk) in
    let combined_score := (keyword_score * (6 # 10) + retrieval_score * (4 # 10))%Q in
    let is_relevant0 :=
      Qltb (1 # 10) combined_score || Qltb (2 # 10) keyword_score
      || Qltb (3 # 10) retrieval_score in
    let is_relevant1 :=
      if Qltb 0 (score_vec chunk) || Qltb 0 (score_fts chunk) then true
      else is_relevant0 in
    mkGradeResult is_relevant1
      ("Keyword: " +:+ fmt2 keyword_score +:+ ", Retrieval: " +:+ fmt2 retrieval_score)
      (min2 (combined_score + (3 # 10)) 1)%Q.

Definition grade_documents (st : state) : state :=
  let q := get query st "" in
  let retr := get retrieval st [] in
  let graded := map (fun chunk => (chunk, _heuristic_grade q chunk)) retr in
  let relevant := map fst (List.filter (fun g => is_relevant (snd g)) graded) in
  mkState (Some q) None None None None (Some graded) (Some relevant) None
          None None None None.

End Grade.
(** ** Generation node ([nodes/generate.py], templates of [config.py]) *)

Module Generate.

Definition nl : string := String (ascii_of_nat 10) EmptyString.
Definition dq : string := String (ascii_of_nat 34) EmptyString.

Definition GENERATOR_SYSTEM_PROMPT : string :=
  "You are a legal regulations assistant for EMU University." +:+ nl +:+
  "Answer questions based ONLY on the provided regulation documents." +:+ nl +:+
  nl +:+
  "CRITICAL RULES:" +:+ nl +:+
  "1. Every substantive claim MUST cite a source with (reg_code, chunk_id)" +:+ nl +:+
  "2. If the documents don't contain enough information, say so explicitly" +:+ nl +:+
  "3. Quote relevant excerpts when making claims" +:+ nl +:+
  "4. Be precise and avoid speculation" +:+ nl +:+
  "5. If asked about something not in the regulations, clearly state that" +:+ nl +:+
  nl +:+
  "Format citations as: [Source: code, chunk_id]".

(** [INSUFFICIENT_EVIDENCE_TEMPLATE.format(query_type=.., queries=..,
    codes=.., findings=..)] *)
Definition INSUFFICIENT_EVIDENCE_TEMPLATE_format
    (query_type_ queries codes findings : string) : string :=
  "I searched the EMU regulations database but could not find sufficient information to answer your question."
  +:+ nl +:+ nl +:+
  "**Search attempted:**" +:+ nl +:+
  "- Query type: " +:+ query_type_ +:+ nl +:+
  "- Queries tried: " +:+ queries +:+ nl +:+
  "- Regulation codes considered: " +:+ codes +:+ nl +:+
  nl +:+
  "**What I found:**" +:+ nl +:+
  findings +:+ nl +:+
  nl +:+
  "Please try rephrasing your question or ask about a specific regulation section if you know the code (e.g., "
  +:+ dq +:+ "What does section 5.1.2 say?" +:+ dq +:+ ").".

(** [x or 'N/A'] on an optional string. *)
Definition or_default (o : option string) (d : string) : string :=
  match o with
  | Some h => if truthy h then h else d
  | None => d
  end.

Definition context_part (i : nat) (chunk : RetrievedChunk) : string :=
  "[Document " +:+ PyStr.str_of_nat (i + 1) +:+ "] Code: " +:+ reg_code chunk
  +:+ ", Chunk ID: " +:+ PyStr.str_of_Z (chunk_id chunk) +:+ nl +:+
  "Heading: " +:+ or_default (heading chunk) "N/A" +:+ nl +:+
  "Content: " +:+ PyStr.take 2000 (content chunk) +:+ nl.

Definition _build_context (chunks : list RetrievedChunk) : string :=
  PyStr.join (nl +:+ "---" +:+ nl) (imap context_part chunks).

(** The findings summary of [_build_insufficient_response]. *)
Definition no_documents : string := "No matching documents were found in the database.".

Definition none_relevant (n : nat) : string :=
  "Found " +:+ PyStr.str_of_nat n
  +:+ " document chunks, but none were relevant to your specific question.".

Definition findings_of (retr : list RetrievedChunk) : string :=
  if Retrieve.is_empty retr then no_documents else none_relevant (length retr).

Definition quoted (q : string) : string := dq +:+ q +:+ dq.

Section WithServices.
Context {W : Type} (sv : Services W).

(** [list(set(c.reg_code for c in retrieval)) if retrieval else []] *)
Definition codes_of (retr : list RetrievedChunk) : list string :=
  if Retrieve.is_empty retr then []
  else set_iter_str sv (list_to_set (map reg_code retr)).

Definition query_type_text (st : state) : string :=
  match query_type st with
  | Some t => QueryType_value t
  | None => "vector"
  end.

Definition _build_insufficient_response (st : state) : GenerationResult :=
  let history := get query_history st [] in
  let retr := get retrieval st [] in
  let codes := codes_of retr in
  let findings := findings_of retr in
  let answer_ :=
    INSUFFICIENT_EVIDENCE_TEMPLATE_format
      (query_type_text st)
      (PyStr.join ", " (map quoted (take 3 history)))
      (if Retrieve.is_empty codes then "None" else PyStr.join ", " (take 5 codes))
      findings in
  mkGenerationResult answer_ [] 0%Q false.

Definition excerpt_of (c : string) : string :=
  if (200 <? String.length c)%nat then PyStr.take 200 c +:+ "..." else c.

Definition citation_of (chunk : RetrievedChunk) : Citation :=
  mkCitation (reg_code chunk) (url chunk) (chunk_id chunk) (excerpt_of (content chunk)).

Definition prompt_of (q context : string) : string :=
  "Question: " +:+ q +:+ nl +:+ nl +:+
  "Relevant Regulation Documents:" +:+ nl +:+
  context +:+ nl +:+ nl +:+
  "Answer the question based ONLY on the documents above." +:+ nl +:+
  "For each claim, cite the source like this: [Source: reg_code, chunk_id]" +:+ nl +:+
  "If the documents don't fully answer the question, say so.".

(** [relevant_chunks if relevant_chunks else retrieval] *)
Definition chunks_to_use (st : state) : list RetrievedChunk :=
  let relevant := get relevant_chunks st [] in
  let retr := get retrieval st [] in
  if Retrieve.is_empty relevant then retr else relevant.

Definition only_generation (g : GenerationResult) (err : option string) : state :=
  mkState None None None None None None None None None None (Some g) err.

Definition generate_answer (st : state) : M W state :=
  let q := get query st "" in
  let chunks := chunks_to_use st in
  if Retrieve.is_empty chunks
  then mret (only_generation (_build_insufficient_response st) None)
  else
    let context := _build_context (take 8 chunks) in
    _ ← get_llm sv;
    let prompt := prompt_of q context in
    try_catch
      (answer_ ← ainvoke sv GENERATOR_SYSTEM_PROMPT prompt;
       let cites := map citation_of (take 8 chunks) in
       mret (only_generation
               (mkGenerationResult answer_ cites
                  (if (3 <=? length chunks)%nat then (8 # 10)%Q else (6 # 10)%Q)
                  true)
               None))
      (fun e =>
         mret (only_generation
                 (mkGenerationResult
                    ("I encountered an error generating the response: " +:+ e)
                    [] 0%Q false)
                 (Some e))).

End WithServices.
End Generate.

(** ** Workflow graph ([graph.py])

    [StateGraph(dict)]: the schema [dict] declares no keys, so LangGraph
    keeps the whole state in one root channel and the value a node
    returns becomes the state handed to the next node (this is why every
    node of the source re-emits ["query"] under the remark IMPORTANT:
    preserve query).  A schema that declares its keys has one channel per
    key instead, and a node's return value only overwrites the keys it
    mentions; [Keyed] is kept next to [Root] to compare the two. *)

Module Graph.

Inductive channels : Type := Root | Keyed.

Definition or_else {A} (new old : option A) : option A :=
  match new with Some _ => new | None => old end.

(** What a node's return value [upd] does to the state [st]. *)
Definition write (ch : channels) (st upd : state) : state :=
  match ch with
  | Root => upd
  | Keyed =>
      mkState (or_else (query upd) (query st))
              (or_else (thread_id upd) (thread_id st))
              (or_else (query_type upd) (query_type st))
              (or_else (router_result upd) (router_result st))
              (or_else (retrieval upd) (retrieval st))
              (or_else (graded_chunks upd) (graded_chunks st))
              (or_else (relevant_chunks upd) (relevant_chunks st))
              (or_else (query_history upd) (query_history st))
              (or_else (search_iterations upd) (search_iterations st))
              (or_else (max_iterations upd) (max_iterations st))
              (or_else (generation upd) (generation st))
              (or_else (error upd) (error st))
  end.

Definition END : string := "__end__".

Record StateGraph (W : Type) : Type := mkStateGraph {
  schema : channels;
  nodes : list (string * (state -> M W state));
  entry_point : string;
  edges : list (string * string)
}.
Arguments schema {W}.
Arguments nodes {W}.
Arguments entry_point {W}.
Arguments edges {W}.

Fixpoint assoc {A} (k : string) (l : list (string * A)) : option A :=
  match l with
  | [] => None
  | (k', v) :: l' => if String.eqb k k' then Some v else assoc k l'
  end.

(** [_should_generate_or_fail] is defined in the source but no edge of
    the graph uses it. *)
Definition _should_generate_or_fail (st : state) : string :=
  if negb (Retrieve.is_empty (get relevant_chunks st [])) then "generate"
  else if negb (Retrieve.is_empty (get retrieval st [])) then "generate"
  else "fail".

Section WithServices.
Context {W : Type} (sv : Services W).

Definition pure_node (f : state -> state) : state -> M W state :=
  fun st => mret (f st).

Definition create_graph : StateGraph W :=
  mkStateGraph W Root
    [("route", pure_node Router.route_query);
     ("retrieve", Retrieve.retrieve_documents sv);
     ("grade", pure_node Grade.grade_documents);
     ("generate", Generate.generate_answer sv)]
    "route"
    [("route", "retrieve"); ("retrieve", "grade"); ("grade", "generate");
     ("generate", END)].

(** The default [recursion_limit] of a compiled graph. *)
Definition recursion_limit : nat := 25.

(** Running a compiled graph: from node [cur], run the node, write its
    result, follow the outgoing edge.  The list of the nodes run so far
    is carried along as a trace. *)
Fixpoint steps (g : StateGraph W) (fuel : nat) (cur : string) (st : state)
    (trace : list string) : M W (state * list string) :=
  match fuel with
  | O => raise "GraphRecursionError"
  | S fuel' =>
      match assoc cur (nodes g) with
      | None => raise ("unknown node " +:+ cur)
      | Some f =>
          upd ← f st;
          let st' := write (schema g) st upd in
          let trace' := trace ++ [cur] in
          match assoc cur (edges g) with
          | Some next =>
              if String.eqb next END then mret (st', trace')
              else steps g fuel' next st' trace'
          | None => mret (st', trace')
          end
      end
  end.

Definition ainvoke_graph (g : StateGraph W) (initial_state : state)
  : M W (state * list string) :=
  steps g recursion_limit (entry_point g) initial_state [].

Definition initial_state (q : string) (tid : option string) : state :=
  mkState (Some q) tid None None (Some []) (Some []) (Some []) (Some [q])
          (Some 0%Z) (Some 1%Z) None None.

Definition run_agent (q : string) (tid : option string) : M W (state * list string) :=
  ainvoke_graph create_graph (initial_state q tid).

(** The same nodes and edges under a schema that declares the keys of the
    state; not what the source builds, kept for comparison. *)
Definition typed_graph : StateGraph W :=
  mkStateGraph W Keyed (nodes create_graph) (entry_point create_graph)
               (edges create_graph).

End WithServices.
End Graph.

(** ** The typed agent state ([state.py], class [AgentState]) *)

Module AgentState.

Record t : Type := mk {
  query : string;
  thread_id : option string;
  query_type : QueryType;
  router_result : option RouterResult;
  retrieval : list RetrievedChunk;
  graded_chunks : list (RetrievedChunk * GradeResult);
  relevant_chunks : list RetrievedChunk;
  query_history : list string;
  search_iterations : Z;
  max_iterations : Z;
  generation : option GenerationResult;
  started_at : Z;
  error : option string
}.

(** [AgentState(query=q)] with the field defaults, created at time [now]. *)
Definition create (q : string) (now : Z) : t :=
  mk q None VECTOR None [] [] [] [] 0 3 None now None.

(** The property [is_relevant]. *)
Definition is_relevant (s : t) : bool := (0 <? length (relevant_chunks s))%nat.

(** The property [has_sufficient_evidence]. *)
Definition has_sufficient_evidence (s : t) : bool :=
  if (length (relevant_chunks s) <? 1)%nat then false
  else
    let distinct_docs :=
      size (list_to_set (map reg_doc_id (relevant_chunks s)) : gset Z) in
    (2 <=? length (relevant_chunks s))%nat || (1 <=? distinct_docs)%nat.

(** The property [should_retry]. *)
Definition should_retry (s : t) : bool :=
  negb (is_relevant s) && (search_iterations s <? max_iterations s)%Z.

End AgentState.

(** ** The chat endpoint ([api/v1/chat.py]) *)

Module Chat.

Record ChatRequest : Type := mkChatRequest {
  req_query : string;
  req_thread_id : option string
}.

Record ChatResponse : Type := mkChatResponse {
  resp_answer : string;
  resp_citations : list Citation;
  resp_confidence : Q;
  resp_has_sufficient_evidence : bool;
  resp_query_history : list string;
  resp_search_iterations : Z
}.

Record HTTPException : Type := mkHTTPException {
  status_code : Z;
  detail : string
}.

(** The body of [chat]: the request has passed the validation of its
    schema; an [HTTPException] is the left result. *)
Definition chat {W} (sv : Services W) (request : ChatRequest)
  : W -> (HTTPException + ChatResponse) * W := fun w =>
  match Graph.run_agent sv (req_query request) (req_thread_id request) w with
  | (inr (final_state, _), w') =>
      match generation final_state with
      | None =>
          (inl (mkHTTPException 500 "Agent did not produce a response"), w')
      | Some g =>
          (inr (mkChatResponse (answer g) (citations g) (gen_confidence g)
                  (has_sufficient_evidence g)
                  (get query_history final_state [])
                  (get search_iterations final_state 0%Z)), w')
      end
  | (inl e, w') => (inl (mkHTTPException 500 ("Agent error: " +:+ e)), w')
  end.

End Chat.

(** ** Query rewriting node ([nodes/rewrite.py]) *)

Module Rewrite.






Definition history_context (history : list string) : string :=
  if (1 <? length history)%nat
  then Generate.nl +:+ Generate.nl +:+ "Previous queries that didn't work:" +:+ Generate.nl
       +:+ PyStr.join Generate.nl (map (fun q => "- " +:+ q) (removelast history))
  else "".

Definition prompt_of (q : string) (history : list string) : string :=
  "Original query: " +:+ q +:+ Generate.nl +:+
  history_context history +:+ Generate.nl +:+
  Generate.nl +:+
  "Rewrite this query to find relevant regulation documents at EMU University." +:+ Generate.nl +:+
  "The database contains regulations about:" +:+ Generate.nl +:+
  "- Student admissions, exams, registration" +:+ Generate.nl +:+
  "- Graduate studies" +:+ Generate.nl +:+
  "- Academic staff" +:+ Generate.nl +:+
  "- Research projects and publications" +:+ Generate.nl +:+
  "- Scholarships and disciplinary matters" +:+ Generate.nl +:+
  Generate.nl +:+
  "Return ONLY the rewritten query, nothing else.".



Section WithServices.
Context {W : Type} (sv : Services W).


End WithServices.
End Rewrite.

(** ** A scripted world for concrete runs

    The world is the log of the calls made so far; every service answers
    from a fixed script, so that failures can be injected one by one. *)

Module Fixture.

Inductive Call : Type :=
| Embed (q : string)
| Exec (s : Statement)
| GetLlm
| Invoke (human : string).

Record script : Type := mkScript {
  on_embed : Exn + list Q;
  on_code : Exn + list Row;
  on_vector : Exn + list Row;
  on_text : Exn + list Row;
  on_all : Exn + list Row;
  on_llm : Exn + unit;
  on_invoke : Exn + string
}.

Definition answer_with {A} (c : Call) (r : Exn + A) : M (list Call) A :=
  fun log => (r, log ++ [c]).

(** [LIMIT n] *)
Definition limited {A} (limit : Z) (r : Exn + list A) : Exn + list A :=
  match r with inr rows => inr (take (Z.to_nat limit) rows) | inl e => inl e end.

Definition services (sc : script) : Services (list Call) :=
  mkServices (list Call)
    (fun q => answer_with (Embed q) (on_embed sc))
    (fun s =>
       answer_with (Exec s)
         match s with
         | SelectByCode _ _ limit => limited limit (on_code sc)
         | SelectVector _ limit => limited limit (on_vector sc)
         | SelectText _ limit => limited limit (on_text sc)
         | SelectAll limit => limited limit (on_all sc)
         end)
    (answer_with GetLlm (on_llm sc))
    (fun _ human => answer_with (Invoke human) (on_invoke sc))
    elements
    elements.

Definition text60 : string :=
  "Students register for courses within the period announced.".

Definition row (id : Z) (code : string) (metric : option Q) : Row :=
  mkRow id 1 code (Some "https://mevzuat.emu.edu.tr/5-1-2") (Some "Registration")
        text60 metric.

Definition corpus : list Row :=
  [row 1 "5.1.2" None; row 2 "5.1.2" None; row 3 "6.3" None].

(** Everything works. *)
Definition healthy : script :=
  mkScript (inr [(1 # 2)%Q; (1 # 4)%Q])
           (inr [row 1 "5.1.2" None; row 2 "5.1.2" None])
           (inr [row 3 "6.3" (Some (1 # 5)%Q); row 1 "5.1.2" (Some (2 # 5)%Q)])
           (inr [row 1 "5.1.2" (Some (3 # 5)%Q); row 2 "5.1.2" (Some (1 # 10)%Q)])
           (inr corpus)
           (inr tt)
           (inr "Registration takes place in the announced period [Source: 5.1.2, 1].").

(** The embedding service is down. *)
Definition no_embedding : script :=
  mkScript (inl "embedding service unavailable")
           (on_code healthy) (on_vector healthy) (on_text healthy)
           (on_all healthy) (on_llm healthy) (on_invoke healthy).

(** The embedding service is down and the text search raises. *)
Definition no_search : script :=
  mkScript (inl "embedding service unavailable")
           (on_code healthy) (inl "vector index missing") (inl "tsquery error")
           (on_all healthy) (on_llm healthy) (on_invoke healthy).

(** The database answers no statement at all. *)
Definition database_down : script :=
  mkScript (on_embed healthy)
           (inl "connection refused") (inl "connection refused")
           (inl "connection refused") (inl "connection refused")
           (on_llm healthy) (on_invoke healthy).

(** The completion service fails. *)
Definition no_completion : script :=
  mkScript (on_embed healthy) (on_code healthy) (on_vector healthy)
           (on_text healthy) (on_all healthy) (on_llm healthy)
           (inl "rate limited").

Definition asks (q : string) : state :=
  mkState (Some q) None None None None None None (Some [q]) None None None None.

(** The state handed to the answer stage. *)
Definition graded_state (q : string) (retr relevant : list RetrievedChunk) : state :=
  mkState (Some q) None (Some VECTOR) None (Some retr) None (Some relevant)
          (Some [q]) None None None None.

Definition demo_chunk (id : Z) (sv sf rr : Q) : RetrievedChunk :=
  mkRetrievedChunk id 1 "5.1.2" None (Some "Registration") text60 sv sf rr.

Definition short_chunk : RetrievedChunk :=
  mkRetrievedChunk 7 1 "5.1.2" None None "Too short." 0%Q (6 # 10)%Q (6 # 10)%Q.

Definition long_chunk : RetrievedChunk := demo_chunk 8 0%Q (6 # 10)%Q (6 # 10)%Q.

(** What the vector search and the full-text search of [healthy] return. *)
Definition vec_demo : list RetrievedChunk :=
  [demo_chunk 3 (5 # 6) 0 (1 # 61); demo_chunk 1 (5 # 7) 0 (1 # 62)].

Definition fts_demo : list RetrievedChunk :=
  [demo_chunk 1 0 (3 # 5) (3 # 5); demo_chunk 2 0 (1 # 10) (1 # 10)].


(** A row whose content is below the grader's minimum length. *)
Definition short_row (id : Z) (metric : option Q) : Row :=
  mkRow id 1 "5.1.2" None None "Too short." metric.

(** Every chunk of the store is shorter than the grader's minimum. *)
Definition terse : script :=
  mkScript (inr [(1 # 2)%Q; (1 # 4)%Q])
           (inr [short_row 7 None])
           (inr [short_row 7 (Some (1 # 5)%Q)])
           (inr [short_row 7 (Some (3 # 5)%Q)])
           (inr [short_row 7 None])
           (inr tt)
           (inr "Registration takes place in the announced period [Source: 5.1.2, 7].").

(** A store that refuses its first [n] statements and answers as [sc]
    afterwards: the log counts the calls made so far. *)
Definition recovering (n : nat) (sc : script) : Services (list Call) :=
  mkServices (list Call)
    (aembed_query (services sc))
    (fun s log =>
       if (length log <? n)%nat
       then answer_with (Exec s) (inl "connection refused") log
       else execute (services sc) s log)
    (get_llm (services sc))
    (ainvoke (services sc))
    elements
    elements.

End Fixture.

(** * Notions used in the statements *)

(** ** Fusion *)

(** Decreasing order of the keys, and the entries with a given key. *)
Definition ge_key {A} (x y : Q * A) : Prop := (fst y <= fst x)%Q.


(** The score attached to a chunk id by the fusion loop. *)
Definition score_of (vec fts : list RetrievedChunk) (id : Z) : Q :=
  Retrieve.rrf_score_of (Retrieve.rank_in (Retrieve.by_id vec) id)
                        (Retrieve.rank_in (Retrieve.by_id fts) id).

(** The whole ranking, before the cut at [TOP_K_FINAL]. *)
Definition ranking {W} (sv : Services W) (vec fts : list RetrievedChunk)
  : list RetrievedChunk :=
  Retrieve.restamp <$> Retrieve.sort_desc (Retrieve.scored_chunks sv vec fts).

(** ** Retrieval *)

(** The store of [sv] holds [corpus]: the sample-all statement returns,
    whenever it answers, the first rows of [corpus], and there is a world
    in which it answers. *)
Definition holds_corpus {W} (sv : Services W) (corpus : list Row) : Prop :=
  (forall (limit : Z) (w w' : W) (rows : list Row),
      execute sv (SelectAll limit) w = (inr rows, w') ->
      rows = take (Z.to_nat limit) corpus)
  /\ exists (w w' : W) (rows : list Row),
       execute sv (SelectAll Retrieve.TOP_K_FINAL) w = (inr rows, w').

(** The sample-all statement does not raise. *)
Definition sample_all_answers {W} (sv : Services W) : Prop :=
  forall w : W, exists rows w',
    execute sv (SelectAll Retrieve.TOP_K_FINAL) w = (inr rows, w').

Section Chain.
Context {W : Type} (sv : Services W).
Import Retrieve.

(** The query is worth a search: not empty and not only white space. *)
Definition searchable (q : string) : Prop :=
  q <> "" /\ PyStr.is_blank q = false.

(** The search chosen by the routing decision, told by the calls it makes:
    from world [w] it ends in world [w'] with the result [r], chunks or an
    exception. *)
Inductive searched (st : state) (w : W) : Exn + list RetrievedChunk -> W -> Prop :=
| by_code (c : string) (r : Exn + list RetrievedChunk) (w' : W) :
    code_route st = Some c ->
    _search_by_code sv c w = (r, w') ->
    searched st w r w'
| by_no_search :
    code_route st = None ->
    ~ searchable (get query st "") ->
    searched st w (inr []) w
| by_hybrid (emb : list Q) (w1 : W) (chunks : list RetrievedChunk) (w' : W) :
    code_route st = None ->
    searchable (get query st "") ->
    _embed_query sv (get query st "") w = (inr emb, w1) ->
    _search_hybrid sv (get query st "") emb w1 = (inr chunks, w') ->
    searched st w (inr chunks) w'
| by_text_after_embedding (e : Exn) (w1 : W) (r : Exn + list RetrievedChunk) (w' : W) :
    code_route st = None ->
    searchable (get query st "") ->
    _embed_query sv (get query st "") w = (inl e, w1) ->
    _search_text_only sv (get query st "") w1 = (r, w') ->
    searched st w r w'
| by_text_after_hybrid (emb : list Q) (w0 : W) (e : Exn) (w1 : W)
    (r : Exn + list RetrievedChunk) (w' : W) :
    code_route st = None ->
    searchable (get query st "") ->
    _embed_query sv (get query st "") w = (inr emb, w0) ->
    _search_hybrid sv (get query st "") emb w0 = (inl e, w1) ->
    _search_text_only sv (get query st "") w1 = (r, w') ->
    searched st w r w'.

(** The chunks returned from world [w], ending in world [w']: those of
    the search when it found some; the sample of all chunks when it found
    none or raised, asked a second time when it raised after a search
    that found none; no chunk when the last sample raised. *)
Inductive fallback_chain (st : state) (w : W) (chunks : list RetrievedChunk) (w' : W)
  : Prop :=
| found :
    searched st w (inr chunks) w' -> chunks <> [] ->
    fallback_chain st w chunks w'
| sampled_after_nothing (w1 : W) :
    searched st w (inr []) w1 ->
    _search_all_chunks sv TOP_K_FINAL w1 = (inr chunks, w') ->
    fallback_chain st w chunks w'
| sampled_after_failure (e : Exn) (w1 : W) :
    searched st w (inl e) w1 ->
    _search_all_chunks sv TOP_K_FINAL w1 = (inr chunks, w') ->
    fallback_chain st w chunks w'
| sampled_again (w1 : W) (e : Exn) (w2 : W) :
    searched st w (inr []) w1 ->
    _search_all_chunks sv TOP_K_FINAL w1 = (inl e, w2) ->
    _search_all_chunks sv TOP_K_FINAL w2 = (inr chunks, w') ->
    fallback_chain st w chunks w'
| nothing_after_failure (e : Exn) (w1 : W) (e1 : Exn) :
    searched st w (inl e) w1 ->
    _search_all_chunks sv TOP_K_FINAL w1 = (inl e1, w') ->
    chunks = [] ->
    fallback_chain st w chunks w'
| nothing_after_nothing (w1 : W) (e1 : Exn) (w2 : W) (e2 : Exn) :
    searched st w (inr []) w1 ->
    _search_all_chunks sv TOP_K_FINAL w1 = (inl e1, w2) ->
    _search_all_chunks sv TOP_K_FINAL w2 = (inl e2, w') ->
    chunks = [] ->
    fallback_chain st w chunks w'.

End Chain.

(** ** Answer stage *)

(** [answer_] is the insufficient-evidence template filled with
    [findings] on its findings line. *)
Definition template_with (findings answer_ : string) : Prop :=
  exists query_type_ queries codes : string,
    answer_ = Generate.INSUFFICIENT_EVIDENCE_TEMPLATE_format query_type_ queries codes findings.

(** ** Workflow *)

(** The chat client can be constructed ([get_llm] does not raise). *)
Definition llm_available {W} (sv : Services W) : Prop :=
  forall w : W, exists w', get_llm sv w = (inr tt, w').

Definition stages : list string := ["route"; "retrieve"; "grade"; "generate"].

(** ** Patterns *)

Section PatternNotions.
Import Re Router.

(** The matches of a pattern, without the order of the attempts. *)
Inductive matches : regex -> mstate -> mstate -> Prop :=
| m_eps st : matches Eps st st
| m_chr p pv c rest g :
    p c = true -> matches (Chr p) (MState pv (c :: rest) g) (MState (Some c) rest g)
| m_seq r1 r2 st st' st'' :
    matches r1 st st' -> matches r2 st' st'' -> matches (Seq r1 r2) st st''
| m_alt_l r1 r2 st st' : matches r1 st st' -> matches (Alt r1 r2) st st'
| m_alt_r r1 r2 st st' : matches r2 st st' -> matches (Alt r1 r2) st st'
| m_star_stop r st : matches (Star r) st st
| m_star_more r st st' st'' :
    matches r st st' -> (length (m_rest st') < length (m_rest st))%nat ->
    matches (Star r) st' st'' -> matches (Star r) st st''
| m_wordb st : at_boundary st = true -> matches WordB st st
| m_group r st st' :
    matches r st st' ->
    matches (Group r) st (MState (m_prev st') (m_rest st') (Some (consumed st st'))).

(** The character before the position reached after reading [l]. *)
Definition prev_after (pv : option ascii) (l : list ascii) : option ascii :=
  fold_left (fun _ c => Some c) l pv.

(** [st'] is reached from [st] by reading [l], the group untouched. *)
Definition reads (l : list ascii) (st st' : mstate) : Prop :=
  m_rest st = l ++ m_rest st'
  /\ m_prev st' = prev_after (m_prev st) l
  /\ m_grp st' = m_grp st.

(** Every match of the pattern reads at least one character. *)
Fixpoint consuming (r : regex) : bool :=
  match r with
  | Chr _ => true
  | Seq r1 r2 => consuming r1 || consuming r2
  | Alt r1 r2 => consuming r1 && consuming r2
  | Group r1 => consuming r1
  | Eps | Star _ | WordB => false
  end.

Fixpoint groupless (r : regex) : bool :=
  match r with
  | Group _ => false
  | Seq r1 r2 | Alt r1 r2 => groupless r1 && groupless r2
  | Star r1 => groupless r1
  | Eps | Chr _ | WordB => true
  end.

(** Every match of the pattern leaves a non-empty group 1. *)
Fixpoint capturing (r : regex) : bool :=
  match r with
  | Group r1 => consuming r1
  | Seq r1 r2 => capturing r2 || (capturing r1 && groupless r2)
  | Alt r1 r2 => capturing r1 && capturing r2
  | Eps | Chr _ | Star _ | WordB => false
  end.

Definition captured (st : mstate) : Prop :=
  exists l, m_grp st = Some l /\ l <> [].

Definition is_digits (ds : list ascii) : Prop :=
  ds <> [] /\ Forall (fun c => PyStr.is_digit c = true) ds.

(** A dotted numeral: a first run of digits and at least one further run,
    each introduced by a dot. *)
Definition dotted (first : list ascii) (groups : list (list ascii)) : list ascii :=
  first ++ flat_map (fun ds => "."%char :: ds) groups.

(** The query [q] holds the dotted-numeric token [tok] between two word
    boundaries, [n] characters from its start. *)
Definition token_at (q tok : string) (n : nat) : Prop :=
  exists (pre first : list ascii) (groups : list (list ascii)) (post : list ascii),
    PyStr.chars q = pre ++ dotted first groups ++ post
    /\ length pre = n
    /\ tok = PyStr.str (dotted first groups)
    /\ is_digits first /\ groups <> [] /\ Forall is_digits groups
    /\ is_word_opt (last pre) = false
    /\ is_word_opt (head post) = false.

Definition contains_token (q tok : string) : Prop := exists n, token_at q tok n.

(** One of the keywords of [SECTION_PATTERN], in any letter case. *)
Definition is_keyword (kw : list ascii) : Prop :=
  map PyStr.lower_char kw = PyStr.chars "section"
  \/ map PyStr.lower_char kw = bolum
  \/ map PyStr.lower_char kw = PyStr.chars "madde".

(** The query [q] holds, [n] characters from its start, a section
    reference with the numeral [c]: a keyword after a word boundary, white
    space or none, and a dotted numeral (a single run of digits included)
    that ends at a word boundary. *)
Definition section_ref_at (q c : string) (n : nat) : Prop :=
  exists (pre kw ws first : list ascii) (groups : list (list ascii)) (post : list ascii),
    PyStr.chars q = pre ++ kw ++ ws ++ dotted first groups ++ post
    /\ length pre = n
    /\ is_keyword kw
    /\ Forall (fun ch => PyStr.is_space ch = true) ws
    /\ c = PyStr.str (dotted first groups)
    /\ is_digits first /\ Forall is_digits groups
    /\ is_word_opt (last pre) = false
    /\ is_word_opt (head post) = false.

(** The numeral of the leftmost section reference, the longest one that
    reference admits. *)
Definition first_section_ref (q c : string) : Prop :=
  exists n,
    section_ref_at q c n
    /\ (forall c' n', section_ref_at q c' n' -> (n <= n')%nat)
    /\ (forall c', section_ref_at q c' n -> (String.length c' <= String.length c)%nat).

(** The longest token that starts where the leftmost token starts. *)
Definition first_token (q c : string) : Prop :=
  exists n,
    token_at q c n
    /\ (forall tok' n', token_at q tok' n' -> (n <= n')%nat)
    /\ (forall tok', token_at q tok' n -> (String.length tok' <= String.length c)%nat).

(** The code the router extracts from [q]. *)
Definition first_code (q c : string) : Prop :=
  first_section_ref q c
  \/ ((forall c' n, ~ section_ref_at q c' n) /\ first_token q c).

(** The keyword alternative of [SECTION_PATTERN]. *)
Definition keywords : regex :=
  Alt (Word LitI (PyStr.chars "section"))
      (Alt (Word LitI bolum) (Word LitI (PyStr.chars "madde"))).

(** What is left to read in a state, and a list of states in the order of
    the attempts that reads less and less. *)
Definition rlen (s : mstate) : nat := length (m_rest s).

Definition asc (l : list mstate) : Prop :=
  StronglySorted (fun a b => (rlen a <= rlen b)%nat) l.

(** The next character of the state satisfies [p]. *)
Definition next_is (p : ascii -> bool) (s : mstate) : Prop :=
  exists c r, m_rest s = c :: r /\ p c = true.

(** The routing decision written by [route_query]. *)
Definition routed (st : state) (t : QueryType) (code : option string) : Prop :=
  query_type (route_query st) = Some t
  /\ exists r, router_result (route_query st) = Some r
               /\ rr_query_type r = t /\ extracted_code r = code.

End PatternNotions.

(** ** Notions for the further properties *)

Section RouterNotions.
Import Re Router.

(** A regulation code as the router extracts it: runs of digits separated
    by single dots. *)
Definition code_shaped (c : string) : Prop :=
  exists (first : list ascii) (groups : list (list ascii)),
    PyStr.chars c = dotted first groups
    /\ is_digits first /\ Forall is_digits groups.

(** [c] occurs in [q] as a contiguous piece. *)
Definition substring_of (c q : string) : Prop :=
  exists pre post : list ascii, PyStr.chars q = pre ++ PyStr.chars c ++ post.

Definition digit_or_dot (ch : ascii) : Prop :=
  PyStr.is_digit ch = true \/ ch = "."%char.

End RouterNotions.

(** The retrieval node when nothing is searched first. *)
Definition sample_all_twice {W} (sv : Services W) (st : state) : M W state := fun w =>
  match Retrieve._search_all_chunks sv Retrieve.TOP_K_FINAL w with
  | (inr chunks, w1) => (inr (Retrieve.retrieved st chunks), w1)
  | (inl _, w1) =>
      match Retrieve._search_all_chunks sv Retrieve.TOP_K_FINAL w1 with
      | (inr chunks, w2) => (inr (Retrieve.retrieved st chunks), w2)
      | (inl _, w2) => (inr (Retrieve.retrieved st []), w2)
      end
  end.


(** * Verification *)

(** ** Rational comparisons *)

Lemma Qltb_lt (a b : Q) : Qltb a b = true <-> (a < b)%Q.
Proof.
  unfold Qltb. rewrite negb_true_iff. split.
  - intros H. apply Qnot_le_lt. intros Hle.
    apply Qle_bool_iff in Hle. congruence.
  - intros H. destruct (Qle_bool b a) eqn:E; [|reflexivity].
    apply Qle_bool_iff in E. exfalso. exact (Qlt_not_le _ _ H E).
Qed.

Lemma Qltb_ge (a b : Q) : Qltb a b = false <-> (b <= a)%Q.
Proof.
  unfold Qltb. rewrite negb_false_iff. apply Qle_bool_iff.
Qed.

(** ** The grader *)

Section GradeFacts.
Import Grade.

Lemma ratio_nonneg (m n : nat) :
  (0 <= inject_Z (Z.of_nat m) / inject_Z (Z.of_nat n))%Q.
Proof.
  unfold Qdiv. apply Qmult_le_0_compat.
  - change 0%Q with (inject_Z 0). rewrite <- Zle_Qle. lia.
  - apply Qinv_le_0_compat.
    change 0%Q with (inject_Z 0). rewrite <- Zle_Qle. lia.
Qed.

Lemma keyword_score_nonneg (q c : string) : (0 <= _keyword_match_score q c)%Q.
Proof.
  unfold _keyword_match_score.
  destruct (negb (truthy q) || negb (truthy c)); [apply Qle_refl|].
  destruct (Retrieve.is_empty _); [discriminate|].
  apply ratio_nonneg.
Qed.

Lemma max3_ge_first (a b c : Q) : (a <= max3 a b c)%Q.
Proof.
  unfold max3.
  destruct (Qltb a b) eqn:Hab.
  - apply Qltb_lt in Hab.
    destruct (Qltb b c) eqn:Hbc.
    + apply Qltb_lt in Hbc. apply Qlt_le_weak. eapply Qlt_trans; eassumption.
    + apply Qlt_le_weak. assumption.
  - destruct (Qltb a c) eqn:Hac.
    + apply Qltb_lt in Hac. apply Qlt_le_weak. assumption.
    + apply Qle_refl.
Qed.

Lemma min2_glb (a b k : Q) : (k <= a)%Q -> (k <= b)%Q -> (k <= min2 a b)%Q.
Proof. intros Ha Hb. unfold min2. destruct (Qltb b a); assumption. Qed.

(** The early exit of the grader. *)
Lemma grade_short (q : string) (chunk : RetrievedChunk) :
  (String.length (content chunk) < MIN_CONTENT_LENGTH)%nat ->
  _heuristic_grade q chunk = mkGradeResult false "Content too short" (9 # 10)%Q.
Proof.
  intros H. unfold _heuristic_grade.
  destruct (Nat.ltb_spec (String.length (content chunk)) MIN_CONTENT_LENGTH);
    [reflexivity | lia].
Qed.

(** Past the length check, a positive retriever score forces relevance. *)
Lemma grade_trusts_retriever (q : string) (chunk : RetrievedChunk) :
  (MIN_CONTENT_LENGTH <= String.length (content chunk))%nat ->
  (0 < score_vec chunk)%Q \/ (0 < score_fts chunk)%Q ->
  is_relevant (_heuristic_grade q chunk) = true.
Proof.
  intros Hlen Hpos. unfold _heuristic_grade.
  destruct (Nat.ltb_spec (String.length (content chunk)) MIN_CONTENT_LENGTH);
    [lia|].
  cbn [is_relevant].
  destruct Hpos as [Hv | Hf].
  - apply Qltb_lt in Hv. rewrite Hv. reflexivity.
  - apply Qltb_lt in Hf. rewrite Hf. rewrite orb_true_r. reflexivity.
Qed.

Lemma pos_of_nonneg_nonzero (x : Q) : (0 <= x)%Q -> ~ (x == 0)%Q -> (0 < x)%Q.
Proof.
  intros Hle Hne. apply Qnot_le_lt. intros H.
  apply Hne. apply Qle_antisym; assumption.
Qed.

End GradeFacts.

(** C5, as stated, fails: a chunk with a nonzero full-text score whose
    content is shorter than 50 characters is graded irrelevant by the
    early exit on the content length. *)
Lemma C5_short_chunk_not_relevant :
  ~ (forall (q : string) (chunk : RetrievedChunk),
        ~ (score_vec chunk == 0)%Q \/ ~ (score_fts chunk == 0)%Q ->
        is_relevant (Grade._heuristic_grade q chunk) = true).
Proof.
  intros H.
  specialize (H "registration period" Fixture.short_chunk).
  assert (Hfalse : is_relevant (Grade._heuristic_grade "registration period" Fixture.short_chunk) = false)
    by reflexivity.
  rewrite H in Hfalse; [discriminate|].
  right. intros Heq. vm_compute in Heq. discriminate.
Qed.

(** C5, amended: for every query and every chunk whose content has at
    least 50 characters and whose vector score or full-text score is
    nonzero (scores being non-negative, as in the data model), the grader
    marks the chunk relevant, whatever the keyword overlap. *)
Theorem C5_nonzero_score_relevant (q : string) (chunk : RetrievedChunk) :
  (Grade.MIN_CONTENT_LENGTH <= String.length (content chunk))%nat ->
  (0 <= score_vec chunk)%Q -> (0 <= score_fts chunk)%Q ->
  ~ (score_vec chunk == 0)%Q \/ ~ (score_fts chunk == 0)%Q ->
  is_relevant (Grade._heuristic_grade q chunk) = true.
Proof.
  intros Hlen Hv Hf [Hnz | Hnz]; apply grade_trusts_retriever; auto.
  - left. apply pos_of_nonneg_nonzero; assumption.
  - right. apply pos_of_nonneg_nonzero; assumption.
Qed.

Lemma C5_witness :
  is_relevant (Grade._heuristic_grade "tuition fees abroad" Fixture.long_chunk) = true.
Proof.
  apply (C5_nonzero_score_relevant "tuition fees abroad" Fixture.long_chunk).
  - vm_compute. lia.
  - vm_compute. discriminate.
  - vm_compute. discriminate.
  - right. intros Heq. vm_compute in Heq. discriminate.
Defined.

(** C6, as stated, fails on the reason text only: the grader writes
    [Content too short], with a capital letter. *)
Lemma C6_reason_is_capitalised :
  ~ (forall (q : string) (chunk : RetrievedChunk),
        (String.length (content chunk) < 50)%nat ->
        is_relevant (Grade._heuristic_grade q chunk) = false
        /\ confidence (Grade._heuristic_grade q chunk) = (9 # 10)%Q
        /\ reason (Grade._heuristic_grade q chunk) = "content too short").
Proof.
  intros H.
  destruct (H "registration period" Fixture.short_chunk) as (_ & _ & Hreason).
  - vm_compute. lia.
  - vm_compute in Hreason. discriminate.
Qed.

(** C6, amended: for every query, grading a chunk whose content is
    shorter than 50 characters returns is_relevant = false with
    confidence exactly 0.9 and reason [Content too short]. *)
Theorem C6_short_content_irrelevant (q : string) (chunk : RetrievedChunk) :
  (String.length (content chunk) < 50)%nat ->
  is_relevant (Grade._heuristic_grade q chunk) = false
  /\ confidence (Grade._heuristic_grade q chunk) = (9 # 10)%Q
  /\ reason (Grade._heuristic_grade q chunk) = "Content too short".
Proof.
  intros H. rewrite (grade_short q chunk H). repeat split.
Qed.

Lemma C6_witness :
  is_relevant (Grade._heuristic_grade "registration period" Fixture.short_chunk) = false
  /\ confidence (Grade._heuristic_grade "registration period" Fixture.short_chunk) = (9 # 10)%Q
  /\ reason (Grade._heuristic_grade "registration period" Fixture.short_chunk) = "Content too short".
Proof.
  apply (C6_short_content_irrelevant "registration period" Fixture.short_chunk).
  vm_compute. lia.
Defined.

(** ** Running computations *)

Lemma bind_run {W A B} (m : M W A) (f : A -> M W B) (w : W) :
  (m ≫= f) w =
  match m w with
  | (inr a, w') => f a w'
  | (inl e, w') => (inl e, w')
  end.
Proof. reflexivity. Qed.

Lemma ret_run {W A} (a : A) (w : W) : (mret a : M W A) w = (inr a, w).
Proof. reflexivity. Qed.

(** ** Code lookup and its grading *)

Lemma search_by_code_scores {W} (sv : Services W) (code : string) (w w' : W)
    (chunks : list RetrievedChunk) (c : RetrievedChunk) :
  Retrieve._search_by_code sv code w = (inr chunks, w') ->
  In c chunks ->
  score_vec c = 1%Q /\ score_fts c = 1%Q /\ rrf_rank c = 1%Q.
Proof.
  unfold Retrieve._search_by_code. rewrite bind_run.
  destruct (execute sv _ w) as [[e | rows] w1]; [discriminate|].
  rewrite ret_run. intros [= <- <-] Hin.
  apply in_map_iff in Hin as (row & <- & _). repeat split.
Qed.

Lemma max3_ones : Grade.max3 1 1 1 = 1%Q.
Proof. reflexivity. Qed.

(** C10: every chunk produced by the direct code lookup carries
    score_vec = score_fts = rrf_rank = 1.0 and therefore, for every
    query, is graded relevant with confidence at least 0.7 as soon as its
    content has at least 50 characters. *)
Theorem C10_code_lookup_chunks_relevant {W} (sv : Services W) (code : string)
    (w w' : W) (chunks : list RetrievedChunk) (c : RetrievedChunk) :
  Retrieve._search_by_code sv code w = (inr chunks, w') ->
  In c chunks ->
  (score_vec c = 1%Q /\ score_fts c = 1%Q /\ rrf_rank c = 1%Q)
  /\ forall q : string,
       (50 <= String.length (content c))%nat ->
       is_relevant (Grade._heuristic_grade q c) = true
       /\ (7 # 10 <= confidence (Grade._heuristic_grade q c))%Q.
Proof.
  intros Hrun Hin.
  destruct (search_by_code_scores sv code w w' chunks c Hrun Hin) as (Hv & Hf & Hr).
  split; [auto|]. intros q Hlen. split.
  - apply grade_trusts_retriever; [exact Hlen|]. left. rewrite Hv. reflexivity.
  - unfold Grade._heuristic_grade.
    destruct (Nat.ltb_spec (String.length (content c)) Grade.MIN_CONTENT_LENGTH);
      [unfold Grade.MIN_CONTENT_LENGTH in *; lia|].
    cbn [confidence]. rewrite Hv, Hf, Hr, max3_ones.
    pose proof (keyword_score_nonneg q (content c)) as Hk.
    apply min2_glb; [|discriminate].
    set (k := Grade._keyword_match_score q (content c)) in *. lra.
Qed.

Lemma C10_witness :
  let c := Retrieve.chunk_of_row (Fixture.row 1 "5.1.2" None) 1 1 1 in
  (score_vec c = 1%Q /\ score_fts c = 1%Q /\ rrf_rank c = 1%Q)
  /\ forall q : string,
       (50 <= String.length (content c))%nat ->
       is_relevant (Grade._heuristic_grade q c) = true
       /\ (7 # 10 <= confidence (Grade._heuristic_grade q c))%Q.
Proof.
  intros c.
  apply (C10_code_lookup_chunks_relevant (Fixture.services Fixture.healthy) "5.1.2"
           [] [Fixture.Exec (SelectByCode "5.1.2" "5.1.2.%" 12)]
           (map (fun r => Retrieve.chunk_of_row r 1 1 1)
                [Fixture.row 1 "5.1.2" None; Fixture.row 2 "5.1.2" None])).
  - reflexivity.
  - left. reflexivity.
Defined.

(** ** The answer stage *)

Section GenerateFacts.
Context {W : Type} (sv : Services W).
Import Generate.

Lemma insufficient_fields (st : state) :
  citations (_build_insufficient_response sv st) = []
  /\ gen_confidence (_build_insufficient_response sv st) = 0%Q
  /\ has_sufficient_evidence (_build_insufficient_response sv st) = false.
Proof. repeat split. Qed.

(** The three shapes of a result of [generate_answer]. *)
Lemma generate_answer_cases (st : state) (w w' : W) (out : state) :
  generate_answer sv st w = (inr out, w') ->
  (chunks_to_use st = [] /\ w' = w
   /\ out = only_generation (_build_insufficient_response sv st) None)
  \/ (exists a, out = only_generation
                 (mkGenerationResult a (map citation_of (take 8 (chunks_to_use st)))
                    (if (3 <=? length (chunks_to_use st))%nat then (8 # 10)%Q else (6 # 10)%Q)
                    true) None)
  \/ (exists e, out = only_generation
                 (mkGenerationResult
                    ("I encountered an error generating the response: " +:+ e) [] 0%Q false)
                 (Some e)).
Proof.
  unfold generate_answer.
  destruct (chunks_to_use st) as [|c cs] eqn:Hc; cbn [Retrieve.is_empty].
  - rewrite ret_run. intros [= <- <-]. left. auto.
  - rewrite bind_run. destruct (get_llm sv w) as [[e | []] w1]; [discriminate|].
    unfold try_catch. rewrite bind_run.
    destruct (ainvoke sv _ _ w1) as [[e | a] w2]; rewrite ret_run; intros [= <- <-].
    + right. right. eauto.
    + right. left. eauto.
Qed.

Lemma findings_distinct (n : nat) : none_relevant n <> no_documents.
Proof. unfold none_relevant, no_documents. cbn. discriminate. Qed.

End GenerateFacts.

(** C7: every result of the answer stage with has_sufficient_evidence =
    false, whether built by the insufficient-evidence path or by the
    generation-failure path, has no citation and confidence 0.0. *)
Theorem C7_insufficient_evidence_shape {W} (sv : Services W) (st : state) :
  (has_sufficient_evidence (Generate._build_insufficient_response sv st) = false
   /\ citations (Generate._build_insufficient_response sv st) = []
   /\ gen_confidence (Generate._build_insufficient_response sv st) = 0%Q)
  /\ forall (w w' : W) (out : state) (g : GenerationResult),
       Generate.generate_answer sv st w = (inr out, w') ->
       generation out = Some g ->
       has_sufficient_evidence g = false ->
       citations g = [] /\ gen_confidence g = 0%Q.
Proof.
  split; [repeat split|].
  intros w w' out g Hrun Hg Hev.
  destruct (generate_answer_cases sv st w w' out Hrun)
    as [(_ & _ & ->) | [[a ->] | [e ->]]];
    cbn in Hg; injection Hg as <-; cbn in *; [auto | discriminate | auto].
Qed.

Lemma C7_witness :
  let g := mkGenerationResult
             "I encountered an error generating the response: rate limited" [] 0%Q false in
  citations g = [] /\ gen_confidence g = 0%Q.
Proof.
  intros g.
  refine (proj2 (C7_insufficient_evidence_shape (Fixture.services Fixture.no_completion)
                   (Fixture.graded_state "registration period" [Fixture.long_chunk] [Fixture.long_chunk]))
                [] _ _ g _ _ _).
  - vm_compute. reflexivity.
  - reflexivity.
  - reflexivity.
Defined.

Section TemplateFacts.
Import Generate.

Lemma chars_app (a b : string) : PyStr.chars (a +:+ b) = PyStr.chars a ++ PyStr.chars b.
Proof. unfold PyStr.chars. induction a as [|c a IH]; simpl; [reflexivity | f_equal; exact IH]. Qed.

(** The template ends with the findings and a fixed closing text. *)
Lemma format_chars :
  exists closing : list ascii,
    forall qt qs cs findings : string,
      exists opening : list ascii,
        PyStr.chars (INSUFFICIENT_EVIDENCE_TEMPLATE_format qt qs cs findings)
        = opening ++ PyStr.chars findings ++ closing.
Proof.
  exists (PyStr.chars
            (nl +:+ nl +:+
             "Please try rephrasing your question or ask about a specific regulation section if you know the code (e.g., "
             +:+ dq +:+ "What does section 5.1.2 say?" +:+ dq +:+ ").")).
  intros qt qs cs findings.
  exists (PyStr.chars
            ("I searched the EMU regulations database but could not find sufficient information to answer your question."
             +:+ nl +:+ nl +:+
             "**Search attempted:**" +:+ nl +:+
             "- Query type: " +:+ qt +:+ nl +:+
             "- Queries tried: " +:+ qs +:+ nl +:+
             "- Regulation codes considered: " +:+ cs +:+ nl +:+
             nl +:+
             "**What I found:**" +:+ nl)).
  unfold INSUFFICIENT_EVIDENCE_TEMPLATE_format.
  rewrite !chars_app, <- !app_assoc. reflexivity.
Qed.

(** No filling of the template with the found-but-none-relevant sentence
    is a filling with the no-documents sentence. *)
Lemma template_findings_differ (n : nat) (qt qs cs qt' qs' cs' : string) :
  INSUFFICIENT_EVIDENCE_TEMPLATE_format qt qs cs no_documents
  <> INSUFFICIENT_EVIDENCE_TEMPLATE_format qt' qs' cs' (none_relevant n).
Proof.
  intros Heq. apply (f_equal PyStr.chars) in Heq.
  destruct format_chars as [closing Hsplit].
  destruct (Hsplit qt qs cs no_documents) as [o1 H1].
  destruct (Hsplit qt' qs' cs' (none_relevant n)) as [o2 H2].
  rewrite H1, H2, !app_assoc in Heq. apply app_inv_tail in Heq.
  unfold none_relevant in Heq. rewrite !chars_app in Heq.
  change (PyStr.chars no_documents)
    with (PyStr.chars "No matching documents were found in the databas" ++ ["e"; "."]%char)
    in Heq.
  change (PyStr.chars " document chunks, but none were relevant to your specific question.")
    with (PyStr.chars " document chunks, but none were relevant to your specific questio"
          ++ ["n"; "."]%char) in Heq.
  rewrite !app_assoc in Heq.
  change ["e"; "."]%char with (["e"] ++ ["."])%char in Heq.
  change ["n"; "."]%char with (["n"] ++ ["."])%char in Heq.
  rewrite !app_assoc in Heq.
  apply app_inj_tail in Heq as [Heq _].
  apply app_inj_tail in Heq as [_ Heq]. discriminate.
Qed.

End TemplateFacts.

Section AnswerFacts.
Context {W : Type} (sv : Services W).
Import Generate.

Lemma chunks_to_use_nil (st : state) :
  chunks_to_use st = [] <-> get relevant_chunks st [] = [] /\ get retrieval st [] = [].
Proof.
  unfold chunks_to_use.
  destruct (get relevant_chunks st []) as [|c cs]; cbn; [tauto|].
  split; [discriminate | intros [[=] _]].
Qed.

(** The answer stage without chunks. *)
Lemma insufficient_answer (st : state) (w : W) :
  chunks_to_use st = [] ->
  let g := _build_insufficient_response sv st in
  generate_answer sv st w = (inr (only_generation g None), w)
  /\ gen_confidence g = 0%Q /\ citations g = [] /\ has_sufficient_evidence g = false
  /\ get retrieval st [] = []
  /\ template_with no_documents (answer g)
  /\ forall n, ~ template_with (none_relevant n) (answer g).
Proof.
  intros Hnone g.
  pose proof (proj1 (chunks_to_use_nil st) Hnone) as [_ Hretr].
  split; [unfold generate_answer; rewrite Hnone; reflexivity|].
  split; [reflexivity|]. split; [reflexivity|]. split; [reflexivity|].
  split; [exact Hretr|].
  assert (Hanswer : exists qt qs cs,
             answer g = INSUFFICIENT_EVIDENCE_TEMPLATE_format qt qs cs no_documents).
  { subst g. unfold _build_insufficient_response. rewrite Hretr.
    eexists _, _, _. reflexivity. }
  split; [exact Hanswer|].
  intros n (qt' & qs' & cs' & Hn). destruct Hanswer as (qt & qs & cs & Hno).
  rewrite Hno in Hn. exact (template_findings_differ n _ _ _ _ _ _ Hn).
Qed.

End AnswerFacts.

(** ** The retrieval node *)

Section RetrieveFacts.
Context {W : Type} (sv : Services W).
Import Retrieve.

Lemma searchable_spec (q : string) :
  truthy q && negb (PyStr.is_blank q) = true <-> searchable q.
Proof.
  unfold searchable, truthy. rewrite andb_true_iff, !negb_true_iff, String.eqb_neq.
  reflexivity.
Qed.

Lemma primary_search_searched (st : state) (w : W) :
  searched sv st w (fst (primary_search sv st w)) (snd (primary_search sv st w)).
Proof.
  unfold primary_search.
  destruct (code_route st) as [c|] eqn:Hroute.
  - eapply by_code; [exact Hroute | apply surjective_pairing].
  - destruct (truthy (get query st "") && negb (PyStr.is_blank (get query st ""))) eqn:Hq.
    + apply searchable_spec in Hq.
      unfold hybrid_or_text, try_catch, hybrid_attempt. rewrite bind_run.
      destruct (_embed_query sv (get query st "") w) as [[e | emb] w1] eqn:Hemb.
      * eapply by_text_after_embedding; eauto using surjective_pairing.
      * destruct (_search_hybrid sv (get query st "") emb w1) as [[e | chunks] w2] eqn:Hhyb.
        -- eapply by_text_after_hybrid; eauto using surjective_pairing.
        -- eapply by_hybrid; eauto.
    + rewrite ret_run. apply by_no_search; [exact Hroute|].
      intros Hs. apply searchable_spec in Hs. congruence.
Qed.

Lemma searched_functional (st : state) (w : W) (r r' : Exn + list RetrievedChunk)
    (w1 w1' : W) :
  searched sv st w r w1 -> searched sv st w r' w1' -> r = r' /\ w1 = w1'.
Proof.
  intros H H'.
  destruct H as [c r w1 Hc Hrun | Hc Hq | emb w0 chunks w1 Hc Hq He Hh
                 | e w0 r w1 Hc Hq He Ht | emb w0 e w2 r w1 Hc Hq He Hh Ht];
    destruct H' as [c' r' w1' Hc' Hrun' | Hc' Hq' | emb' w0' chunks' w1' Hc' Hq' He' Hh'
                    | e' w0' r' w1' Hc' Hq' He' Ht' | emb' w0' e' w2' r' w1' Hc' Hq' He' Hh' Ht'];
    try congruence; try contradiction;
    try (rewrite He in He'; injection He' as ? ?; subst);
    try (rewrite Hh in Hh'; injection Hh' as ? ?; subst);
    try (split; congruence).
Qed.

Lemma retrieve_documents_run (st : state) (w : W) :
  exists chunks w',
    retrieve_documents sv st w = (inr (retrieved st chunks), w')
    /\ fallback_chain sv st w chunks w'.
Proof.
  pose proof (primary_search_searched st w) as Hs.
  unfold retrieve_documents. rewrite bind_run. unfold try_catch at 1.
  unfold search_with_fallback. rewrite bind_run.
  destruct (primary_search sv st w) as [[e | chunks] w1] eqn:Hp; cbn [fst snd] in Hs.
  - unfold try_catch.
    destruct (_search_all_chunks sv TOP_K_FINAL w1) as [[e2 | cs] w2] eqn:Hall;
      rewrite !ret_run; eexists _, _; (split; [reflexivity|]).
    + eapply nothing_after_failure; eauto.
    + eapply sampled_after_failure; eauto.
  - destruct chunks as [|c cs]; cbn [is_empty].
    + destruct (_search_all_chunks sv TOP_K_FINAL w1) as [[e | cs] w2] eqn:Hall.
      * unfold try_catch.
        destruct (_search_all_chunks sv TOP_K_FINAL w2) as [[e2 | cs] w3] eqn:Hall2;
          rewrite !ret_run; eexists _, _; (split; [reflexivity|]).
        -- eapply nothing_after_nothing; eauto.
        -- eapply sampled_again; eauto.
      * rewrite ret_run. eexists _, _. split; [reflexivity|].
        eapply sampled_after_nothing; eauto.
    + rewrite !ret_run. eexists _, _. split; [reflexivity|].
      apply found; [exact Hs | discriminate].
Qed.

Lemma fallback_chain_functional (st : state) (w : W) (chunks chunks' : list RetrievedChunk)
    (w1 w1' : W) :
  fallback_chain sv st w chunks w1 -> fallback_chain sv st w chunks' w1' ->
  chunks = chunks' /\ w1 = w1'.
Proof.
  intros H H'.
  destruct H as [Hs Hne | w0 Hs Ha | e w0 Hs Ha | w0 e w2 Hs Ha Hb
                 | e w0 e1 Hs Ha Hnil | w0 e1 w2 e2 Hs Ha Hb Hnil];
    destruct H' as [Hs' Hne' | w0' Hs' Ha' | e' w0' Hs' Ha' | w0' e' w2' Hs' Ha' Hb'
                    | e' w0' e1' Hs' Ha' Hnil' | w0' e1' w2' e2' Hs' Ha' Hb' Hnil'];
    destruct (searched_functional st w _ _ _ _ Hs Hs') as [Hr Hw];
    try discriminate; try (injection Hr as ?); subst;
    try congruence;
    try (rewrite Ha in Ha'; injection Ha' as ? ?; subst);
    try (rewrite Hb in Hb'; injection Hb' as ? ?; subst);
    try (split; congruence); try discriminate.
Qed.

Lemma sample_all_chunks_rows (corpus : list Row) (w w' : W) (chunks : list RetrievedChunk) :
  holds_corpus sv corpus -> corpus <> [] ->
  _search_all_chunks sv TOP_K_FINAL w = (inr chunks, w') -> chunks <> [].
Proof.
  intros [Hrows _] Hne. unfold _search_all_chunks. rewrite bind_run.
  destruct (execute sv (SelectAll TOP_K_FINAL) w) as [[e | rows] w1] eqn:Hexec; [discriminate|].
  rewrite ret_run. intros [= <- <-].
  rewrite (Hrows _ _ _ _ Hexec).
  destruct corpus; [congruence | discriminate].
Qed.

Lemma sample_all_chunks_answers (w w' : W) (e : Exn) :
  sample_all_answers sv -> _search_all_chunks sv TOP_K_FINAL w <> (inl e, w').
Proof.
  intros Hans. unfold _search_all_chunks. rewrite bind_run.
  destruct (Hans w) as (rows & w1 & ->). rewrite ret_run. discriminate.
Qed.

End RetrieveFacts.

Lemma recovering_holds_corpus :
  holds_corpus (Fixture.recovering 4 Fixture.healthy) Fixture.corpus.
Proof.
  split.
  - intros limit w w' rows. cbn [execute Fixture.recovering].
    destruct (length w <? 4)%nat; [discriminate|].
    cbn. intros [= <- _]. reflexivity.
  - exists [Fixture.GetLlm; Fixture.GetLlm; Fixture.GetLlm; Fixture.GetLlm].
    eexists _, _. vm_compute. reflexivity.
Qed.

(** C1, as stated, fails: a store that holds a non-empty corpus but refuses
    the statements made while the request runs makes [retrieve_documents]
    return no chunk. *)
Lemma C1_empty_on_nonempty_corpus :
  ~ (forall (W : Type) (sv : Services W) (corpus : list Row) (st : state) (w : W),
        holds_corpus sv corpus -> corpus <> [] ->
        exists chunks w',
          Retrieve.retrieve_documents sv st w = (inr (Retrieve.retrieved st chunks), w')
          /\ fallback_chain sv st w chunks w'
          /\ chunks <> []).
Proof.
  intros H.
  destruct (H _ (Fixture.recovering 4 Fixture.healthy) Fixture.corpus
              (Router.route_query (Fixture.asks "how do I register")) []
              recovering_holds_corpus)
    as (chunks & w' & Hrun & _ & Hne); [discriminate|].
  vm_compute in Hrun. injection Hrun as Hchunks _. congruence.
Qed.

(** C1, amended: for every state (query and routing decision) and every
    world, [retrieve_documents] returns and does not raise.  What it
    returns is told call by call: the chunks of the code lookup when there
    is a code to look up; otherwise, for a query worth a search, those of
    the hybrid search, or of the full-text search when the embedding or
    the hybrid search raised; the sample of all chunks when that search
    found nothing or raised, asked once more when it raised after a search
    that found nothing; and no chunk when the last sample raised.  The
    chain determines the chunks and the final world.  For every non-empty
    corpus held by the store the returned sequence is not empty provided
    the sample-all statement does not raise. *)
Theorem C1_retrieve_total_nonempty {W} (sv : Services W) (st : state) (w : W) :
  exists chunks w',
    Retrieve.retrieve_documents sv st w = (inr (Retrieve.retrieved st chunks), w')
    /\ fallback_chain sv st w chunks w'
    /\ (forall chunks2 w2, fallback_chain sv st w chunks2 w2 -> chunks2 = chunks /\ w2 = w')
    /\ (forall corpus, holds_corpus sv corpus -> corpus <> [] ->
        sample_all_answers sv -> chunks <> []).
Proof.
  destruct (retrieve_documents_run sv st w) as (chunks & w' & Hrun & Hchain).
  exists chunks, w'. split; [exact Hrun|]. split; [exact Hchain|]. split.
  - intros chunks2 w2 H2.
    destruct (fallback_chain_functional sv st w _ _ _ _ H2 Hchain); auto.
  - intros corpus Hcorpus Hne Hans.
    destruct Hchain as [_ Hfound | w1 _ Hall | e w1 _ Hall | w1 e w2 _ _ Hall
                        | e w1 e1 _ Hall _ | w1 e1 w2 e2 _ Hall _ _];
      [ exact Hfound
      | eapply sample_all_chunks_rows; eauto
      | eapply sample_all_chunks_rows; eauto
      | eapply sample_all_chunks_rows; eauto
      | exfalso; eapply sample_all_chunks_answers; eauto
      | exfalso; eapply sample_all_chunks_answers; eauto ].
Qed.

Lemma C1_witness :
  exists chunks w',
    Retrieve.retrieve_documents (Fixture.services Fixture.no_search)
      (Router.route_query (Fixture.asks "how do I register")) []
    = (inr (Retrieve.retrieved (Router.route_query (Fixture.asks "how do I register")) chunks), w')
    /\ fallback_chain (Fixture.services Fixture.no_search)
         (Router.route_query (Fixture.asks "how do I register")) [] chunks w'
    /\ chunks <> [].
Proof.
  destruct (C1_retrieve_total_nonempty (Fixture.services Fixture.no_search)
              (Router.route_query (Fixture.asks "how do I register")) [])
    as (chunks & w' & Hrun & Hchain & _ & Hne).
  exists chunks, w'. split; [exact Hrun|]. split; [exact Hchain|].
  apply (Hne Fixture.corpus).
  - split.
    + intros limit w w1 rows. cbn. intros [= <- _]. reflexivity.
    + exists []. eexists _, _. vm_compute. reflexivity.
  - discriminate.
  - intros w. eexists _, _. reflexivity.
Defined.


(** The order of the calls when the embedding service is down and the
    text search raises: embedding, text search, sample of all chunks. *)
Example retrieve_fallback_order :
  snd (Retrieve.retrieve_documents (Fixture.services Fixture.no_search)
         (Router.route_query (Fixture.asks "how do I register")) [])
  = [Fixture.Embed "how do I register";
     Fixture.Exec (SelectText "how do I register" 20);
     Fixture.Exec (SelectAll 12)].
Proof. vm_compute. reflexivity. Qed.

(** An empty query goes straight to the sample of all chunks. *)
Example retrieve_empty_query :
  snd (Retrieve.retrieve_documents (Fixture.services Fixture.healthy)
         (Router.route_query (Fixture.asks "")) [])
  = [Fixture.Exec (SelectAll 12)].
Proof. vm_compute. reflexivity. Qed.

(** When the sample of all chunks raises as well, the node returns an
    empty list rather than raising. *)
Example retrieve_database_down :
  fst (Retrieve.retrieve_documents (Fixture.services Fixture.database_down)
         (Router.route_query (Fixture.asks "how do I register")) [])
  = inr (Retrieve.retrieved (Router.route_query (Fixture.asks "how do I register")) []).
Proof. vm_compute. reflexivity. Qed.

(** ** The stable sort *)

Lemma fmap_is_map {A B} (f : A -> B) (l : list A) : f <$> l = map f l.
Proof. reflexivity. Qed.

Section SortFacts.
Context {A : Type}.
Import Retrieve.
Implicit Types (x : Q * A) (l : list (Q * A)).

Lemma insert_desc_perm x l : insert_desc x l ≡ₚ x :: l.
Proof.
  induction l as [|y l IH]; cbn; [reflexivity|].
  destruct (Qltb (fst x) (fst y)); [|reflexivity].
  rewrite IH. apply perm_swap.
Qed.

Lemma sort_desc_perm l : sort_desc l ≡ₚ l.
Proof.
  induction l as [|x l IH]; cbn; [reflexivity|].
  rewrite insert_desc_perm, IH. reflexivity.
Qed.

Lemma insert_desc_sorted x l :
  StronglySorted ge_key l -> StronglySorted ge_key (insert_desc x l).
Proof.
  induction 1 as [|y l Hs IH Hall]; cbn.
  - repeat constructor.
  - destruct (Qltb (fst x) (fst y)) eqn:E.
    + apply Qltb_lt in E. constructor; [exact IH|].
      rewrite insert_desc_perm. constructor; [|exact Hall].
      unfold ge_key. apply Qlt_le_weak, E.
    + apply Qltb_ge in E. constructor; [constructor; assumption|].
      constructor; [exact E|].
      eapply Forall_impl; [exact Hall|]. intros z Hz. unfold ge_key in *.
      eapply Qle_trans; eassumption.
Qed.

Lemma sort_desc_sorted l : StronglySorted ge_key (sort_desc l).
Proof.
  induction l; cbn; [constructor | apply insert_desc_sorted; assumption].
Qed.



End SortFacts.

(** ** Hybrid fusion *)

Section FuseFacts.
Context {W : Type} (sv : Services W).
Import Retrieve.

Lemma keys_of_indexed (l : list RetrievedChunk) (g : nat -> Z) :
  (imap (fun i c => (chunk_id c, (g i, c))) l).*1 = chunk_id <$> l.
Proof.
  revert g. induction l as [|c l IH]; intros g; [reflexivity|].
  cbn. f_equal. apply (IH (g ∘ S)).
Qed.

Lemma by_id_inv (l : list RetrievedChunk) (id i : Z) (c : RetrievedChunk) :
  by_id l !! id = Some (i, c) ->
  exists n : nat, i = Z.of_nat n /\ l !! n = Some c /\ chunk_id c = id.
Proof.
  unfold by_id. intros H.
  apply elem_of_list_to_map_2, elem_of_reverse, elem_of_lookup_imap in H.
  destruct H as (n & c' & [= -> -> ->] & Hn). eauto.
Qed.

Lemma by_id_present (l : list RetrievedChunk) (n : nat) (c : RetrievedChunk) :
  NoDup (chunk_id <$> l) -> l !! n = Some c ->
  by_id l !! chunk_id c = Some (Z.of_nat n, c).
Proof.
  intros Hnd Hn. unfold by_id. apply elem_of_list_to_map_1.
  - rewrite fmap_reverse, keys_of_indexed, reverse_Permutation. exact Hnd.
  - apply elem_of_reverse.
    apply (elem_of_lookup_imap_2 (fun i c => (chunk_id c, (Z.of_nat i, c)))), Hn.
Qed.

Lemma by_id_absent (l : list RetrievedChunk) (id : Z) :
  id ∉ chunk_id <$> l -> by_id l !! id = None.
Proof.
  intros Hid. unfold by_id. apply not_elem_of_list_to_map_1.
  rewrite fmap_reverse, keys_of_indexed, elem_of_reverse. exact Hid.
Qed.

Lemma dom_by_id (l : list RetrievedChunk) (id : Z) :
  id ∈ dom (by_id l) <-> id ∈ chunk_id <$> l.
Proof.
  unfold by_id. rewrite dom_list_to_map_L, elem_of_list_to_set.
  rewrite fmap_reverse, keys_of_indexed, elem_of_reverse. reflexivity.
Qed.

Lemma score_entry_inv (vec fts : list RetrievedChunk) (id : Z) (e : Q * RetrievedChunk) :
  score_entry (by_id vec) (by_id fts) id = Some e ->
  fst e = score_of vec fts id /\ chunk_id (snd e) = id.
Proof.
  unfold score_entry, data_in.
  destruct (by_id vec !! id) as [[i c]|] eqn:Hv.
  - intros [= <-]. split; [reflexivity|].
    apply by_id_inv in Hv as (n & _ & _ & Hid). exact Hid.
  - destruct (by_id fts !! id) as [[j c]|] eqn:Hf; [|discriminate].
    intros [= <-]. split; [reflexivity|].
    apply by_id_inv in Hf as (n & _ & _ & Hid). exact Hid.
Qed.

Lemma score_entry_total (vec fts : list RetrievedChunk) (id : Z) :
  id ∈ dom (by_id vec) ∪ dom (by_id fts) ->
  is_Some (score_entry (by_id vec) (by_id fts) id).
Proof.
  rewrite elem_of_union, !elem_of_dom. unfold score_entry, data_in.
  intros [[[i c] ->] | [[j c] ->]]; [eauto|].
  destruct (by_id vec !! id) as [[i' c']|]; eauto.
Qed.

Lemma scored_chunks_inv (vec fts : list RetrievedChunk) (e : Q * RetrievedChunk) :
  e ∈ scored_chunks sv vec fts ->
  fst e = score_of vec fts (chunk_id (snd e)).
Proof.
  unfold scored_chunks. rewrite list_elem_of_omap.
  intros (id & _ & He). apply score_entry_inv in He as [-> ->]. reflexivity.
Qed.

Lemma omap_section {A B} (f : A -> option B) (g : B -> A) (l : list A) :
  (forall x, x ∈ l -> exists y, f x = Some y /\ g y = x) ->
  g <$> omap f l = l.
Proof.
  induction l as [|x l IH]; intros H; [reflexivity|].
  cbn. destruct (H x) as (y & -> & Hg); [left|].
  cbn. rewrite Hg, IH; [reflexivity|].
  intros z Hz. apply H. right. exact Hz.
Qed.

(** The chunks are scored in the order in which the set of ids is iterated. *)
Lemma scored_chunks_ids (vec fts : list RetrievedChunk) :
  set_iter_ok sv ->
  (chunk_id ∘ snd) <$> scored_chunks sv vec fts
  = set_iter sv (dom (by_id vec) ∪ dom (by_id fts)).
Proof.
  intros Hiter. unfold scored_chunks. apply omap_section.
  intros id Hid. rewrite (Hiter _), elem_of_elements in Hid.
  destruct (score_entry_total vec fts id Hid) as [e He].
  exists e. split; [exact He|]. apply score_entry_inv in He as [_ He]. exact He.
Qed.

End FuseFacts.

Section FuseOutput.
Context {W : Type} (sv : Services W).
Import Retrieve.

Lemma restamp_rank (e : Q * RetrievedChunk) : rrf_rank (restamp e) = fst e.
Proof. destruct e. reflexivity. Qed.

Lemma restamp_id (e : Q * RetrievedChunk) : chunk_id (restamp e) = chunk_id (snd e).
Proof. destruct e. reflexivity. Qed.

Lemma fuse_ranking (vec fts : list RetrievedChunk) :
  fuse sv vec fts = take (Z.to_nat TOP_K_FINAL) (ranking sv vec fts).
Proof. unfold fuse, ranking. rewrite <- fmap_is_map. apply fmap_take. Qed.

Lemma ranking_score (vec fts : list RetrievedChunk) (c : RetrievedChunk) :
  c ∈ ranking sv vec fts -> rrf_rank c = score_of vec fts (chunk_id c).
Proof.
  unfold ranking. rewrite list_elem_of_fmap. intros (e & -> & He).
  rewrite sort_desc_perm in He.
  rewrite restamp_rank, restamp_id. apply (scored_chunks_inv sv), He.
Qed.

Lemma fuse_score (vec fts : list RetrievedChunk) (c : RetrievedChunk) :
  c ∈ fuse sv vec fts -> rrf_rank c = score_of vec fts (chunk_id c).
Proof.
  rewrite fuse_ranking. intros Hc. apply ranking_score.
  apply elem_of_take in Hc as (i & Hi & _).
  eapply list_elem_of_lookup_2, Hi.
Qed.

Lemma rank_present (l : list RetrievedChunk) (n : nat) (c : RetrievedChunk) :
  NoDup (chunk_id <$> l) -> l !! n = Some c ->
  rank_in (by_id l) (chunk_id c) = Z.of_nat n.
Proof. intros Hnd Hn. unfold rank_in. rewrite (by_id_present l n c Hnd Hn). reflexivity. Qed.

Lemma rank_absent (l : list RetrievedChunk) (id : Z) :
  id ∉ chunk_id <$> l -> rank_in (by_id l) id = sentinel.
Proof. intros H. unfold rank_in. rewrite (by_id_absent l id H). reflexivity. Qed.

Lemma score_both (i j : Z) :
  (i < sentinel)%Z -> (j < sentinel)%Z ->
  (rrf_score_of i j == 1 / inject_Z (60 + i + 1) + 1 / inject_Z (60 + j + 1))%Q.
Proof.
  intros Hi Hj. unfold rrf_score_of.
  destruct (Z.ltb_spec i sentinel); [|lia].
  destruct (Z.ltb_spec j sentinel); [|lia].
  unfold rrf_term, RRF_K. ring.
Qed.

Lemma score_first_only (i : Z) :
  (i < sentinel)%Z ->
  (rrf_score_of i sentinel == 1 / inject_Z (60 + i + 1))%Q.
Proof.
  intros Hi. unfold rrf_score_of.
  destruct (Z.ltb_spec i sentinel); [|lia].
  rewrite Z.ltb_irrefl. unfold rrf_term, RRF_K. ring.
Qed.

Lemma score_second_only (j : Z) :
  (j < sentinel)%Z ->
  (rrf_score_of sentinel j == 1 / inject_Z (60 + j + 1))%Q.
Proof.
  intros Hj. unfold rrf_score_of. rewrite Z.ltb_irrefl.
  destruct (Z.ltb_spec j sentinel); [|lia].
  unfold rrf_term, RRF_K. ring.
Qed.

Lemma rank_below_limit (l : list RetrievedChunk) (n : nat) (c : RetrievedChunk) (k : Z) :
  (Z.of_nat (length l) <= k)%Z -> (k <= 20)%Z -> l !! n = Some c ->
  (Z.of_nat n < sentinel)%Z.
Proof.
  intros Hlen Hk Hn. apply lookup_lt_Some in Hn. unfold sentinel. lia.
Qed.

Lemma all_ids_union (vec fts : list RetrievedChunk) :
  dom (by_id vec) ∪ dom (by_id fts)
  = (list_to_set (chunk_id <$> vec) ∪ list_to_set (chunk_id <$> fts) : gset Z).
Proof.
  apply set_eq. intros id.
  rewrite !elem_of_union, !dom_by_id, !elem_of_list_to_set. reflexivity.
Qed.

Lemma sorted_fmap {A B} (R : B -> B -> Prop) (f : A -> B) (l : list A) :
  StronglySorted (fun a b => R (f a) (f b)) l -> StronglySorted R (f <$> l).
Proof.
  induction 1 as [|a l Hs IH Hall]; cbn; constructor; [exact IH|].
  apply Forall_fmap. exact Hall.
Qed.



End FuseOutput.

(** C2: on an output chunk of the hybrid fusion, the recorded score is
    1/(60+i+1) + 1/(60+j+1) when the chunk is at 0-based rank i of the
    vector results and at 0-based rank j of the full-text results, and
    the single corresponding term when it is in one list only.  (The
    result lists have distinct chunk ids and at most 20 entries each, as
    the statements with LIMIT 20 return them.) *)
Theorem C2_fusion_score {W} (sv : Services W)
    (vec fts : list RetrievedChunk) (c : RetrievedChunk) :
  NoDup (chunk_id <$> vec) -> NoDup (chunk_id <$> fts) ->
  (Z.of_nat (length vec) <= Retrieve.TOP_K_VECTOR)%Z ->
  (Z.of_nat (length fts) <= Retrieve.TOP_K_FTS)%Z ->
  c ∈ Retrieve.fuse sv vec fts ->
  (forall (i j : nat) (cv cf : RetrievedChunk),
      vec !! i = Some cv -> chunk_id cv = chunk_id c ->
      fts !! j = Some cf -> chunk_id cf = chunk_id c ->
      (rrf_rank c == 1 / inject_Z (60 + Z.of_nat i + 1)
                     + 1 / inject_Z (60 + Z.of_nat j + 1))%Q)
  /\ (forall (i : nat) (cv : RetrievedChunk),
      vec !! i = Some cv -> chunk_id cv = chunk_id c ->
      chunk_id c ∉ chunk_id <$> fts ->
      (rrf_rank c == 1 / inject_Z (60 + Z.of_nat i + 1))%Q)
  /\ (forall (j : nat) (cf : RetrievedChunk),
      fts !! j = Some cf -> chunk_id cf = chunk_id c ->
      chunk_id c ∉ chunk_id <$> vec ->
      (rrf_rank c == 1 / inject_Z (60 + Z.of_nat j + 1))%Q).
Proof.
  intros Hndv Hndf Hlv Hlf Hc.
  rewrite (fuse_score sv vec fts c Hc). unfold score_of.
  split; [|split].
  - intros i j cv cf Hi Hcv Hj Hcf.
    rewrite <- Hcv at 1. rewrite (rank_present vec i cv Hndv Hi).
    rewrite <- Hcf. rewrite (rank_present fts j cf Hndf Hj).
    apply score_both.
    + eapply rank_below_limit; [exact Hlv | reflexivity | exact Hi].
    + eapply rank_below_limit; [exact Hlf | reflexivity | exact Hj].
  - intros i cv Hi Hcv Hnot.
    rewrite (rank_absent fts _ Hnot).
    rewrite <- Hcv. rewrite (rank_present vec i cv Hndv Hi).
    apply score_first_only.
    eapply rank_below_limit; [exact Hlv | reflexivity | exact Hi].
  - intros j cf Hj Hcf Hnot.
    rewrite (rank_absent vec _ Hnot).
    rewrite <- Hcf. rewrite (rank_present fts j cf Hndf Hj).
    apply score_second_only.
    eapply rank_below_limit; [exact Hlf | reflexivity | exact Hj].
Qed.

Lemma C2_witness :
  let c := Fixture.demo_chunk 1 (5 # 7) 0 (123 # 3782) in
  (rrf_rank c == 1 / inject_Z (60 + Z.of_nat 1 + 1)
                 + 1 / inject_Z (60 + Z.of_nat 0 + 1))%Q.
Proof.
  intros c.
  refine (proj1 (C2_fusion_score (Fixture.services Fixture.healthy)
                   Fixture.vec_demo Fixture.fts_demo c _ _ _ _ _)
                1%nat 0%nat (Fixture.demo_chunk 1 (5 # 7) 0 (1 # 62))
                (Fixture.demo_chunk 1 0 (3 # 5) (3 # 5)) _ _ _ _).
  - apply (bool_decide_unpack _). vm_compute. reflexivity.
  - apply (bool_decide_unpack _). vm_compute. reflexivity.
  - vm_compute. discriminate.
  - vm_compute. discriminate.
  - assert (Hout : Retrieve.fuse (Fixture.services Fixture.healthy) Fixture.vec_demo Fixture.fts_demo
                   = [c; Fixture.demo_chunk 3 (5 # 6) 0 (1 # 61); Fixture.demo_chunk 2 0 (1 # 10) (1 # 62)])
      by (vm_compute; reflexivity).
    rewrite Hout. left.
  - reflexivity.
  - reflexivity.
  - reflexivity.
  - reflexivity.
Defined.


Lemma sorted_weaken {A} (R S : A -> A -> Prop) (l : list A) :
  (forall a b, R a b -> S a b) -> StronglySorted R l -> StronglySorted S l.
Proof.
  intros HRS. induction 1 as [|a l Hs IH Hall]; constructor; [exact IH|].
  eapply Forall_impl; [exact Hall|]. intros b. apply HRS.
Qed.

Section RankingFacts.
Context {W : Type} (sv : Services W).
Import Retrieve.

Lemma ranking_ids (vec fts : list RetrievedChunk) :
  chunk_id <$> ranking sv vec fts
  = (chunk_id ∘ snd) <$> sort_desc (Retrieve.scored_chunks sv vec fts).
Proof.
  unfold ranking. rewrite <- list_fmap_compose.
  apply list_fmap_ext. intros i e _. apply restamp_id.
Qed.

Lemma ranking_perm (vec fts : list RetrievedChunk) :
  set_iter_ok sv ->
  chunk_id <$> ranking sv vec fts ≡ₚ elements (dom (by_id vec) ∪ dom (by_id fts)).
Proof.
  intros Hiter. rewrite ranking_ids, sort_desc_perm.
  rewrite (scored_chunks_ids sv vec fts Hiter). apply Hiter.
Qed.

Lemma ranking_sorted (vec fts : list RetrievedChunk) :
  StronglySorted (fun a b => (rrf_rank b <= rrf_rank a)%Q) (ranking sv vec fts).
Proof.
  unfold ranking. apply sorted_fmap.
  eapply sorted_weaken; [|apply sort_desc_sorted].
  intros a b Hab. rewrite !restamp_rank. exact Hab.
Qed.


End RankingFacts.



(** Two chunks found by one search each, both at rank 0, tie at 1/61 and
    come out in the order in which the set of ids is iterated. *)
Example fuse_tie :
  map (fun c => (chunk_id c, rrf_rank c))
      (Retrieve.fuse (Fixture.services Fixture.healthy)
         [Fixture.demo_chunk 3 (5 # 6) 0 (1 # 61)]
         [Fixture.demo_chunk 2 0 (1 # 10) (1 # 10)])
  = map (fun id => (id, (1 # 61)%Q)) (elements ({[3%Z]} ∪ {[2%Z]} : gset Z)).
Proof. vm_compute. reflexivity. Qed.

(** ** The workflow graph *)

Section GraphFacts.
Context {W : Type} (sv : Services W).
Import Graph.

Lemma generate_answer_total (st : state) (w : W) :
  llm_available sv ->
  exists g err w', Generate.generate_answer sv st w = (inr (Generate.only_generation g err), w').
Proof.
  intros Hllm. unfold Generate.generate_answer.
  destruct (Retrieve.is_empty (Generate.chunks_to_use st)).
  - rewrite ret_run. eauto.
  - rewrite bind_run. destruct (Hllm w) as [w1 ->].
    unfold try_catch. rewrite bind_run.
    destruct (ainvoke sv _ _ w1) as [[e | a] w2]; rewrite ret_run; eauto.
Qed.

(** One step of the executor at a node with a known function and a known
    outgoing edge. *)
Lemma steps_node (g : StateGraph W) (fuel : nat) (cur next : string)
    (f : state -> M W state) (st : state) (trace : list string) (w : W) :
  assoc cur (nodes g) = Some f ->
  assoc cur (edges g) = Some next ->
  steps g (S fuel) cur st trace w =
  match f st w with
  | (inr upd, w') =>
      if String.eqb next END then (inr (write (schema g) st upd, trace ++ [cur]), w')
      else steps g fuel next (write (schema g) st upd) (trace ++ [cur]) w'
  | (inl e, w') => (inl e, w')
  end.
Proof.
  intros Hf He. cbn [steps]. rewrite Hf. rewrite bind_run.
  destruct (f st w) as [[e | upd] w']; [reflexivity|].
  rewrite He. destruct (String.eqb next END); reflexivity.
Qed.

Lemma run_linear (g : StateGraph W) (st0 : state) (w : W) :
  nodes g = nodes (create_graph sv) ->
  edges g = edges (create_graph sv) ->
  entry_point g = "route" ->
  llm_available sv ->
  exists chunks g_ err w',
    let st1 := write (schema g) st0 (Router.route_query st0) in
    let st2 := write (schema g) st1 (Retrieve.retrieved st1 chunks) in
    let st3 := write (schema g) st2 (Grade.grade_documents st2) in
    ainvoke_graph g st0 w
    = (inr (write (schema g) st3 (Generate.only_generation g_ err), stages), w').
Proof.
  intros Hn He Hentry Hllm.
  unfold ainvoke_graph, recursion_limit. rewrite Hentry.
  rewrite (steps_node g _ "route" "retrieve" (pure_node Router.route_query))
    by (rewrite ?Hn, ?He; reflexivity).
  unfold pure_node at 1. rewrite ret_run. cbn [String.eqb Ascii.eqb Bool.eqb END].
  set (st1 := write (schema g) st0 (Router.route_query st0)).
  rewrite (steps_node g _ "retrieve" "grade" (Retrieve.retrieve_documents sv))
    by (rewrite ?Hn, ?He; reflexivity).
  destruct (retrieve_documents_run sv st1 w) as (chunks & w1 & -> & _).
  cbn [String.eqb Ascii.eqb Bool.eqb END].
  set (st2 := write (schema g) st1 (Retrieve.retrieved st1 chunks)).
  rewrite (steps_node g _ "grade" "generate" (pure_node Grade.grade_documents))
    by (rewrite ?Hn, ?He; reflexivity).
  unfold pure_node at 1. rewrite ret_run. cbn [String.eqb Ascii.eqb Bool.eqb END].
  set (st3 := write (schema g) st2 (Grade.grade_documents st2)).
  rewrite (steps_node g _ "generate" END (Generate.generate_answer sv))
    by (rewrite ?Hn, ?He; reflexivity).
  destruct (generate_answer_total st3 w1 Hllm) as (g_ & err & w2 & ->).
  exists chunks, g_, err, w2. reflexivity.
Qed.

End GraphFacts.

Lemma route_query_search_iterations (st : state) :
  search_iterations (Router.route_query st) = None.
Proof.
  unfold Router.route_query.
  destruct (Router.detected _); [reflexivity|].
  destruct (Router.detected _); reflexivity.
Qed.

(** The retrieve node counts one search: the state written by the router
    has no [search_iterations], so the default 0 is incremented. *)
Lemma retrieve_counts_one (st0 : state) (chunks : list RetrievedChunk) :
  search_iterations (Retrieve.retrieved (Router.route_query st0) chunks) = Some 1%Z.
Proof.
  unfold Retrieve.retrieved, get. rewrite route_query_search_iterations. reflexivity.
Qed.

(** C9: every run of the workflow that returns executes the four stages
    once each in the order route, retrieve, grade, generate, whatever the
    grader found relevant.  The state it returns is the value returned by
    the generate node, and that value carries the generation only: the
    count of 1 written by the retrieve node is not in it. *)
Theorem C9_linear_run_drops_search_iterations {W} (sv : Services W)
    (q : string) (tid : option string) (w : W) :
  llm_available sv ->
  exists final w',
    Graph.run_agent sv q tid w = (inr (final, stages), w')
    /\ is_Some (generation final)
    /\ search_iterations final = None.
Proof.
  intros Hllm.
  destruct (run_linear sv (Graph.create_graph sv) (Graph.initial_state q tid) w)
    as (chunks & g_ & err & w' & Hrun); try reflexivity; [exact Hllm|].
  eexists _, w'. split; [exact Hrun|]. split; [eexists; reflexivity | reflexivity].
Qed.

Lemma C9_witness :
  exists final w',
    Graph.run_agent (Fixture.services Fixture.healthy)
      "What does section 5.1.2 say?" None [] = (inr (final, stages), w')
    /\ is_Some (generation final)
    /\ search_iterations final = None.
Proof.
  apply (C9_linear_run_drops_search_iterations (Fixture.services Fixture.healthy)
           "What does section 5.1.2 say?" None []).
  intros w. eexists. reflexivity.
Defined.

(** Under a schema with one channel per key the count would reach the
    final state. *)
Lemma typed_graph_keeps_search_iterations {W} (sv : Services W)
    (q : string) (tid : option string) (w : W) :
  llm_available sv ->
  exists final w',
    Graph.ainvoke_graph (Graph.typed_graph sv) (Graph.initial_state q tid) w
    = (inr (final, stages), w')
    /\ search_iterations final = Some 1%Z.
Proof.
  intros Hllm.
  destruct (run_linear sv (Graph.typed_graph sv) (Graph.initial_state q tid) w)
    as (chunks & g_ & err & w' & Hrun); try reflexivity; [exact Hllm|].
  eexists _, w'. split; [exact Hrun|].
  cbn -[Router.route_query]. rewrite route_query_search_iterations. reflexivity.
Qed.

(** ** A run of the graph, stage by stage *)

Section RunCases.
Context {W : Type} (sv : Services W).
Import Graph.

Lemma generate_answer_shape (st : state) (w : W) :
  (exists e w', Generate.generate_answer sv st w = (inl e, w'))
  \/ exists g err w',
       Generate.generate_answer sv st w = (inr (Generate.only_generation g err), w').
Proof.
  destruct (Generate.generate_answer sv st w) as [[e | out] w'] eqn:Hrun; [left; eauto|].
  right.
  destruct (generate_answer_cases sv st w w' out Hrun)
    as [(_ & _ & ->) | [[a ->] | [e ->]]]; eauto.
Qed.

(** A run of the graph: the state returned is the value returned by the
    generate node on the value returned by the grade node. *)
Lemma run_agent_cases (q : string) (tid : option string) (w : W) :
  exists chunks w1,
    let st1 := Router.route_query (initial_state q tid) in
    let st3 := Grade.grade_documents (Retrieve.retrieved st1 chunks) in
    Retrieve.retrieve_documents sv st1 w = (inr (Retrieve.retrieved st1 chunks), w1)
    /\ ((exists e w', Generate.generate_answer sv st3 w1 = (inl e, w')
                      /\ run_agent sv q tid w = (inl e, w'))
        \/ exists g err w',
             Generate.generate_answer sv st3 w1 = (inr (Generate.only_generation g err), w')
             /\ run_agent sv q tid w = (inr (Generate.only_generation g err, stages), w')).
Proof.
  set (st1 := Router.route_query (initial_state q tid)).
  destruct (retrieve_documents_run sv st1 w) as (chunks & w1 & Hretr & _).
  exists chunks, w1. cbv zeta. fold st1. split; [exact Hretr|].
  set (st3 := Grade.grade_documents (Retrieve.retrieved st1 chunks)).
  assert (Hrun : run_agent sv q tid w
                 = match Generate.generate_answer sv st3 w1 with
                   | (inr upd, w') => (inr (upd, stages), w')
                   | (inl e, w') => (inl e, w')
                   end).
  { unfold run_agent, ainvoke_graph, recursion_limit.
    change (entry_point (create_graph sv)) with "route".
    rewrite (steps_node (create_graph sv) _ "route" "retrieve" (pure_node Router.route_query))
      by reflexivity.
    unfold pure_node at 1. rewrite ret_run. cbn [String.eqb Ascii.eqb Bool.eqb END].
    change (write (schema (create_graph sv)) (initial_state q tid)
              (Router.route_query (initial_state q tid))) with st1.
    rewrite (steps_node (create_graph sv) _ "retrieve" "grade" (Retrieve.retrieve_documents sv))
      by reflexivity.
    rewrite Hretr. cbn [String.eqb Ascii.eqb Bool.eqb END].
    change (write (schema (create_graph sv)) st1 (Retrieve.retrieved st1 chunks))
      with (Retrieve.retrieved st1 chunks).
    rewrite (steps_node (create_graph sv) _ "grade" "generate" (pure_node Grade.grade_documents))
      by reflexivity.
    unfold pure_node at 1. rewrite ret_run. cbn [String.eqb Ascii.eqb Bool.eqb END].
    change (write (schema (create_graph sv)) (Retrieve.retrieved st1 chunks)
              (Grade.grade_documents (Retrieve.retrieved st1 chunks))) with st3.
    rewrite (steps_node (create_graph sv) _ "generate" END (Generate.generate_answer sv))
      by reflexivity.
    destruct (Generate.generate_answer sv st3 w1) as [[e | upd] w']; reflexivity. }
  destruct (generate_answer_shape st3 w1)
    as [(e & w' & Hgen) | (g & err & w' & Hgen)]; rewrite Hgen in Hrun.
  - left. eauto.
  - right. exists g, err, w'. split; [exact Hgen | exact Hrun].
Qed.

End RunCases.

(** C8: the answer stage without any chunk returns confidence 0.0, no
    citation and has_sufficient_evidence = false, but its findings line
    does not tell the two cases apart.  The stage is reached without chunks
    only when the state holds no retrieved chunk either, so the findings
    are always the no-documents sentence and never the
    found-but-none-relevant one; and in a run of the graph in which chunks
    were retrieved and the grader kept none of them, the answer is the
    template filled with the no-documents sentence (and with the defaults
    for the query type, the queries and the codes). *)
Theorem C8_retrieved_chunks_reported_as_none {W} (sv : Services W) :
  (forall (st : state) (w : W),
      Generate.chunks_to_use st = [] ->
      let g := Generate._build_insufficient_response sv st in
      Generate.generate_answer sv st w = (inr (Generate.only_generation g None), w)
      /\ gen_confidence g = 0%Q /\ citations g = [] /\ has_sufficient_evidence g = false
      /\ get retrieval st [] = []
      /\ template_with Generate.no_documents (answer g)
      /\ forall n, ~ template_with (Generate.none_relevant n) (answer g))
  /\ forall (q : string) (tid : option string) (w : W),
       exists chunks w1,
         Retrieve.retrieve_documents sv (Router.route_query (Graph.initial_state q tid)) w
         = (inr (Retrieve.retrieved (Router.route_query (Graph.initial_state q tid)) chunks),
            w1)
         /\ (Forall (fun c => is_relevant (Grade._heuristic_grade q c) = false) chunks ->
             exists g,
               Graph.run_agent sv q tid w
               = (inr (Generate.only_generation g None, stages), w1)
               /\ gen_confidence g = 0%Q /\ citations g = []
               /\ has_sufficient_evidence g = false
               /\ answer g
                  = Generate.INSUFFICIENT_EVIDENCE_TEMPLATE_format
                      "vector" "" "None" Generate.no_documents
               /\ forall n, ~ template_with (Generate.none_relevant n) (answer g)).
Proof.
  split; [intros st w Hnone; apply insufficient_answer, Hnone|].
  intros q tid w.
  destruct (run_agent_cases sv q tid w) as (chunks & w1 & Hretr & Hrun).
  cbv zeta in Hretr, Hrun.
  exists chunks, w1. split; [exact Hretr|].
  intros Hirrelevant.
  set (st1 := Router.route_query (Graph.initial_state q tid)) in *.
  set (st3 := Grade.grade_documents (Retrieve.retrieved st1 chunks)) in *.
  assert (Hq : get query (Retrieve.retrieved st1 chunks) "" = q).
  { subst st1. unfold Router.route_query. cbv zeta.
    destruct (Router.detected _); [reflexivity|].
    destruct (Router.detected _); reflexivity. }
  assert (Hnone : Generate.chunks_to_use st3 = []).
  { apply chunks_to_use_nil. subst st3. unfold Grade.grade_documents. rewrite Hq.
    split; [|reflexivity].
    unfold get. cbn [relevant_chunks retrieval Retrieve.retrieved default from_option id].
    clear -Hirrelevant. induction Hirrelevant as [|c l Hc _ IH]; [reflexivity|].
    cbn. rewrite Hc. cbn. exact IH. }
  destruct (insufficient_answer sv st3 w1 Hnone) as (Hgen & Hconf & Hcit & Hev & _ & _ & Hnot).
  exists (Generate._build_insufficient_response sv st3).
  split; [|split; [exact Hconf|split; [exact Hcit|split; [exact Hev|split; [reflexivity|exact Hnot]]]]].
  destruct Hrun as [(e & w' & Hgen' & _) | (g & err & w' & Hgen' & Hrun)].
  - rewrite Hgen in Hgen'. discriminate.
  - rewrite Hgen in Hgen'. injection Hgen' as <- <- <-. exact Hrun.
Qed.

Lemma C8_witness :
  exists chunks w1 g,
    Retrieve.retrieve_documents (Fixture.services Fixture.terse)
      (Router.route_query (Graph.initial_state "how do I register" None)) []
    = (inr (Retrieve.retrieved
              (Router.route_query (Graph.initial_state "how do I register" None)) chunks),
       w1)
    /\ chunks <> []
    /\ Graph.run_agent (Fixture.services Fixture.terse) "how do I register" None []
       = (inr (Generate.only_generation g None, stages), w1)
    /\ answer g
       = Generate.INSUFFICIENT_EVIDENCE_TEMPLATE_format "vector" "" "None" Generate.no_documents.
Proof.
  destruct (proj2 (C8_retrieved_chunks_reported_as_none (Fixture.services Fixture.terse)) "how do I register" None [])
    as (chunks & w1 & Hretr & Hrun).
  pose proof Hretr as Hchunks. vm_compute in Hchunks. injection Hchunks as Hchunks _.
  destruct Hrun as (g & Hrun & _ & _ & _ & Hanswer & _).
  { rewrite <- Hchunks. constructor; [vm_compute; reflexivity | constructor]. }
  exists chunks, w1, g. split; [exact Hretr|]. split; [rewrite <- Hchunks; discriminate|].
  split; [exact Hrun | exact Hanswer].
Defined.

(** ** The pattern matcher *)

Section PatternFacts.
Import Re Router.

Lemma star_run_here (step : mstate -> list mstate) (fuel : nat) (st : mstate) :
  In st (star_run step fuel st).
Proof. destruct fuel; cbn; [left; reflexivity | apply in_or_app; right; left; reflexivity]. Qed.

Lemma star_run_more (step : mstate -> list mstate) (fuel : nat) (st st' st'' : mstate) :
  In st' (step st) -> (length (m_rest st') < length (m_rest st))%nat ->
  In st'' (star_run step fuel st') -> In st'' (star_run step (S fuel) st).
Proof.
  intros Hstep Hlt Hrest. cbn [star_run]. apply in_or_app. left.
  apply in_flat_map. exists st'. split; [exact Hstep|].
  destruct (Nat.ltb_spec (length (m_rest st')) (length (m_rest st))); [exact Hrest | lia].
Qed.

(** Every match is among the attempts of [run]. *)
Lemma run_complete_aux (r : regex) (st st' : mstate) :
  matches r st st' ->
  In st' (run r st)
  /\ forall r1, r = Star r1 ->
       forall fuel, (length (m_rest st) <= fuel)%nat -> In st' (star_run (run r1) fuel st).
Proof.
  induction 1 as [st | p pv c rest g Hp | r1 r2 st st' st'' _ [IH1 _] _ [IH2 _]
                  | r1 r2 st st' _ [IH _] | r1 r2 st st' _ [IH _]
                  | r st | r st st' st'' _ [IH1 _] Hlt _ [_ IH2]
                  | st Hb | r st st' _ [IH _]].
  - split; [left; reflexivity | discriminate].
  - split; [cbn; rewrite Hp; left; reflexivity | discriminate].
  - split; [|discriminate]. cbn. apply in_flat_map. eauto.
  - split; [|discriminate]. cbn. apply in_or_app. auto.
  - split; [|discriminate]. cbn. apply in_or_app. auto.
  - split; [cbn; apply star_run_here|]. intros r1 [= <-] fuel _. apply star_run_here.
  - assert (Hstar : forall fuel, (length (m_rest st) <= fuel)%nat ->
                                 In st'' (star_run (run r) fuel st)).
    { intros [|fuel] Hfuel; [lia|].
      eapply star_run_more; [exact IH1 | exact Hlt|].
      apply (IH2 r eq_refl). lia. }
    split; [cbn; apply Hstar; lia|]. intros r1 [= <-]. exact Hstar.
  - split; [cbn; rewrite Hb; left; reflexivity | discriminate].
  - split; [|discriminate]. cbn. apply in_map_iff. eauto.
Qed.

Lemma run_complete (r : regex) (st st' : mstate) :
  matches r st st' -> In st' (run r st).
Proof. intros H. apply run_complete_aux, H. Qed.

Lemma search_from_unfold (r : regex) (pv : option ascii) (rest : list ascii) :
  search_from r pv rest =
  match match_at r pv rest with
  | Some m => Some m
  | None => match rest with
            | c :: rest' => search_from r (Some c) rest'
            | [] => None
            end
  end.
Proof. destruct rest; reflexivity. Qed.

Lemma search_from_finds (r : regex) (pre rest : list ascii) (pv : option ascii) :
  is_Some (match_at r (prev_after pv pre) rest) ->
  is_Some (search_from r pv (pre ++ rest)).
Proof.
  revert pv. induction pre as [|c pre IH]; intros pv Hm; rewrite search_from_unfold.
  - cbn in *. destruct (match_at r pv rest); [eauto | destruct Hm; discriminate].
  - cbn [app]. destruct (match_at r pv (c :: pre ++ rest)); [eauto|].
    apply IH. exact Hm.
Qed.

Lemma match_at_some (r : regex) (pv : option ascii) (rest : list ascii) (st' : mstate) :
  matches r (MState pv rest None) st' -> is_Some (match_at r pv rest).
Proof.
  intros H. apply run_complete in H. unfold match_at.
  destruct (run r (MState pv rest None)); [destruct H | eauto].
Qed.


Lemma prev_after_last (l : list ascii) (pv : option ascii) :
  prev_after pv l = match last l with Some c => Some c | None => pv end.
Proof.
  revert pv. induction l as [|c l IH]; intros pv; [reflexivity|].
  cbn [prev_after fold_left]. fold (prev_after (Some c) l). rewrite IH.
  destruct l as [|a l]; [reflexivity|].
  change (last (c :: a :: l)) with (last (a :: l)).
  destruct (last (a :: l)) eqn:E; [reflexivity|].
  apply last_None in E. discriminate.
Qed.

Lemma prev_after_app (pv : option ascii) (a b : list ascii) :
  prev_after pv (a ++ b) = prev_after (prev_after pv a) b.
Proof. apply fold_left_app. Qed.

Lemma digits_star (ds rest : list ascii) (pv : option ascii) (g : option (list ascii)) :
  Forall (fun c => PyStr.is_digit c = true) ds ->
  matches (Star digit) (MState pv (ds ++ rest) g) (MState (prev_after pv ds) rest g).
Proof.
  intros H. revert pv. induction H as [|d ds Hd _ IH]; intros pv.
  - apply m_star_stop.
  - change (prev_after pv (d :: ds)) with (prev_after (Some d) ds). cbn [app].
    eapply m_star_more; [apply (m_chr _ pv d (ds ++ rest) g Hd) | cbn; lia | apply IH].
Qed.

Lemma digits_plus (ds rest : list ascii) (pv : option ascii) (g : option (list ascii)) :
  is_digits ds ->
  matches (Plus digit) (MState pv (ds ++ rest) g) (MState (prev_after pv ds) rest g).
Proof.
  intros [Hne H]. destruct H as [|d ds Hd H]; [congruence|].
  change (prev_after pv (d :: ds)) with (prev_after (Some d) ds). cbn [app].
  eapply m_seq; [apply (m_chr _ pv d (ds ++ rest) g Hd) | apply digits_star, H].
Qed.

Lemma block (ds rest : list ascii) (pv : option ascii) (g : option (list ascii)) :
  is_digits ds ->
  matches (Seq dot (Plus digit)) (MState pv (("."%char :: ds) ++ rest) g)
          (MState (prev_after pv ("."%char :: ds)) rest g).
Proof.
  intros H.
  change (prev_after pv ("."%char :: ds)) with (prev_after (Some "."%char) ds).
  cbn [app].
  eapply m_seq; [apply m_chr; reflexivity | apply digits_plus, H].
Qed.

Lemma blocks_star (groups : list (list ascii)) (rest : list ascii)
    (pv : option ascii) (g : option (list ascii)) :
  Forall is_digits groups ->
  matches (Star (Seq dot (Plus digit)))
          (MState pv (flat_map (fun ds => "."%char :: ds) groups ++ rest) g)
          (MState (prev_after pv (flat_map (fun ds => "."%char :: ds) groups)) rest g).
Proof.
  intros H. revert pv. induction H as [|ds groups Hds _ IH]; intros pv.
  - apply m_star_stop.
  - cbn [flat_map]. rewrite prev_after_app, <- app_assoc.
    eapply m_star_more; [apply block, Hds | | apply IH].
    cbn [m_rest]. rewrite !length_app. cbn. lia.
Qed.

Lemma blocks_plus (groups : list (list ascii)) (rest : list ascii)
    (pv : option ascii) (g : option (list ascii)) :
  groups <> [] -> Forall is_digits groups ->
  matches (Plus (Seq dot (Plus digit)))
          (MState pv (flat_map (fun ds => "."%char :: ds) groups ++ rest) g)
          (MState (prev_after pv (flat_map (fun ds => "."%char :: ds) groups)) rest g).
Proof.
  intros Hne H. destruct H as [|ds groups Hds H]; [congruence|].
  cbn [flat_map]. rewrite prev_after_app, <- app_assoc.
  eapply m_seq; [apply block, Hds | apply blocks_star, H].
Qed.

Lemma digit_is_word (c : ascii) : PyStr.is_digit c = true -> PyStr.is_word c = true.
Proof. intros H. unfold PyStr.is_word. rewrite H. apply orb_true_iff. left. apply orb_true_iff. left. apply orb_true_r. Qed.

Lemma digits_end (ds : list ascii) (pv : option ascii) :
  is_digits ds -> is_word_opt (prev_after pv ds) = true.
Proof.
  intros [Hne H]. revert pv. induction H as [|d ds Hd H IH]; intros pv; [congruence|].
  cbn [prev_after fold_left]. fold (prev_after (Some d) ds).
  destruct ds as [|d' ds]; [cbn; apply digit_is_word, Hd|].
  apply IH. discriminate.
Qed.

Lemma blocks_end (groups : list (list ascii)) (pv : option ascii) :
  groups <> [] -> Forall is_digits groups ->
  is_word_opt (prev_after pv (flat_map (fun ds => "."%char :: ds) groups)) = true.
Proof.
  intros Hne H. revert pv. induction H as [|ds groups Hds H IH]; intros pv; [congruence|].
  cbn [flat_map]. rewrite prev_after_app.
  destruct groups as [|ds' groups].
  - cbn [flat_map prev_after fold_left]. fold (prev_after (Some "."%char) ds).
    apply digits_end, Hds.
  - apply IH. discriminate.
Qed.

Lemma digits_start (ds rest : list ascii) :
  is_digits ds -> is_word_opt (head (ds ++ rest)) = true.
Proof.
  intros [Hne H]. destruct H as [|d ds Hd _]; [congruence|]. cbn. apply digit_is_word, Hd.
Qed.

(** At the start of a token, [CODE_PATTERN] has a match. *)
Lemma code_pattern_matches_token (pv : option ascii) (first : list ascii)
    (groups : list (list ascii)) (post : list ascii) :
  is_digits first -> groups <> [] -> Forall is_digits groups ->
  is_word_opt pv = false -> is_word_opt (head post) = false ->
  exists st', matches CODE_PATTERN (MState pv (dotted first groups ++ post) None) st'.
Proof.
  intros Hfirst Hne Hgroups Hbefore Hafter.
  unfold dotted. rewrite <- app_assoc.
  eexists. unfold CODE_PATTERN.
  eapply m_seq.
  { apply m_wordb. unfold at_boundary. cbn [m_prev m_rest].
    rewrite Hbefore, (digits_start first _ Hfirst). reflexivity. }
  eapply m_seq.
  { apply m_group. eapply m_seq; [apply digits_plus, Hfirst | apply blocks_plus; assumption]. }
  apply m_wordb. unfold at_boundary. cbn [m_prev m_rest].
  rewrite (blocks_end groups _ Hne Hgroups), Hafter. reflexivity.
Qed.

Lemma code_match_at_token (q tok : string) (n : nat) :
  token_at q tok n ->
  exists pre rest,
    PyStr.chars q = pre ++ rest /\ length pre = n
    /\ is_Some (match_at CODE_PATTERN (prev_after None pre) rest).
Proof.
  intros (pre & first & groups & post & Hq & Hn & _ & Hfirst & Hne & Hgroups & Hb & Ha).
  exists pre, (dotted first groups ++ post). split; [exact Hq|]. split; [exact Hn|].
  destruct (code_pattern_matches_token (prev_after None pre) first groups post)
    as [st' Hst']; try assumption.
  - rewrite prev_after_last. destruct (last pre); [exact Hb | reflexivity].
  - eapply match_at_some, Hst'.
Qed.

Lemma code_search_finds_token (q tok : string) :
  contains_token q tok -> is_Some (search CODE_PATTERN q).
Proof.
  intros [n Htok].
  destruct (code_match_at_token q tok n Htok) as (pre & rest & Hq & _ & Hm).
  unfold search. rewrite Hq. apply search_from_finds, Hm.
Qed.


Lemma star_run_sound (r : regex) :
  (forall st st', In st' (run r st) -> matches r st st') ->
  forall fuel st st', In st' (star_run (run r) fuel st) -> matches (Star r) st st'.
Proof.
  intros Hr. induction fuel as [|fuel IH]; intros st st' Hin.
  - destruct Hin as [<- | []]. apply m_star_stop.
  - cbn [star_run] in Hin. apply in_app_or in Hin as [Hin | [<- | []]]; [|apply m_star_stop].
    apply in_flat_map in Hin as (mid & Hmid & Hin).
    destruct (Nat.ltb_spec (length (m_rest mid)) (length (m_rest st))); [|destruct Hin].
    eapply m_star_more; eauto.
Qed.

(** Every attempt of [run] is a match. *)
Lemma run_sound (r : regex) (st st' : mstate) :
  In st' (run r st) -> matches r st st'.
Proof.
  revert st st'. induction r as [|p|r1 IH1 r2 IH2|r1 IH1 r2 IH2|r1 IH1| |r1 IH1];
    intros st st' Hin; cbn [run] in Hin.
  - destruct Hin as [<- | []]. constructor.
  - destruct st as [pv [|c rest] g]; cbn in Hin; [destruct Hin|].
    destruct (p c) eqn:Hp; [|destruct Hin]. destruct Hin as [<- | []].
    constructor. exact Hp.
  - apply in_flat_map in Hin as (mid & Hmid & Hin). econstructor; eauto.
  - apply in_app_or in Hin as [Hin | Hin]; [apply m_alt_l | apply m_alt_r]; eauto.
  - eapply star_run_sound; eauto.
  - destruct (at_boundary st) eqn:Hb; [|destruct Hin]. destruct Hin as [<- | []].
    constructor. exact Hb.
  - apply in_map_iff in Hin as (mid & <- & Hmid). constructor. eauto.
Qed.

Lemma reads_app (a b : list ascii) (st mid st' : mstate) :
  reads a st mid -> reads b mid st' -> reads (a ++ b) st st'.
Proof.
  intros (Ha & Hpa & Hga) (Hb & Hpb & Hgb). repeat split.
  - rewrite Ha, Hb, app_assoc. reflexivity.
  - rewrite Hpb, Hpa, prev_after_app. reflexivity.
  - congruence.
Qed.

Lemma chr_reads (p : ascii -> bool) (st st' : mstate) :
  matches (Chr p) st st' -> exists c, p c = true /\ reads [c] st st'.
Proof. inversion 1; subst. eexists. split; [eassumption|]. repeat split. Qed.

Lemma digits_star_reads (st st' : mstate) :
  matches (Star digit) st st' ->
  exists ds, Forall (fun c => PyStr.is_digit c = true) ds /\ reads ds st st'.
Proof.
  remember (Star digit) as r eqn:Hr. intros H.
  induction H as [| | | | | r st | r st mid st' Hstep _ Hlt _ IH | |]; try discriminate.
  - exists []. split; [constructor | repeat split].
  - injection Hr as ->. destruct (IH eq_refl) as (ds & Hds & Hreads).
    apply chr_reads in Hstep as (c & Hc & Hc_reads).
    exists ([c] ++ ds). split; [constructor; assumption | eapply reads_app; eauto].
Qed.

Lemma digits_plus_reads (st st' : mstate) :
  matches (Plus digit) st st' -> exists ds, is_digits ds /\ reads ds st st'.
Proof.
  inversion 1 as [| |r1 r2 a mid b Hd Hs| | | | | |]; subst.
  apply chr_reads in Hd as (c & Hc & Hc_reads).
  apply digits_star_reads in Hs as (ds & Hds & Hreads).
  exists ([c] ++ ds). split; [split; [discriminate | constructor; assumption]|].
  eapply reads_app; eauto.
Qed.

Lemma block_reads (st st' : mstate) :
  matches (Seq dot (Plus digit)) st st' ->
  exists ds, is_digits ds /\ reads ("."%char :: ds) st st'.
Proof.
  inversion 1 as [| |r1 r2 a mid b Hd Hs| | | | | |]; subst.
  apply chr_reads in Hd as (c & Hc & Hc_reads).
  apply Ascii.eqb_eq in Hc as <-.
  apply digits_plus_reads in Hs as (ds & Hds & Hreads).
  exists ds. split; [exact Hds|]. apply (reads_app ["."%char] ds _ mid); assumption.
Qed.

Lemma blocks_star_reads (st st' : mstate) :
  matches (Star (Seq dot (Plus digit))) st st' ->
  exists groups, Forall is_digits groups
                 /\ reads (flat_map (fun ds => "."%char :: ds) groups) st st'.
Proof.
  remember (Star (Seq dot (Plus digit))) as r eqn:Hr. intros H.
  induction H as [| | | | | r st | r st mid st' Hstep _ Hlt _ IH | |]; try discriminate.
  - exists []. split; [constructor | repeat split].
  - injection Hr as ->. destruct (IH eq_refl) as (groups & Hgroups & Hreads).
    apply block_reads in Hstep as (ds & Hds & Hds_reads).
    exists (ds :: groups). split; [constructor; assumption|].
    cbn [flat_map]. eapply reads_app; eauto.
Qed.

Lemma blocks_plus_reads (st st' : mstate) :
  matches (Plus (Seq dot (Plus digit))) st st' ->
  exists groups, groups <> [] /\ Forall is_digits groups
                 /\ reads (flat_map (fun ds => "."%char :: ds) groups) st st'.
Proof.
  inversion 1 as [| |r1 r2 a mid b Hb Hs| | | | | |]; subst.
  apply block_reads in Hb as (ds & Hds & Hds_reads).
  apply blocks_star_reads in Hs as (groups & Hgroups & Hreads).
  exists (ds :: groups). split; [discriminate|]. split; [constructor; assumption|].
  cbn [flat_map]. eapply reads_app; eauto.
Qed.

Lemma consumed_reads (l : list ascii) (st st' : mstate) :
  m_rest st = l ++ m_rest st' -> consumed st st' = l.
Proof.
  intros H. unfold consumed. rewrite H, length_app.
  replace (length l + length (m_rest st') - length (m_rest st'))%nat with (length l) by lia.
  apply take_app_length.
Qed.

Lemma wordb_inv (st st' : mstate) :
  matches WordB st st' -> st' = st /\ at_boundary st = true.
Proof. inversion 1; subst. auto. Qed.

(** A match of [CODE_PATTERN] is a dotted numeral between two word
    boundaries, and group 1 is that numeral. *)
Lemma code_pattern_match_inv (pv : option ascii) (rest : list ascii) (st' : mstate) :
  matches CODE_PATTERN (MState pv rest None) st' ->
  exists first groups post,
    rest = dotted first groups ++ post
    /\ m_rest st' = post
    /\ m_grp st' = Some (dotted first groups)
    /\ is_digits first /\ groups <> [] /\ Forall is_digits groups
    /\ is_word_opt pv = false /\ is_word_opt (head post) = false.
Proof.
  unfold CODE_PATTERN.
  inversion 1 as [| |r1 r2 a s1 b Hb1 Hrest| | | | | |]; subst.
  apply wordb_inv in Hb1 as [-> Hstart].
  inversion Hrest as [| |r1 r2 a s2 b Hgrp Hb2| | | | | |]; subst.
  apply wordb_inv in Hb2 as [-> Hend].
  inversion Hgrp as [| | | | | | | |r a s3 Hbody]; subst.
  inversion Hbody as [| |r1 r2 a s4 b Hfirst Hblocks| | | | | |]; subst.
  apply digits_plus_reads in Hfirst as (first & Hfirst & Hr1).
  apply blocks_plus_reads in Hblocks as (groups & Hne & Hgroups & Hr2).
  pose proof (reads_app _ _ _ _ _ Hr1 Hr2) as (Hall & Hprev & _).
  cbn [m_rest m_prev] in *.
  exists first, groups, (m_rest s3). fold (dotted first groups) in *.
  split; [exact Hall|]. split; [reflexivity|].
  split; [cbn [m_grp]; f_equal; apply consumed_reads, Hall|].
  split; [exact Hfirst|]. split; [exact Hne|]. split; [exact Hgroups|].
  unfold at_boundary in *. cbn [m_prev m_rest] in *.
  rewrite Hall in Hstart. unfold dotted in Hstart. rewrite <- app_assoc in Hstart.
  rewrite (digits_start first _ Hfirst) in Hstart.
  rewrite Hprev in Hend. unfold dotted in Hend. rewrite prev_after_app in Hend.
  rewrite (blocks_end groups _ Hne Hgroups) in Hend.
  split.
  - destruct (is_word_opt pv); [discriminate | reflexivity].
  - destruct (is_word_opt (head (m_rest s3))); [discriminate | reflexivity].
Qed.

(** Where [search_from] finds its match: at the first position with one. *)
Lemma search_from_inv (r : regex) (l : list ascii) (pv : option ascii) (m : rmatch) :
  search_from r pv l = Some m ->
  exists pre rest,
    l = pre ++ rest
    /\ match_at r (prev_after pv pre) rest = Some m
    /\ forall pre1 rest1,
         l = pre1 ++ rest1 -> (length pre1 < length pre)%nat ->
         match_at r (prev_after pv pre1) rest1 = None.
Proof.
  revert pv. induction l as [|c l IH]; intros pv; rewrite search_from_unfold.
  - destruct (match_at r pv []) eqn:E; [|discriminate]. intros [= <-].
    exists [], []. split; [reflexivity|]. split; [exact E|].
    intros pre1 rest1 _ Hlt. cbn in Hlt. lia.
  - destruct (match_at r pv (c :: l)) eqn:E.
    + intros [= <-]. exists [], (c :: l). split; [reflexivity|]. split; [exact E|].
      intros pre1 rest1 _ Hlt. cbn in Hlt. lia.
    + intros H. destruct (IH _ H) as (pre & rest & -> & Hm & Hmin).
      exists (c :: pre), rest. split; [reflexivity|]. split; [exact Hm|].
      intros [|c1 pre1] rest1 Heq Hlt.
      * cbn in Heq. subst rest1. exact E.
      * cbn in Heq. injection Heq as <- Heq. apply (Hmin pre1 rest1 Heq).
        cbn in Hlt. lia.
Qed.


Lemma star_run_inv (step : mstate -> list mstate) (P : mstate -> mstate -> Prop) :
  (forall st, P st st) ->
  (forall a b c, P a b -> P b c -> P a c) ->
  (forall st st', In st' (step st) -> P st st') ->
  forall fuel st st', In st' (star_run step fuel st) -> P st st'.
Proof.
  intros Hrefl Htrans Hstep. induction fuel as [|fuel IH]; intros st st' Hin.
  - destruct Hin as [<- | []]. apply Hrefl.
  - cbn [star_run] in Hin. apply in_app_or in Hin as [Hin | [<- | []]]; [|apply Hrefl].
    apply in_flat_map in Hin as (mid & Hmid & Hin).
    destruct (length (m_rest mid) <? length (m_rest st))%nat; [|destruct Hin].
    eapply Htrans; [apply Hstep, Hmid | apply IH, Hin].
Qed.

Lemma run_shrinks (r : regex) (st st' : mstate) :
  In st' (run r st) -> (length (m_rest st') <= length (m_rest st))%nat.
Proof.
  revert st st'. induction r as [|p|r1 IH1 r2 IH2|r1 IH1 r2 IH2|r1 IH1| |r1 IH1];
    intros st st' Hin; cbn [run] in Hin.
  - destruct Hin as [<- | []]. lia.
  - destruct st as [pv [|c rest] g]; cbn in Hin; [destruct Hin|].
    destruct (p c); [|destruct Hin]. destruct Hin as [<- | []]. cbn. lia.
  - apply in_flat_map in Hin as (mid & Hmid & Hin).
    specialize (IH1 _ _ Hmid). specialize (IH2 _ _ Hin). lia.
  - apply in_app_or in Hin as [Hin | Hin]; eauto.
  - revert Hin. apply (star_run_inv (run r1)
      (fun a b => (length (m_rest b) <= length (m_rest a))%nat)); [lia | lia | exact IH1].
  - destruct (at_boundary st); [|destruct Hin]. destruct Hin as [<- | []]. lia.
  - apply in_map_iff in Hin as (mid & <- & Hmid). cbn. eauto.
Qed.

Lemma run_consumes (r : regex) (st st' : mstate) :
  consuming r = true -> In st' (run r st) ->
  (length (m_rest st') < length (m_rest st))%nat.
Proof.
  revert st st'. induction r as [|p|r1 IH1 r2 IH2|r1 IH1 r2 IH2|r1 IH1| |r1 IH1];
    intros st st' Hc Hin; cbn [run consuming] in *; try discriminate.
  - destruct st as [pv [|c rest] g]; cbn in Hin; [destruct Hin|].
    destruct (p c); [|destruct Hin]. destruct Hin as [<- | []]. cbn. lia.
  - apply in_flat_map in Hin as (mid & Hmid & Hin).
    pose proof (run_shrinks _ _ _ Hmid). pose proof (run_shrinks _ _ _ Hin).
    apply orb_true_iff in Hc as [Hc | Hc].
    + specialize (IH1 _ _ Hc Hmid). lia.
    + specialize (IH2 _ _ Hc Hin). lia.
  - apply andb_true_iff in Hc as [Hc1 Hc2].
    apply in_app_or in Hin as [Hin | Hin]; eauto.
  - apply in_map_iff in Hin as (mid & <- & Hmid). cbn. eauto.
Qed.

Lemma run_groupless (r : regex) (st st' : mstate) :
  groupless r = true -> In st' (run r st) -> m_grp st' = m_grp st.
Proof.
  revert st st'. induction r as [|p|r1 IH1 r2 IH2|r1 IH1 r2 IH2|r1 IH1| |r1 IH1];
    intros st st' Hg Hin; cbn [run groupless] in *; try discriminate.
  - destruct Hin as [<- | []]. reflexivity.
  - destruct st as [pv [|c rest] g]; cbn in Hin; [destruct Hin|].
    destruct (p c); [|destruct Hin]. destruct Hin as [<- | []]. reflexivity.
  - apply andb_true_iff in Hg as [Hg1 Hg2].
    apply in_flat_map in Hin as (mid & Hmid & Hin).
    rewrite (IH2 _ _ Hg2 Hin). eauto.
  - apply andb_true_iff in Hg as [Hg1 Hg2].
    apply in_app_or in Hin as [Hin | Hin]; eauto.
  - revert Hin. apply (star_run_inv (run r1) (fun a b => m_grp b = m_grp a));
      [reflexivity | intros a b c -> ->; reflexivity | intros a b; apply IH1, Hg].
  - destruct (at_boundary st); [|destruct Hin]. destruct Hin as [<- | []]. reflexivity.
Qed.

Lemma run_captures (r : regex) (st st' : mstate) :
  capturing r = true -> In st' (run r st) -> captured st'.
Proof.
  revert st st'. induction r as [|p|r1 IH1 r2 IH2|r1 IH1 r2 IH2|r1 IH1| |r1 IH1];
    intros st st' Hc Hin; cbn [run capturing] in *; try discriminate.
  - apply in_flat_map in Hin as (mid & Hmid & Hin).
    apply orb_true_iff in Hc as [Hc | Hc]; [eauto|].
    apply andb_true_iff in Hc as [Hc1 Hc2].
    destruct (IH1 _ _ Hc1 Hmid) as (l & Hl & Hne).
    exists l. rewrite (run_groupless _ _ _ Hc2 Hin). auto.
  - apply andb_true_iff in Hc as [Hc1 Hc2].
    apply in_app_or in Hin as [Hin | Hin]; eauto.
  - apply in_map_iff in Hin as (mid & <- & Hmid).
    pose proof (run_consumes _ _ _ Hc Hmid) as Hlt.
    eexists. split; [reflexivity|]. unfold consumed.
    destruct (m_rest st) as [|c rest]; [cbn in Hlt; lia|].
    cbn [length] in *.
    destruct (S (length rest) - length (m_rest mid))%nat eqn:E; [lia | discriminate].
Qed.

Lemma chars_str (l : list ascii) : PyStr.chars (PyStr.str l) = l.
Proof. apply list_ascii_of_string_of_list_ascii. Qed.

Lemma str_nonempty (l : list ascii) : l <> [] -> PyStr.str l <> "".
Proof. destruct l; [congruence | discriminate]. Qed.

Lemma match_at_group1 (r : regex) (pv : option ascii) (rest : list ascii) (m : rmatch) :
  capturing r = true -> match_at r pv rest = Some m -> group1 m <> "".
Proof.
  intros Hc. unfold match_at.
  destruct (run r (MState pv rest None)) as [|st' sts] eqn:Hrun; [discriminate|].
  intros [= <-]. cbn [group1].
  destruct (run_captures r (MState pv rest None) st' Hc) as (l & -> & Hne).
  - rewrite Hrun. left. reflexivity.
  - apply str_nonempty, Hne.
Qed.

Lemma search_group1 (r : regex) (q : string) (m : rmatch) :
  capturing r = true -> search r q = Some m -> group1 m <> "".
Proof.
  intros Hc. unfold search. generalize (@None ascii) as pv.
  induction (PyStr.chars q) as [|c rest IH]; intros pv; cbn [search_from].
  - destruct (match_at r pv []) eqn:E; [|discriminate].
    intros [= <-]. eapply match_at_group1; eauto.
  - destruct (match_at r pv (c :: rest)) eqn:E; [|apply IH].
    intros [= <-]. eapply match_at_group1; eauto.
Qed.

Lemma truthy_nonempty (s : string) : s <> "" -> truthy s = true.
Proof. intros H. unfold truthy. apply negb_true_iff, String.eqb_neq, H. Qed.


Lemma route_query_code (st : state) (c : string) :
  detected (_detect_code (get query st "")) = Some c ->
  routed st CODE (Some c).
Proof.
  intros H. unfold routed, route_query. cbv zeta. rewrite H.
  split; [reflexivity|]. eexists. split; [reflexivity|]. split; reflexivity.
Qed.

Lemma two_tokens : contains_token "compare 5.1 and 6.2" "6.2".
Proof.
  exists 16%nat, (PyStr.chars "compare 5.1 and "), ["6"%char], [["2"%char]], [].
  repeat split; try discriminate; repeat constructor; discriminate.
Qed.

Lemma section_token : contains_token "What does section 5.1.2 say?" "5.1.2".
Proof.
  exists 18%nat, (PyStr.chars "What does section "), ["5"%char],
    [["1"%char]; ["2"%char]], (PyStr.chars " say?").
  repeat split; try discriminate; repeat constructor; discriminate.
Qed.

End PatternFacts.

(** ** The order of the attempts *)

Section OrderFacts.
Import Re Router.

Lemma asc_app (l1 l2 : list mstate) :
  asc l1 -> asc l2 ->
  (forall a b, In a l1 -> In b l2 -> (rlen a <= rlen b)%nat) ->
  asc (l1 ++ l2).
Proof.
  intros H1 H2 Hcross. induction H1 as [|a l1 Hl1 IH Ha]; [exact H2|].
  cbn [app]. constructor.
  - apply IH. intros x y Hx Hy. apply Hcross; [right; exact Hx | exact Hy].
  - apply List.Forall_app. split; [exact Ha|].
    apply List.Forall_forall. intros y Hy. apply Hcross; [left; reflexivity | exact Hy].
Qed.

Lemma asc_head (x y : mstate) (l : list mstate) :
  asc (x :: l) -> In y (x :: l) -> (rlen x <= rlen y)%nat.
Proof.
  intros Hs [<- | Hy]; [lia|].
  apply StronglySorted_inv in Hs as [_ Hall].
  rewrite List.Forall_forall in Hall. apply Hall, Hy.
Qed.

Lemma asc_map (f : mstate -> mstate) (l : list mstate) :
  (forall x, rlen (f x) = rlen x) -> asc l -> asc (map f l).
Proof.
  intros Hf. induction 1 as [|a l Hl IH Ha]; cbn [map]; constructor; [exact IH|].
  apply List.Forall_forall. intros y Hy. apply in_map_iff in Hy as (x & <- & Hx).
  rewrite !Hf. rewrite List.Forall_forall in Ha. apply Ha, Hx.
Qed.

(** States on which [f] does nothing or fails keep their order. *)
Lemma asc_flat_map_stuck (f : mstate -> list mstate) (t : list mstate) :
  (forall s, In s t -> f s = [s] \/ f s = []) ->
  asc t ->
  asc (flat_map f t) /\ forall y, In y (flat_map f t) -> In y t.
Proof.
  intros Hstuck. induction 1 as [|a t Ht IH Ha]; cbn [flat_map].
  - split; [constructor | intros y []].
  - destruct IH as [IHs IHin]; [intros s Hs; apply Hstuck; right; exact Hs|].
    destruct (Hstuck a (or_introl eq_refl)) as [-> | ->]; cbn [app].
    + split.
      * constructor; [exact IHs|]. apply List.Forall_forall. intros y Hy.
        rewrite List.Forall_forall in Ha. apply Ha, IHin, Hy.
      * intros y [<- | Hy]; [left; reflexivity | right; apply IHin, Hy].
    + split; [exact IHs | intros y Hy; right; apply IHin, Hy].
Qed.

(** The greedy first attempt goes on, the later ones are stuck. *)
Lemma cascade (f : mstate -> list mstate) (h : mstate) (t : list mstate) :
  asc (h :: t) ->
  asc (f h) ->
  (forall x, In x (f h) -> (rlen x <= rlen h)%nat) ->
  (forall s, In s t -> f s = [s] \/ f s = []) ->
  asc (flat_map f (h :: t)).
Proof.
  intros Hs Hh Hbound Hstuck. cbn [flat_map].
  pose proof Hs as Hs'. apply StronglySorted_inv in Hs' as [Ht Hall].
  destruct (asc_flat_map_stuck f t Hstuck Ht) as [Hft Hin].
  apply asc_app; [exact Hh | exact Hft|].
  intros a b Ha Hb. transitivity (rlen h); [apply Hbound, Ha|].
  rewrite List.Forall_forall in Hall. apply Hall, Hin, Hb.
Qed.

Lemma star_run_shrinks (step : mstate -> list mstate) :
  (forall a b, In b (step a) -> (rlen b <= rlen a)%nat) ->
  forall fuel st st', In st' (star_run step fuel st) -> (rlen st' <= rlen st)%nat.
Proof.
  intros Hstep. apply (star_run_inv step (fun a b => (rlen b <= rlen a)%nat)).
  - intros st. lia.
  - intros a b c Hab Hbc. lia.
  - exact Hstep.
Qed.

Lemma run_rlen (r : regex) (st st' : mstate) :
  In st' (run r st) -> (rlen st' <= rlen st)%nat.
Proof. apply run_shrinks. Qed.

(** Greedy repetition of one character class. *)
Lemma star_chr_run (p : ascii -> bool) (fuel : nat) (st : mstate) :
  exists h t,
    star_run (run (Chr p)) fuel st = h :: t
    /\ asc (h :: t) /\ Forall (next_is p) t.
Proof.
  revert st. induction fuel as [|fuel IH]; intros st.
  - exists st, []. cbn. repeat split; repeat constructor.
  - cbn [star_run].
    assert (Hstep : run (Chr p) st
                    = match m_rest st with
                      | c :: r => if p c then [MState (Some c) r (m_grp st)] else []
                      | [] => []
                      end) by reflexivity.
    rewrite Hstep. clear Hstep.
    destruct (m_rest st) as [|c r] eqn:Hrest.
    + exists st, []. cbn. repeat split; repeat constructor.
    + destruct (p c) eqn:Hp.
      * cbn [flat_map m_rest]. rewrite app_nil_r.
        assert (Hlt : (length r <? length (c :: r))%nat = true)
          by (apply Nat.ltb_lt; cbn; lia).
        rewrite Hlt.
        destruct (IH (MState (Some c) r (m_grp st))) as (h & t & Heq & Hs & Hnext).
        rewrite Heq. exists h, (t ++ [st]). split; [reflexivity|]. split.
        -- change (h :: t ++ [st]) with ((h :: t) ++ [st]).
           apply asc_app; [exact Hs | repeat constructor|].
           intros a b Ha [<- | []].
           rewrite <- Heq in Ha.
           apply (star_run_shrinks (run (Chr p)) (run_rlen (Chr p))) in Ha.
           unfold rlen in *. cbn [m_rest] in Ha. rewrite Hrest. cbn [length]. lia.
        -- apply List.Forall_app. split; [exact Hnext|].
           constructor; [|constructor]. exists c, r. auto.
      * exists st, []. cbn. repeat split; repeat constructor.
Qed.

Lemma plus_chr_run (p : ascii -> bool) (st : mstate) :
  run (Plus (Chr p)) st = []
  \/ exists h t,
       run (Plus (Chr p)) st = h :: t
       /\ asc (h :: t) /\ Forall (next_is p) t.
Proof.
  unfold Plus. cbn [run].
  destruct (m_rest st) as [|c r]; [left; reflexivity|].
  destruct (p c); [|left; reflexivity].
  right. cbn [flat_map]. rewrite app_nil_r. apply star_chr_run.
Qed.

Lemma plus_chr_stuck (p p' : ascii -> bool) (s : mstate) :
  (forall c, p' c = true -> p c = false) ->
  next_is p' s -> run (Plus (Chr p)) s = [].
Proof.
  intros Hp (c & r & Hrest & Hc). unfold Plus. cbn [run].
  rewrite Hrest, (Hp c Hc). reflexivity.
Qed.

Lemma digit_not_dot (c : ascii) : PyStr.is_digit c = true -> Ascii.eqb "." c = false.
Proof.
  intros Hd. destruct (Ascii.eqb_spec "."%char c) as [<- | _]; [discriminate | reflexivity].
Qed.

Lemma space_not_digit (c : ascii) : PyStr.is_space c = true -> PyStr.is_digit c = false.
Proof.
  destruct c as [[|] [|] [|] [|] [|] [|] [|] [|]]; vm_compute; intros; congruence.
Qed.

(** A dot-digits block cannot start on a digit. *)
Lemma blk_stuck (s : mstate) :
  next_is PyStr.is_digit s -> run (Seq dot (Plus digit)) s = [].
Proof.
  intros (c & r & Hrest & Hc). cbn [run dot Lit].
  rewrite Hrest, (digit_not_dot c Hc). reflexivity.
Qed.

Lemma star_blk_stuck (fuel : nat) (s : mstate) :
  next_is PyStr.is_digit s -> star_run (run (Seq dot (Plus digit))) fuel s = [s].
Proof.
  intros Hs. destruct fuel as [|fuel]; [reflexivity|].
  cbn [star_run]. rewrite (blk_stuck s Hs). reflexivity.
Qed.

Lemma plus_blk_stuck (s : mstate) :
  next_is PyStr.is_digit s -> run (Plus (Seq dot (Plus digit))) s = [].
Proof.
  intros Hs. unfold Plus at 1. change (run (Seq ?a ?b) ?x) with (flat_map (run b) (run a x)).
  rewrite (blk_stuck s Hs). reflexivity.
Qed.

Lemma blk_run (s : mstate) :
  run (Seq dot (Plus digit)) s = []
  \/ exists h t,
       run (Seq dot (Plus digit)) s = h :: t
       /\ asc (h :: t) /\ Forall (next_is PyStr.is_digit) t.
Proof.
  change (run (Seq dot (Plus digit)) s) with (flat_map (run (Plus digit)) (run dot s)).
  cbn [run dot Lit].
  destruct (m_rest s) as [|c r]; [left; reflexivity|].
  destruct (Ascii.eqb "." c); [|left; reflexivity].
  cbn [flat_map]. rewrite app_nil_r. apply plus_chr_run.
Qed.

Lemma star_blk_asc (fuel : nat) (s : mstate) :
  asc (star_run (run (Seq dot (Plus digit))) fuel s).
Proof.
  revert s. induction fuel as [|fuel IH]; intros s; [repeat constructor|].
  cbn [star_run].
  set (g := fun st' : mstate =>
              if (length (m_rest st') <? length (m_rest s))%nat
              then star_run (run (Seq dot (Plus digit))) fuel st' else []).
  apply asc_app; [| repeat constructor |].
  - destruct (blk_run s) as [-> | (h & t & -> & Hs & Hnext)]; [constructor|].
    apply cascade; [exact Hs | | |].
    + unfold g. destruct (_ <? _)%nat; [apply IH | constructor].
    + intros x Hx. unfold g in Hx. destruct (_ <? _)%nat; [|destruct Hx].
      eapply star_run_shrinks; [apply run_rlen | exact Hx].
    + intros s' Hs'. rewrite List.Forall_forall in Hnext. unfold g.
      destruct (_ <? _)%nat; [left; apply star_blk_stuck, Hnext, Hs' | right; reflexivity].
  - intros a b Ha [<- | []].
    apply in_flat_map in Ha as (s' & Hs' & Ha). unfold g in Ha.
    destruct (_ <? _)%nat; [|destruct Ha].
    transitivity (rlen s').
    + eapply star_run_shrinks; [apply run_rlen | exact Ha].
    + apply (run_rlen _ _ _ Hs').
Qed.

Lemma star_blk_run_asc (s : mstate) : asc (run (Star (Seq dot (Plus digit))) s).
Proof. apply star_blk_asc. Qed.

Lemma plus_blk_asc (s : mstate) : asc (run (Plus (Seq dot (Plus digit))) s).
Proof.
  unfold Plus at 1.
  change (run (Seq ?a ?b) ?x) with (flat_map (run b) (run a x)).
  destruct (blk_run s) as [-> | (h & t & -> & Hs & Hnext)]; [constructor|].
  apply cascade; [exact Hs | apply star_blk_run_asc | apply run_rlen |].
  intros s' Hs'. left. apply star_blk_stuck.
  rewrite List.Forall_forall in Hnext. apply Hnext, Hs'.
Qed.

(** The two numerals: digits with any number of blocks, and with at least
    one block. *)
Lemma numeral_star_asc (s : mstate) :
  asc (run (Seq (Plus digit) (Star (Seq dot (Plus digit)))) s).
Proof.
  change (run (Seq ?a ?b) ?x) with (flat_map (run b) (run a x)).
  destruct (plus_chr_run PyStr.is_digit s) as [H | (h & t & H & Hs & Hnext)];
    unfold digit; rewrite H; [constructor|].
  apply cascade; [exact Hs | apply star_blk_run_asc | apply run_rlen |].
  intros s' Hs'. left. apply star_blk_stuck.
  rewrite List.Forall_forall in Hnext. apply Hnext, Hs'.
Qed.

Lemma numeral_plus_asc (s : mstate) :
  asc (run (Seq (Plus digit) (Plus (Seq dot (Plus digit)))) s).
Proof.
  change (run (Seq ?a ?b) ?x) with (flat_map (run b) (run a x)).
  destruct (plus_chr_run PyStr.is_digit s) as [H | (h & t & H & Hs & Hnext)];
    unfold digit; rewrite H; [constructor|].
  apply cascade; [exact Hs | apply plus_blk_asc | apply run_rlen |].
  intros s' Hs'. right. apply plus_blk_stuck.
  rewrite List.Forall_forall in Hnext. apply Hnext, Hs'.
Qed.

Lemma group_asc (r : regex) (s : mstate) : asc (run r s) -> asc (run (Group r) s).
Proof. intros H. cbn [run]. apply asc_map; [reflexivity | exact H]. Qed.

Lemma then_wordb_asc (l : list mstate) : asc l -> asc (flat_map (run WordB) l).
Proof.
  intros H. apply asc_flat_map_stuck; [|exact H].
  intros s _. cbn [run]. destruct (at_boundary s); auto.
Qed.

Lemma code_run_asc (s : mstate) : asc (run CODE_PATTERN s).
Proof.
  unfold CODE_PATTERN.
  change (run (Seq WordB ?b) s) with (flat_map (run b) (run WordB s)).
  cbn [run]. destruct (at_boundary s); [|constructor].
  cbn [flat_map]. rewrite app_nil_r.
  apply then_wordb_asc, asc_map; [reflexivity|]. apply numeral_plus_asc.
Qed.

End OrderFacts.

Section SectionFacts.
Import Re Router.

Lemma word_head (k : ascii) (ks : list ascii) (st : mstate) :
  run (Word LitI (k :: ks)) st
  = match m_rest st with
    | c :: r =>
        if Ascii.eqb (PyStr.lower_char c) k
        then run (Word LitI ks) (MState (Some c) r (m_grp st)) else []
    | [] => []
    end.
Proof.
  destruct ks as [|k' ks].
  - cbn [Word LitI run]. destruct (m_rest st) as [|c r]; [reflexivity|].
    destruct (Ascii.eqb _ _); reflexivity.
  - change (Word LitI (k :: k' :: ks)) with (Seq (LitI k) (Word LitI (k' :: ks))).
    change (run (Seq ?a ?b) st) with (flat_map (run b) (run a st)).
    cbn [LitI run]. destruct (m_rest st) as [|c r]; [reflexivity|].
    destruct (Ascii.eqb _ _); [|reflexivity].
    cbn [flat_map]. apply app_nil_r.
Qed.

Lemma word_single (l : list ascii) (st : mstate) :
  run (Word LitI l) st = [] \/ exists s, run (Word LitI l) st = [s].
Proof.
  revert st. induction l as [|k ks IH]; intros st.
  - right. exists st. reflexivity.
  - rewrite word_head. destruct (m_rest st) as [|c r]; [left; reflexivity|].
    destruct (Ascii.eqb _ _); [apply IH | left; reflexivity].
Qed.

Lemma keywords_single (st : mstate) :
  run keywords st = [] \/ exists s, run keywords st = [s].
Proof.
  unfold keywords. cbn [run].
  change (PyStr.chars "section") with ("s"%char :: PyStr.chars "ection").
  change bolum with ("b"%char :: [o_uml; "l"; u_uml; "m"]%char).
  change (PyStr.chars "madde") with ("m"%char :: PyStr.chars "adde").
  rewrite !word_head.
  destruct (m_rest st) as [|c r]; [left; reflexivity|].
  destruct (Ascii.eqb_spec (PyStr.lower_char c) "s") as [-> | _].
  - cbn [Ascii.eqb Bool.eqb]. rewrite !app_nil_r. apply word_single.
  - destruct (Ascii.eqb_spec (PyStr.lower_char c) "b") as [-> | _].
    + cbn [Ascii.eqb Bool.eqb app]. rewrite app_nil_r. apply word_single.
    + cbn [app]. destruct (Ascii.eqb _ _); [apply word_single | left; reflexivity].
Qed.

Lemma numeral_stuck_space (s : mstate) :
  next_is PyStr.is_space s ->
  run (Seq (Group (Seq (Plus digit) (Star (Seq dot (Plus digit))))) WordB) s = [].
Proof.
  intros Hs.
  change (run (Seq ?a ?b) s) with (flat_map (run b) (run a s)).
  cbn [run]. fold (run (Plus digit) s).
  unfold digit. rewrite (plus_chr_stuck PyStr.is_digit PyStr.is_space s space_not_digit Hs).
  reflexivity.
Qed.

Lemma section_run_asc (s : mstate) : asc (run SECTION_PATTERN s).
Proof.
  unfold SECTION_PATTERN. fold keywords.
  change (run (Seq WordB ?b) s) with (flat_map (run b) (run WordB s)).
  cbn [run]. destruct (at_boundary s); [|constructor].
  cbn [flat_map]. rewrite app_nil_r.
  change (run (Seq keywords ?b) s) with (flat_map (run b) (run keywords s)).
  destruct (keywords_single s) as [-> | [s1 ->]]; [constructor|].
  cbn [flat_map]. rewrite app_nil_r.
  change (run (Seq (Star space) ?b) s1) with (flat_map (run b) (run (Star space) s1)).
  unfold space at 1.
  destruct (star_chr_run PyStr.is_space (length (m_rest s1)) s1)
    as (h & t & Heq & Hs & Hnext).
  change (run (Star (Chr PyStr.is_space)) s1)
    with (star_run (run (Chr PyStr.is_space)) (length (m_rest s1)) s1).
  rewrite Heq.
  apply (cascade
           (run (Seq (Group (Seq (Plus digit) (Star (Seq dot (Plus digit))))) WordB)));
    [exact Hs | | intros x Hx; exact (run_rlen _ _ _ Hx) |].
  - change (run (Seq ?a ?b) h) with (flat_map (run b) (run a h)).
    apply then_wordb_asc, group_asc, numeral_star_asc.
  - intros s' Hs'. right. apply numeral_stuck_space.
    rewrite List.Forall_forall in Hnext. apply Hnext, Hs'.
Qed.

(** The first attempt of a pattern whose attempts read less and less
    reads the most. *)
Lemma match_at_longest (r : regex) (pv : option ascii) (rest : list ascii)
    (m : rmatch) (st'' : mstate) :
  (forall s, asc (run r s)) ->
  match_at r pv rest = Some m ->
  matches r (MState pv rest None) st'' ->
  exists st',
    matches r (MState pv rest None) st'
    /\ group1 m = PyStr.str (default [] (m_grp st'))
    /\ (rlen st' <= rlen st'')%nat.
Proof.
  intros Hasc Hm Hst''. unfold match_at in Hm.
  destruct (run r (MState pv rest None)) as [|st' sts] eqn:Hrun; [discriminate|].
  injection Hm as <-. exists st'. split; [|split; [reflexivity|]].
  - apply run_sound. rewrite Hrun. left. reflexivity.
  - apply (asc_head st' st'' sts).
    + rewrite <- Hrun. apply Hasc.
    + rewrite <- Hrun. apply run_complete, Hst''.
Qed.

End SectionFacts.

(** ** What the router extracts *)

Section FirstFacts.
Import Re Router.

Lemma str_length (l : list ascii) : String.length (PyStr.str l) = length l.
Proof. unfold PyStr.str. induction l as [|c l IH]; cbn; [reflexivity | f_equal; exact IH]. Qed.

Lemma star_chr_matches (p : ascii -> bool) (l rest : list ascii) (pv : option ascii)
    (g : option (list ascii)) :
  Forall (fun c => p c = true) l ->
  matches (Star (Chr p)) (MState pv (l ++ rest) g) (MState (prev_after pv l) rest g).
Proof.
  intros H. revert pv. induction H as [|d ds Hd _ IH]; intros pv.
  - apply m_star_stop.
  - change (prev_after pv (d :: ds)) with (prev_after (Some d) ds). cbn [app].
    eapply m_star_more; [apply (m_chr _ pv d (ds ++ rest) g Hd) | cbn; lia | apply IH].
Qed.

Lemma star_chr_reads (p : ascii -> bool) (st st' : mstate) :
  matches (Star (Chr p)) st st' ->
  exists l, Forall (fun c => p c = true) l /\ reads l st st'.
Proof.
  remember (Star (Chr p)) as r eqn:Hr. intros H.
  induction H as [| | | | | r st | r st mid st' Hstep _ Hlt _ IH | |]; try discriminate.
  - exists []. split; [constructor | repeat split].
  - injection Hr as ->. destruct (IH eq_refl) as (ds & Hds & Hreads).
    apply chr_reads in Hstep as (c & Hc & Hc_reads).
    exists ([c] ++ ds). split; [constructor; assumption | eapply reads_app; eauto].
Qed.

Lemma word_matches (kw l rest : list ascii) (pv : option ascii) (g : option (list ascii)) :
  map PyStr.lower_char kw = l ->
  matches (Word LitI l) (MState pv (kw ++ rest) g) (MState (prev_after pv kw) rest g).
Proof.
  revert l pv. induction kw as [|a t IH]; intros l pv <-.
  - apply m_eps.
  - change (prev_after pv (a :: t)) with (prev_after (Some a) t). cbn [map app].
    destruct t as [|b t].
    + cbn [map Word prev_after fold_left app]. apply m_chr. apply Ascii.eqb_refl.
    + change (Word LitI (PyStr.lower_char a :: map PyStr.lower_char (b :: t)))
        with (Seq (LitI (PyStr.lower_char a)) (Word LitI (map PyStr.lower_char (b :: t)))).
      eapply m_seq; [apply m_chr; apply Ascii.eqb_refl | apply IH; reflexivity].
Qed.

Lemma word_reads (l : list ascii) (st st' : mstate) :
  matches (Word LitI l) st st' ->
  exists kw, map PyStr.lower_char kw = l /\ reads kw st st'.
Proof.
  revert st. induction l as [|k ks IH]; intros st H.
  - inversion H; subst. exists []. repeat split.
  - destruct ks as [|k' ks].
    + cbn [Word] in H. apply chr_reads in H as (c & Hc & Hreads).
      apply Ascii.eqb_eq in Hc. exists [c]. split; [cbn; f_equal; exact Hc | exact Hreads].
    + change (Word LitI (k :: k' :: ks)) with (Seq (LitI k) (Word LitI (k' :: ks))) in H.
      inversion H as [| |r1 r2 a mid b Hc Hrest| | | | | |]; subst.
      apply chr_reads in Hc as (c & Hc & Hc_reads). apply Ascii.eqb_eq in Hc.
      destruct (IH _ Hrest) as (kw & Hkw & Hreads).
      exists ([c] ++ kw). split; [cbn; f_equal; assumption|].
      eapply reads_app; eauto.
Qed.

Lemma keywords_matches (kw rest : list ascii) (pv : option ascii) (g : option (list ascii)) :
  is_keyword kw ->
  matches keywords (MState pv (kw ++ rest) g) (MState (prev_after pv kw) rest g).
Proof.
  unfold keywords. intros [H | [H | H]].
  - apply m_alt_l, word_matches, H.
  - apply m_alt_r, m_alt_l, word_matches, H.
  - apply m_alt_r, m_alt_r, word_matches, H.
Qed.

Lemma keywords_reads (st st' : mstate) :
  matches keywords st st' -> exists kw, is_keyword kw /\ reads kw st st'.
Proof.
  unfold keywords, is_keyword.
  inversion 1 as [| | |r1 r2 a b H1|r1 r2 a b H1| | | |]; subst.
  - apply (word_reads (PyStr.chars "section")) in H1 as (kw & Hkw & Hr). eauto.
  - inversion H1 as [| | |r1 r2 a b H2|r1 r2 a b H2| | | |]; subst.
    + apply (word_reads bolum) in H2 as (kw & Hkw & Hr). eauto.
    + apply (word_reads (PyStr.chars "madde")) in H2 as (kw & Hkw & Hr). eauto 6.
Qed.

Lemma lower_is_word (x : ascii) :
  PyStr.is_word (PyStr.lower_char x) = true -> PyStr.is_word x = true.
Proof.
  destruct x as [[|] [|] [|] [|] [|] [|] [|] [|]]; vm_compute; intros; congruence.
Qed.

Lemma keyword_head (kw rest : list ascii) :
  is_keyword kw -> is_word_opt (head (kw ++ rest)) = true.
Proof.
  intros [H | [H | H]]; destruct kw as [|a t]; try discriminate;
    cbn [map] in H; injection H as Ha _; cbn [app head is_word_opt];
    apply lower_is_word; rewrite Ha; reflexivity.
Qed.

Lemma numeral_end (pv : option ascii) (first : list ascii) (groups : list (list ascii)) :
  is_digits first -> Forall is_digits groups ->
  is_word_opt (prev_after pv (dotted first groups)) = true.
Proof.
  intros Hfirst Hgroups. unfold dotted. rewrite prev_after_app.
  destruct groups as [|ds groups].
  - cbn [flat_map prev_after fold_left]. apply digits_end, Hfirst.
  - apply blocks_end; [discriminate | exact Hgroups].
Qed.

(** A match of the numeral group of [SECTION_PATTERN]. *)
Lemma numeral_group_inv (st st' : mstate) :
  matches (Group (Seq (Plus digit) (Star (Seq dot (Plus digit))))) st st' ->
  exists first groups,
    is_digits first /\ Forall is_digits groups
    /\ m_rest st = dotted first groups ++ m_rest st'
    /\ m_prev st' = prev_after (m_prev st) (dotted first groups)
    /\ m_grp st' = Some (dotted first groups).
Proof.
  inversion 1 as [| | | | | | | |r a s Hbody]; subst.
  inversion Hbody as [| |r1 r2 a s1 b Hfirst Hblocks| | | | | |]; subst.
  apply digits_plus_reads in Hfirst as (first & Hfirst & Hr1).
  apply blocks_star_reads in Hblocks as (groups & Hgroups & Hr2).
  pose proof (reads_app _ _ _ _ _ Hr1 Hr2) as (Hall & Hprev & _).
  exists first, groups. cbn [m_rest m_grp m_prev]. unfold dotted.
  split; [exact Hfirst|]. split; [exact Hgroups|]. split; [exact Hall|].
  split; [exact Hprev|]. f_equal. apply consumed_reads, Hall.
Qed.

(** A match of [SECTION_PATTERN]: keyword, white space, numeral, between
    two word boundaries; group 1 is the numeral. *)
Lemma section_pattern_match_parts (pv : option ascii) (rest : list ascii) (st' : mstate) :
  matches SECTION_PATTERN (MState pv rest None) st' ->
  exists kw ws first groups post,
    rest = kw ++ ws ++ dotted first groups ++ post
    /\ m_rest st' = post
    /\ m_grp st' = Some (dotted first groups)
    /\ is_keyword kw
    /\ Forall (fun ch => PyStr.is_space ch = true) ws
    /\ is_digits first /\ Forall is_digits groups
    /\ is_word_opt pv = false /\ is_word_opt (head post) = false.
Proof.
  unfold SECTION_PATTERN. fold keywords.
  inversion 1 as [| |r1 r2 a s1 b Hb1 H1| | | | | |]; subst.
  apply wordb_inv in Hb1 as [-> Hstart].
  inversion H1 as [| |r1 r2 a s2 b Hkw H2| | | | | |]; subst.
  inversion H2 as [| |r1 r2 a s3 b Hsp H3| | | | | |]; subst.
  inversion H3 as [| |r1 r2 a s4 b Hgrp Hb2| | | | | |]; subst.
  apply wordb_inv in Hb2 as [-> Hend].
  apply keywords_reads in Hkw as (kw & Hkw & Hr1 & Hp1 & _).
  apply star_chr_reads in Hsp as (ws & Hws & Hr2 & Hp2 & _).
  apply numeral_group_inv in Hgrp as (first & groups & Hfirst & Hgroups & Hr3 & Hp3 & Hg).
  cbn [m_rest m_prev] in *.
  exists kw, ws, first, groups, (m_rest s4).
  split; [rewrite Hr1, Hr2, Hr3; reflexivity|]. split; [reflexivity|].
  split; [exact Hg|]. split; [exact Hkw|]. split; [exact Hws|].
  split; [exact Hfirst|]. split; [exact Hgroups|].
  unfold at_boundary in *. cbn [m_rest m_prev] in *.
  rewrite Hr1, (keyword_head kw _ Hkw) in Hstart.
  rewrite Hp3, (numeral_end _ first groups Hfirst Hgroups) in Hend.
  split.
  - destruct (is_word_opt pv); [discriminate | reflexivity].
  - destruct (is_word_opt (head (m_rest s4))); [discriminate | reflexivity].
Qed.

Lemma section_pattern_matches_ref (pv : option ascii) (kw ws first : list ascii)
    (groups : list (list ascii)) (post : list ascii) :
  is_keyword kw -> Forall (fun ch => PyStr.is_space ch = true) ws ->
  is_digits first -> Forall is_digits groups ->
  is_word_opt pv = false -> is_word_opt (head post) = false ->
  exists st',
    matches SECTION_PATTERN (MState pv (kw ++ ws ++ dotted first groups ++ post) None) st'
    /\ m_rest st' = post.
Proof.
  intros Hkw Hws Hfirst Hgroups Hbefore Hafter.
  eexists. split.
  - unfold SECTION_PATTERN. fold keywords.
    eapply m_seq.
    { apply m_wordb. unfold at_boundary. cbn [m_prev m_rest].
      rewrite Hbefore, (keyword_head kw _ Hkw). reflexivity. }
    eapply m_seq; [apply keywords_matches, Hkw|].
    eapply m_seq; [apply (star_chr_matches PyStr.is_space), Hws|].
    eapply m_seq.
    { apply m_group. unfold dotted. rewrite <- app_assoc.
      eapply m_seq; [apply digits_plus, Hfirst | apply blocks_star, Hgroups]. }
    apply m_wordb. unfold at_boundary. cbn [m_prev m_rest].
    rewrite <- prev_after_app. fold (dotted first groups).
    rewrite (numeral_end _ first groups Hfirst Hgroups), Hafter. reflexivity.
  - reflexivity.
Qed.

Lemma code_pattern_matches_token_at (pv : option ascii) (first : list ascii)
    (groups : list (list ascii)) (post : list ascii) :
  is_digits first -> groups <> [] -> Forall is_digits groups ->
  is_word_opt pv = false -> is_word_opt (head post) = false ->
  exists st',
    matches CODE_PATTERN (MState pv (dotted first groups ++ post) None) st'
    /\ m_rest st' = post.
Proof.
  intros Hfirst Hne Hgroups Hbefore Hafter.
  unfold dotted. rewrite <- app_assoc.
  eexists. split.
  - unfold CODE_PATTERN.
    eapply m_seq.
    { apply m_wordb. unfold at_boundary. cbn [m_prev m_rest].
      rewrite Hbefore, (digits_start first _ Hfirst). reflexivity. }
    eapply m_seq.
    { apply m_group. eapply m_seq; [apply digits_plus, Hfirst | apply blocks_plus; assumption]. }
    apply m_wordb. unfold at_boundary. cbn [m_prev m_rest].
    rewrite (blocks_end groups _ Hne Hgroups), Hafter. reflexivity.
  - reflexivity.
Qed.

Lemma last_prev (pre : list ascii) :
  is_word_opt (prev_after None pre) = is_word_opt (last pre).
Proof. rewrite prev_after_last. destruct (last pre); reflexivity. Qed.

(** Two readings of the same text from the same place. *)
Lemma same_start {A} (pre pre' rest rest' : list A) :
  pre ++ rest = pre' ++ rest' -> length pre = length pre' ->
  pre = pre' /\ rest = rest'.
Proof. intros Heq Hlen. apply app_inj_1; assumption. Qed.

(** The bare pattern finds the longest token that starts where the
    leftmost token starts. *)
Lemma code_search_first (q : string) (m : rmatch) :
  search CODE_PATTERN q = Some m -> first_token q (group1 m).
Proof.
  unfold search. intros H.
  apply search_from_inv in H as (pre & rest & Hq & Hm & Hmin).
  pose proof Hm as Hhead. unfold match_at in Hhead.
  destruct (run CODE_PATTERN (MState (prev_after None pre) rest None))
    as [|st' sts] eqn:Hrun; [discriminate|].
  injection Hhead as <-.
  assert (Hmatch : matches CODE_PATTERN (MState (prev_after None pre) rest None) st')
    by (apply run_sound; rewrite Hrun; left; reflexivity).
  apply code_pattern_match_inv in Hmatch
    as (first & groups & post & Hrest & Hpost & Hgrp & Hfirst & Hne & Hgroups & Hb & Ha).
  cbn [group1]. rewrite Hgrp. cbn [default from_option id].
  exists (length pre). split; [|split].
  - exists pre, first, groups, post.
    split; [rewrite Hq, Hrest; reflexivity|]. split; [reflexivity|].
    split; [reflexivity|].
    split; [exact Hfirst|]. split; [exact Hne|]. split; [exact Hgroups|].
    split; [|exact Ha]. rewrite <- last_prev. exact Hb.
  - intros tok' n' Htok'.
    destruct (Nat.le_gt_cases (length pre) n') as [Hle | Hgt]; [exact Hle|].
    exfalso.
    destruct (code_match_at_token q tok' n' Htok') as (pre1 & rest1 & Hq1 & Hn1 & [m1 Hm1]).
    rewrite (Hmin pre1 rest1) in Hm1; [discriminate | congruence | lia].
  - intros tok'
      (pre' & first' & groups' & post' & Hq' & Hn' & -> & Hfirst' & Hne' & Hgroups' & Hb' & Ha').
    rewrite Hq in Hq'. apply same_start in Hq' as [<- Hrest']; [|congruence].
    destruct (code_pattern_matches_token_at (prev_after None pre) first' groups' post')
      as (st'' & Hst'' & Hpost''); try assumption;
      try (rewrite last_prev; exact Hb').
    rewrite <- Hrest' in Hst''.
    assert (Hle : (rlen st' <= rlen st'')%nat).
    { apply (asc_head st' st'' sts).
      - rewrite <- Hrun. apply code_run_asc.
      - rewrite <- Hrun. apply run_complete, Hst''. }
    unfold rlen in Hle. rewrite Hpost, Hpost'' in Hle.
    rewrite !str_length.
    apply (f_equal (@length ascii)) in Hrest, Hrest'.
    rewrite length_app in Hrest, Hrest'. lia.
Qed.

Lemma spaces_then_digit (ws ws' x x' : list ascii) :
  Forall (fun ch => PyStr.is_space ch = true) ws ->
  Forall (fun ch => PyStr.is_space ch = true) ws' ->
  is_word_opt (head x) = true -> is_word_opt (head x') = true ->
  ws ++ x = ws' ++ x' -> ws = ws' /\ x = x'.
Proof.
  intros Hws. revert ws'. induction Hws as [|c ws Hc _ IH]; intros ws' Hws' Hx Hx' Heq.
  - destruct Hws' as [|c' ws' Hc' _]; [auto|].
    cbn [app] in Heq. subst x. cbn in Hx.
    exfalso. revert Hc' Hx. clear.
    destruct c' as [[|] [|] [|] [|] [|] [|] [|] [|]]; vm_compute; intros; congruence.
  - destruct Hws' as [|c' ws' Hc' Hws'].
    + cbn [app] in Heq. subst x'. cbn in Hx'.
      exfalso. revert Hc Hx'. clear.
      destruct c as [[|] [|] [|] [|] [|] [|] [|] [|]]; vm_compute; intros; congruence.
    + cbn [app] in Heq. injection Heq as <- Heq.
      destruct (IH ws' Hws' Hx Hx' Heq) as [-> ->]. auto.
Qed.

Lemma keyword_prefix_unique (kw kw' x x' : list ascii) :
  is_keyword kw -> is_keyword kw' -> kw ++ x = kw' ++ x' -> kw = kw' /\ x = x'.
Proof.
  intros Hkw Hkw' Heq.
  assert (Hlen : length kw = length kw').
  { destruct Hkw as [H | [H | H]], Hkw' as [H' | [H' | H']];
      try (apply (f_equal (@length ascii)) in H, H'; rewrite length_map in H, H';
           cbn in H, H'; congruence);
      exfalso; destruct kw as [|a t], kw' as [|a' t']; try discriminate;
      cbn [app map] in *; injection Heq as <- _;
      injection H as Ha _; injection H' as Ha' _; congruence. }
  apply app_inj_1; assumption.
Qed.

(** The labelled pattern finds the longest numeral of the leftmost
    section reference. *)
Lemma section_search_first (q : string) (m : rmatch) :
  search SECTION_PATTERN q = Some m -> first_section_ref q (group1 m).
Proof.
  unfold search. intros H.
  apply search_from_inv in H as (pre & rest & Hq & Hm & Hmin).
  pose proof Hm as Hhead. unfold match_at in Hhead.
  destruct (run SECTION_PATTERN (MState (prev_after None pre) rest None))
    as [|st' sts] eqn:Hrun; [discriminate|].
  injection Hhead as <-.
  assert (Hmatch : matches SECTION_PATTERN (MState (prev_after None pre) rest None) st')
    by (apply run_sound; rewrite Hrun; left; reflexivity).
  apply section_pattern_match_parts in Hmatch
    as (kw & ws & first & groups & post & Hrest & Hpost & Hgrp & Hkw & Hws
        & Hfirst & Hgroups & Hb & Ha).
  cbn [group1]. rewrite Hgrp. cbn [default from_option id].
  exists (length pre). split; [|split].
  - exists pre, kw, ws, first, groups, post.
    split; [rewrite Hq, Hrest; reflexivity|]. split; [reflexivity|].
    split; [exact Hkw|]. split; [exact Hws|]. split; [reflexivity|].
    split; [exact Hfirst|]. split; [exact Hgroups|].
    split; [|exact Ha]. rewrite <- last_prev. exact Hb.
  - intros c' n'
      (pre' & kw' & ws' & first' & groups' & post' & Hq' & Hn' & Hkw' & Hws' & _
       & Hfirst' & Hgroups' & Hb' & Ha').
    destruct (Nat.le_gt_cases (length pre) n') as [Hle | Hgt]; [exact Hle|].
    exfalso.
    destruct (section_pattern_matches_ref (prev_after None pre') kw' ws' first' groups' post')
      as (st'' & Hst'' & _); try assumption;
      try (rewrite last_prev; exact Hb').
    apply match_at_some in Hst'' as [m1 Hm1].
    rewrite (Hmin pre' _) in Hm1; [discriminate | congruence | lia].
  - intros c'
      (pre' & kw' & ws' & first' & groups' & post' & Hq' & Hn' & Hkw' & Hws' & ->
       & Hfirst' & Hgroups' & Hb' & Ha').
    rewrite Hq in Hq'. apply same_start in Hq' as [<- Hrest']; [|congruence].
    destruct (section_pattern_matches_ref (prev_after None pre) kw' ws' first' groups' post')
      as (st'' & Hst'' & Hpost''); try assumption;
      try (rewrite last_prev; exact Hb').
    rewrite <- Hrest' in Hst''.
    assert (Hle : (rlen st' <= rlen st'')%nat).
    { apply (asc_head st' st'' sts).
      - rewrite <- Hrun. apply section_run_asc.
      - rewrite <- Hrun. apply run_complete, Hst''. }
    unfold rlen in Hle. rewrite Hpost, Hpost'' in Hle.
    rewrite Hrest in Hrest'.
    apply keyword_prefix_unique in Hrest' as [<- Hrest']; [|assumption..].
    apply spaces_then_digit in Hrest' as [<- Hrest']; try assumption;
      try (unfold dotted; rewrite <- app_assoc; apply digits_start; assumption).
    rewrite !str_length.
    apply (f_equal (@length ascii)) in Hrest'.
    rewrite !length_app in Hrest'. lia.
Qed.

Lemma section_search_none (q : string) :
  search SECTION_PATTERN q = None -> forall c n, ~ section_ref_at q c n.
Proof.
  intros Hnone c n
    (pre & kw & ws & first & groups & post & Hq & _ & Hkw & Hws & _
     & Hfirst & Hgroups & Hb & Ha).
  destruct (section_pattern_matches_ref (prev_after None pre) kw ws first groups post)
    as (st' & Hst' & _); try assumption.
  { rewrite last_prev. exact Hb. }
  apply match_at_some in Hst'.
  assert (Hsome : is_Some (search SECTION_PATTERN q)).
  { unfold search. rewrite Hq. apply search_from_finds, Hst'. }
  rewrite Hnone in Hsome. destruct Hsome as [? [=]].
Qed.

Lemma str_inj (a b : list ascii) : PyStr.str a = PyStr.str b -> a = b.
Proof.
  intros H. apply (f_equal PyStr.chars) in H. rewrite !chars_str in H. exact H.
Qed.

Lemma first_token_unique (q c c' : string) :
  first_token q c -> first_token q c' -> c = c'.
Proof.
  intros (n & Htok & Hleft & Hlong) (n' & Htok' & Hleft' & Hlong').
  assert (Hn : n = n').
  { pose proof (Hleft _ _ Htok'). pose proof (Hleft' _ _ Htok). lia. }
  subst n'.
  pose proof (Hlong _ Htok') as H1. pose proof (Hlong' _ Htok) as H2.
  destruct Htok as (pre & first & groups & post & Hq & Hlen & -> & _).
  destruct Htok' as (pre' & first' & groups' & post' & Hq' & Hlen' & -> & _).
  rewrite !str_length in H1, H2.
  rewrite Hq in Hq'. apply same_start in Hq' as [_ Hrest]; [|congruence].
  apply app_inj_1 in Hrest as [-> _]; [reflexivity | lia].
Qed.

Lemma first_section_ref_unique (q c c' : string) :
  first_section_ref q c -> first_section_ref q c' -> c = c'.
Proof.
  intros (n & Href & Hleft & Hlong) (n' & Href' & Hleft' & Hlong').
  assert (Hn : n = n').
  { pose proof (Hleft _ _ Href'). pose proof (Hleft' _ _ Href). lia. }
  subst n'.
  pose proof (Hlong _ Href') as H1. pose proof (Hlong' _ Href) as H2.
  destruct Href as (pre & kw & ws & first & groups & post & Hq & Hlen & Hkw & Hws & ->
                    & Hfirst & _).
  destruct Href' as (pre' & kw' & ws' & first' & groups' & post' & Hq' & Hlen' & Hkw' & Hws'
                     & -> & Hfirst' & _).
  rewrite !str_length in H1, H2.
  rewrite Hq in Hq'. apply same_start in Hq' as [_ Hrest]; [|congruence].
  apply keyword_prefix_unique in Hrest as [_ Hrest]; [|assumption..].
  apply spaces_then_digit in Hrest as [_ Hrest]; try assumption;
    try (unfold dotted; rewrite <- app_assoc; apply digits_start; assumption).
  apply app_inj_1 in Hrest as [-> _]; [reflexivity | lia].
Qed.

(** The declared code of a query is unique. *)
Lemma first_code_unique (q c c' : string) :
  first_code q c -> first_code q c' -> c = c'.
Proof.
  intros [H | [Hnone H]] [H' | [Hnone' H']].
  - eapply first_section_ref_unique; eauto.
  - destruct H as (n & Href & _). destruct (Hnone' _ _ Href).
  - destruct H' as (n & Href & _). destruct (Hnone _ _ Href).
  - eapply first_token_unique; eauto.
Qed.

Lemma detect_code_first (q tok : string) :
  contains_token q tok ->
  exists c, detected (_detect_code q) = Some c /\ first_code q c.
Proof.
  intros Htok. unfold _detect_code.
  destruct (search SECTION_PATTERN q) as [m|] eqn:Hs.
  - exists (group1 m). cbn [detected].
    rewrite truthy_nonempty.
    + split; [reflexivity|]. left. apply section_search_first, Hs.
    + eapply (search_group1 SECTION_PATTERN); [reflexivity | exact Hs].
  - destruct (code_search_finds_token q tok Htok) as [m Hm]. rewrite Hm.
    exists (group1 m). cbn [detected].
    rewrite truthy_nonempty.
    + split; [reflexivity|]. right.
      split; [apply section_search_none, Hs | apply code_search_first, Hm].
    + eapply (search_group1 CODE_PATTERN); [reflexivity | exact Hm].
Qed.

End FirstFacts.

(** The scenario of the specification. *)
Example route_section_query :
  routed (Fixture.asks "What does section 5.1.2 say?") CODE (Some "5.1.2").
Proof.
  split; [vm_compute; reflexivity|].
  eexists. split; [vm_compute; reflexivity|]. split; reflexivity.
Qed.

(** Digits and dots glued to a letter are no token: no word boundary. *)
Example route_glued_digits :
  query_type (Router.route_query (Fixture.asks "x5.1")) = Some VECTOR.
Proof. vm_compute. reflexivity. Qed.

(** A date is a dotted numeral too, and the code patterns come first. *)
Example route_date :
  routed (Fixture.asks "decisions of 01.02.2024") CODE (Some "01.02.2024").
Proof.
  split; [vm_compute; reflexivity|].
  eexists. split; [vm_compute; reflexivity|]. split; reflexivity.
Qed.

Example route_gazette :
  routed (Fixture.asks "R.G. 62 on tuition") METADATA None
  /\ (router_result (Router.route_query (Fixture.asks "R.G. 62 on tuition"))
      ≫= extracted_metadata) = Some "R.G. R.G. 62".
Proof.
  split; [split; [vm_compute; reflexivity|]|vm_compute; reflexivity].
  eexists. split; [vm_compute; reflexivity|]. split; reflexivity.
Qed.

(** The declared code is the whole numeral, not a shorter token that
    stands inside it. *)
Example first_code_whole_numeral :
  first_code "5.1.2 applies" "5.1.2" /\ ~ first_code "5.1.2 applies" "5.1".
Proof.
  assert (Htok : contains_token "5.1.2 applies" "5.1.2").
  { exists 0%nat, [], ["5"%char], [["1"%char]; ["2"%char]], (PyStr.chars " applies").
    repeat split; try discriminate; repeat constructor; discriminate. }
  destruct (detect_code_first _ _ Htok) as (c & Hc & Hfirst).
  vm_compute in Hc. injection Hc as <-.
  split; [exact Hfirst|].
  intros H. pose proof (first_code_unique _ _ _ H Hfirst). discriminate.
Qed.

(** A numeral glued to a letter is cut back to the last block that ends at
    a word boundary. *)
Example first_code_backtracks :
  first_code "see section 5.1a" "5"
  /\ Router._detect_code "see section 5.1a" = Some "5".
Proof.
  split; [|vm_compute; reflexivity].
  left.
  apply (section_search_first "see section 5.1a" (Re.RMatch "section 5" "5")).
  vm_compute. reflexivity.
Qed.

(** C4, as stated, fails: a query with two dotted-numeric tokens is
    routed to CODE with the first of them, so the extracted code is not
    equal to the second token although the query contains it. *)
Lemma C4_second_token_not_extracted :
  ~ (forall (st : state) (q tok : string),
        query st = Some q -> contains_token q tok ->
        routed st CODE
          (Some (match Re.search Router.SECTION_PATTERN q with
                 | Some m => Re.group1 m
                 | None => tok
                 end))).
Proof.
  intros H.
  destruct (H (Fixture.asks "compare 5.1 and 6.2") "compare 5.1 and 6.2" "6.2"
              eq_refl two_tokens) as (_ & r & Hr & _ & Hcode).
  vm_compute in Hr. injection Hr as <-. vm_compute in Hcode. discriminate.
Qed.

(** C4, amended: every query that contains a dotted-numeric token between
    word boundaries is classified CODE, and the extracted code is the one
    code the query determines: when the query holds a section reference
    (one of the keywords in any letter case after a word boundary, white
    space or none, a dotted numeral ending at a word boundary), the longest
    numeral of the leftmost reference; otherwise the longest token that
    starts where the leftmost token starts.  With several tokens only that
    one is extracted. *)
Theorem C4_token_routes_to_code (st : state) (q tok : string) :
  query st = Some q ->
  contains_token q tok ->
  exists c,
    routed st CODE (Some c)
    /\ first_code q c
    /\ forall c', first_code q c' -> c' = c.
Proof.
  intros Hq Htok.
  destruct (detect_code_first q tok Htok) as (c & Hc & Hfirst).
  exists c. split; [|split; [exact Hfirst|]].
  - apply route_query_code. unfold get. rewrite Hq. exact Hc.
  - intros c' Hc'. apply (first_code_unique q c' c Hc' Hfirst).
Qed.

Lemma C4_witness :
  exists c,
    routed (Fixture.asks "What does section 5.1.2 say?") CODE (Some c)
    /\ first_code "What does section 5.1.2 say?" c
    /\ forall c', first_code "What does section 5.1.2 say?" c' -> c' = c.
Proof.
  apply (C4_token_routes_to_code (Fixture.asks "What does section 5.1.2 say?")
           "What does section 5.1.2 say?" "5.1.2").
  - reflexivity.
  - exact section_token.
Defined.

(** * Further properties of the code *)

(** ** Router *)

Section RouterMore.
Import Re Router.

Lemma matches_suffix (r : regex) (st st' : mstate) :
  matches r st st' -> exists l, m_rest st = l ++ m_rest st'.
Proof.
  induction 1 as [st | p pv c rest g Hp | r1 r2 st st' st'' _ [l1 IH1] _ [l2 IH2]
                  | r1 r2 st st' _ IH | r1 r2 st st' _ IH
                  | r st | r st st' st'' _ [l1 IH1] _ _ [l2 IH2]
                  | st Hb | r st st' _ IH].
  - exists []. reflexivity.
  - exists [c]. reflexivity.
  - exists (l1 ++ l2). rewrite IH1, IH2, app_assoc. reflexivity.
  - exact IH.
  - exact IH.
  - exists []. reflexivity.
  - exists (l1 ++ l2). rewrite IH1, IH2, app_assoc. reflexivity.
  - exists []. reflexivity.
  - exact IH.
Qed.

Lemma match_at_inv (r : regex) (pv : option ascii) (rest : list ascii) (m : rmatch) :
  match_at r pv rest = Some m ->
  exists st',
    matches r (MState pv rest None) st'
    /\ group0 m = PyStr.str (consumed (MState pv rest None) st')
    /\ group1 m = PyStr.str (default [] (m_grp st')).
Proof.
  unfold match_at.
  destruct (run r (MState pv rest None)) as [|st' sts] eqn:Hrun; [discriminate|].
  intros [= <-]. exists st'. split; [|split; reflexivity].
  apply run_sound. rewrite Hrun. left. reflexivity.
Qed.

Lemma search_inv (r : regex) (q : string) (m : rmatch) :
  search r q = Some m ->
  exists pre rest st',
    PyStr.chars q = pre ++ rest
    /\ matches r (MState (prev_after None pre) rest None) st'
    /\ group0 m = PyStr.str (consumed (MState (prev_after None pre) rest None) st')
    /\ group1 m = PyStr.str (default [] (m_grp st')).
Proof.
  unfold search. intros H.
  apply search_from_inv in H as (pre & rest & Hq & Hm & _).
  apply match_at_inv in Hm as (st' & Hst' & H0 & H1).
  exists pre, rest, st'. auto.
Qed.

(** What group 1 of a match holds when the group is digits followed by
    any number of dot-digits blocks. *)
Lemma code_group_inv (st st' : mstate) :
  matches (Group (Seq (Plus digit) (Star (Seq dot (Plus digit))))) st st' ->
  exists first groups,
    is_digits first /\ Forall is_digits groups
    /\ m_rest st = dotted first groups ++ m_rest st'
    /\ m_grp st' = Some (dotted first groups).
Proof.
  inversion 1 as [| | | | | | | |r a s Hbody]; subst.
  inversion Hbody as [| |r1 r2 a s1 b Hfirst Hblocks| | | | | |]; subst.
  apply digits_plus_reads in Hfirst as (first & Hfirst & Hr1).
  apply blocks_star_reads in Hblocks as (groups & Hgroups & Hr2).
  pose proof (reads_app _ _ _ _ _ Hr1 Hr2) as (Hall & _ & _).
  exists first, groups. cbn [m_rest m_grp]. unfold dotted.
  split; [exact Hfirst|]. split; [exact Hgroups|]. split; [exact Hall|].
  f_equal. apply consumed_reads, Hall.
Qed.

Lemma section_pattern_match_inv (pv : option ascii) (rest : list ascii) (st' : mstate) :
  matches SECTION_PATTERN (MState pv rest None) st' ->
  exists first groups l0 post,
    rest = l0 ++ dotted first groups ++ post
    /\ m_grp st' = Some (dotted first groups)
    /\ is_digits first /\ Forall is_digits groups.
Proof.
  unfold SECTION_PATTERN.
  inversion 1 as [| |r1 r2 a s1 b Hb1 H1| | | | | |]; subst.
  apply wordb_inv in Hb1 as [-> _].
  inversion H1 as [| |r1 r2 a s2 b Hkw H2| | | | | |]; subst.
  inversion H2 as [| |r1 r2 a s3 b Hsp H3| | | | | |]; subst.
  inversion H3 as [| |r1 r2 a s4 b Hgrp Hb2| | | | | |]; subst.
  apply wordb_inv in Hb2 as [-> _].
  apply matches_suffix in Hkw as [l1 Hl1]. apply matches_suffix in Hsp as [l2 Hl2].
  apply code_group_inv in Hgrp as (first & groups & Hfirst & Hgroups & Hrest & Hgrp).
  cbn [m_rest] in *.
  exists first, groups, (l1 ++ l2), (m_rest s4).
  split; [rewrite Hl1, Hl2, Hrest, <- app_assoc; reflexivity|]. auto.
Qed.

Lemma detect_code_shape (q c : string) :
  _detect_code q = Some c -> code_shaped c /\ substring_of c q.
Proof.
  unfold _detect_code.
  destruct (search SECTION_PATTERN q) as [m|] eqn:Hs.
  - intros [= <-].
    apply search_inv in Hs as (pre & rest & st' & Hq & Hm & _ & H1).
    apply section_pattern_match_inv in Hm
      as (first & groups & l0 & post & Hrest & Hgrp & Hfirst & Hgroups).
    rewrite Hgrp in H1. cbn [default] in H1. split.
    + exists first, groups. rewrite H1, chars_str. auto.
    + exists (pre ++ l0), post. rewrite H1, chars_str, Hq, Hrest, <- app_assoc. reflexivity.
  - destruct (search CODE_PATTERN q) as [m|] eqn:Hc; [|discriminate].
    intros [= <-].
    apply search_inv in Hc as (pre & rest & st' & Hq & Hm & _ & H1).
    apply code_pattern_match_inv in Hm
      as (first & groups & post & Hrest & _ & Hgrp & Hfirst & _ & Hgroups & _).
    rewrite Hgrp in H1. cbn [default] in H1. split.
    + exists first, groups. rewrite H1, chars_str. auto.
    + exists pre, post. rewrite H1, chars_str, Hq, Hrest. reflexivity.
Qed.

Lemma detected_inv (o : option string) (c : string) :
  detected o = Some c -> o = Some c /\ c <> "".
Proof.
  destruct o as [s|]; [|discriminate]. cbn.
  destruct (truthy s) eqn:E; [|discriminate]. intros [= <-]. split; [reflexivity|].
  unfold truthy in E. apply negb_true_iff, String.eqb_neq in E. exact E.
Qed.

(** The three shapes of the routing decision. *)
Lemma route_query_cases (st : state) :
  let q := get query st "" in
  (exists c, detected (_detect_code q) = Some c
             /\ query_type (route_query st) = Some CODE
             /\ router_result (route_query st)
                = Some (mkRouterResult CODE (Some c) None
                          ("Detected regulation code pattern: " +:+ c)))
  \/ (exists m, detected (_detect_code q) = None
                /\ detected (_detect_metadata q) = Some m
                /\ query_type (route_query st) = Some METADATA
                /\ router_result (route_query st)
                   = Some (mkRouterResult METADATA None (Some m)
                             ("Detected metadata pattern: " +:+ m)))
  \/ (detected (_detect_code q) = None /\ detected (_detect_metadata q) = None
      /\ query_type (route_query st) = Some VECTOR
      /\ router_result (route_query st)
         = Some (mkRouterResult VECTOR None None
                   "Natural language query - using semantic search")).
Proof.
  intros q. unfold route_query. cbv zeta. fold q.
  destruct (detected (_detect_code q)) as [c|] eqn:Hc.
  - left. exists c. auto.
  - destruct (detected (_detect_metadata q)) as [m|] eqn:Hm.
    + right. left. exists m. auto.
    + right. right. auto.
Qed.

Lemma dotted_chars (first : list ascii) (groups : list (list ascii)) :
  is_digits first -> Forall is_digits groups ->
  Forall digit_or_dot (dotted first groups).
Proof.
  intros [_ Hfirst] Hgroups. unfold dotted. apply Forall_app. split.
  - eapply Forall_impl; [exact Hfirst|]. intros ch H. left. exact H.
  - induction Hgroups as [|ds groups [_ Hds] _ IH]; cbn [flat_map]; [constructor|].
    constructor; [right; reflexivity|]. apply Forall_app. split; [|exact IH].
    eapply Forall_impl; [exact Hds|]. intros ch H. left. exact H.
Qed.

End RouterMore.

(** X1. Whenever the router extracts a regulation code, the result is of
    type CODE and the code is a non-empty piece of the query made of runs
    of digits separated by single dots: it contains digits and dots only. *)
Theorem route_code_is_digits_and_dots (st : state) (r : RouterResult) (c : string) :
  router_result (Router.route_query st) = Some r ->
  extracted_code r = Some c ->
  rr_query_type r = CODE
  /\ c <> ""
  /\ code_shaped c
  /\ Forall digit_or_dot (PyStr.chars c)
  /\ substring_of c (get query st "").
Proof.
  intros Hr Hc.
  destruct (route_query_cases st) as [(c' & Hd & _ & Hr') | [(m & _ & _ & _ & Hr') | (_ & _ & _ & Hr')]];
    rewrite Hr' in Hr; injection Hr as <-; cbn in Hc; try discriminate.
  injection Hc as ->.
  apply detected_inv in Hd as [Hd Hne].
  apply detect_code_shape in Hd as [Hshape Hsub].
  split; [reflexivity|]. split; [exact Hne|]. split; [exact Hshape|]. split; [|exact Hsub].
  destruct Hshape as (first & groups & -> & Hfirst & Hgroups).
  apply dotted_chars; assumption.
Qed.

Lemma route_code_is_digits_and_dots_witness :
  let r := mkRouterResult CODE (Some "5.1.2") None "Detected regulation code pattern: 5.1.2" in
  rr_query_type r = CODE
  /\ "5.1.2" <> ""
  /\ code_shaped "5.1.2"
  /\ Forall digit_or_dot (PyStr.chars "5.1.2")
  /\ substring_of "5.1.2" (get query (Fixture.asks "What does section 5.1.2 say?") "").
Proof.
  intros r.
  apply (route_code_is_digits_and_dots (Fixture.asks "What does section 5.1.2 say?") r "5.1.2").
  - vm_compute. reflexivity.
  - reflexivity.
Defined.

(** X2. A query with no digit in it is never routed to CODE: it is
    classified METADATA or VECTOR and no code is extracted. *)
Theorem route_without_digit_is_not_code (st : state) :
  Forall (fun ch => PyStr.is_digit ch = false) (PyStr.chars (get query st "")) ->
  (query_type (Router.route_query st) = Some METADATA
   \/ query_type (Router.route_query st) = Some VECTOR)
  /\ exists r, router_result (Router.route_query st) = Some r /\ extracted_code r = None.
Proof.
  intros Hnone.
  destruct (route_query_cases st)
    as [(c & Hd & _ & _) | [(m & _ & _ & Hq & Hr) | (_ & _ & Hq & Hr)]];
    [exfalso | split; [left; exact Hq | eexists; split; [exact Hr | reflexivity]]
     | split; [right; exact Hq | eexists; split; [exact Hr | reflexivity]]].
  apply detected_inv in Hd as [Hd _].
  apply detect_code_shape in Hd as [(first & groups & Hc & [Hne Hfirst] & _) (pre & post & Hsub)].
  rewrite Hsub, Hc in Hnone. unfold dotted in Hnone.
  apply Forall_app in Hnone as [_ Hnone]. apply Forall_app in Hnone as [Hnone _].
  apply Forall_app in Hnone as [Hnone _].
  destruct Hfirst as [|d ds Hd' _]; [congruence|].
  apply Forall_cons in Hnone as [Hfalse _]. congruence.
Qed.

Lemma route_without_digit_is_not_code_witness :
  (query_type (Router.route_query (Fixture.asks "how do I register")) = Some METADATA
   \/ query_type (Router.route_query (Fixture.asks "how do I register")) = Some VECTOR)
  /\ exists r, router_result (Router.route_query (Fixture.asks "how do I register")) = Some r
               /\ extracted_code r = None.
Proof.
  apply (route_without_digit_is_not_code (Fixture.asks "how do I register")).
  vm_compute. repeat constructor.
Defined.

Section DateFacts.
Import Re Router.

Lemma times_digit_reads (n : nat) (st st' : mstate) :
  matches (Times n digit) st st' ->
  exists ds, length ds = n /\ Forall (fun c => PyStr.is_digit c = true) ds /\ reads ds st st'.
Proof.
  revert st. induction n as [|n IH]; intros st H; cbn [Times] in H.
  - inversion H; subst. exists []. repeat split. constructor.
  - inversion H as [| |r1 r2 a mid b Hd Hrest| | | | | |]; subst.
    apply chr_reads in Hd as (c & Hc & Hc_reads).
    apply IH in Hrest as (ds & Hlen & Hds & Hreads).
    exists ([c] ++ ds). split; [cbn; lia|]. split; [constructor; assumption|].
    eapply reads_app; eauto.
Qed.

Lemma dot_reads (st st' : mstate) :
  matches dot st st' -> reads ["."%char] st st'.
Proof.
  intros H. apply chr_reads in H as (c & Hc & Hreads).
  apply Ascii.eqb_eq in Hc as <-. exact Hreads.
Qed.

Lemma digits_of_length (n : nat) (ds : list ascii) :
  length ds = S n -> Forall (fun c => PyStr.is_digit c = true) ds -> is_digits ds.
Proof. intros Hlen H. split; [|exact H]. destruct ds; [discriminate | discriminate]. Qed.

(** A match of [DATE_PATTERN] is a dotted numeral between two word
    boundaries. *)
Lemma date_pattern_match_inv (pv : option ascii) (rest : list ascii) (st' : mstate) :
  matches DATE_PATTERN (MState pv rest None) st' ->
  exists first groups post,
    rest = dotted first groups ++ post
    /\ is_digits first /\ groups <> [] /\ Forall is_digits groups
    /\ is_word_opt pv = false /\ is_word_opt (head post) = false.
Proof.
  unfold DATE_PATTERN.
  inversion 1 as [| |r1 r2 a s1 b Hb1 H1| | | | | |]; subst.
  apply wordb_inv in Hb1 as [-> Hstart].
  inversion H1 as [| |r1 r2 a s2 b Hd1 H2| | | | | |]; subst.
  inversion H2 as [| |r1 r2 a s3 b Hp1 H3| | | | | |]; subst.
  inversion H3 as [| |r1 r2 a s4 b Hd2 H4| | | | | |]; subst.
  inversion H4 as [| |r1 r2 a s5 b Hp2 H5| | | | | |]; subst.
  inversion H5 as [| |r1 r2 a s6 b Hd3 Hb2| | | | | |]; subst.
  apply wordb_inv in Hb2 as [-> Hend].
  apply (times_digit_reads 2) in Hd1 as (d1 & Hl1 & Hds1 & Hr1).
  apply (times_digit_reads 2) in Hd2 as (d2 & Hl2 & Hds2 & Hr2).
  apply (times_digit_reads 4) in Hd3 as (d3 & Hl3 & Hds3 & Hr3).
  apply dot_reads in Hp1, Hp2.
  pose proof (digits_of_length _ _ Hl1 Hds1) as Hfirst.
  pose proof (digits_of_length _ _ Hl2 Hds2) as Hsecond.
  pose proof (digits_of_length _ _ Hl3 Hds3) as Hthird.
  pose proof (reads_app _ _ _ _ _ Hp1 Hr2) as Hblock1.
  pose proof (reads_app _ _ _ _ _ Hp2 Hr3) as Hblock2.
  pose proof (reads_app _ _ _ _ _ Hblock1 Hblock2) as Hblocks.
  pose proof (reads_app _ _ _ _ _ Hr1 Hblocks) as (Hall & Hprev & _).
  cbn [m_rest m_prev] in *.
  assert (Hgroups : Forall is_digits [d2; d3])
    by (constructor; [exact Hsecond | constructor; [exact Hthird | constructor]]).
  exists d1, [d2; d3], (m_rest s6).
  assert (Hshape : d1 ++ (["."%char] ++ d2) ++ ["."%char] ++ d3 = dotted d1 [d2; d3]).
  { unfold dotted. cbn [flat_map app]. rewrite app_nil_r. reflexivity. }
  rewrite Hshape in Hall, Hprev.
  split; [exact Hall|]. split; [exact Hfirst|]. split; [discriminate|].
  split; [exact Hgroups|].
  unfold at_boundary in *. cbn [m_prev m_rest] in *.
  rewrite Hall in Hstart. unfold dotted in Hstart. rewrite <- app_assoc in Hstart.
  rewrite (digits_start d1 _ Hfirst) in Hstart.
  rewrite Hprev in Hend. unfold dotted in Hend. rewrite prev_after_app in Hend.
  rewrite (blocks_end [d2; d3] _ ltac:(discriminate) Hgroups) in Hend.
  split.
  - destruct (is_word_opt pv); [discriminate | reflexivity].
  - destruct (is_word_opt (head (m_rest s6))); [discriminate | reflexivity].
Qed.

Lemma date_is_token (q : string) :
  is_Some (search DATE_PATTERN q) -> exists tok, contains_token q tok.
Proof.
  intros [m Hm].
  apply search_inv in Hm as (pre & rest & st' & Hq & Hmatch & _).
  apply date_pattern_match_inv in Hmatch
    as (first & groups & post & Hrest & Hfirst & Hne & Hgroups & Hb & Ha).
  exists (PyStr.str (dotted first groups)), (length pre), pre, first, groups, post.
  split; [rewrite Hq, Hrest; reflexivity|]. split; [reflexivity|]. split; [reflexivity|].
  split; [exact Hfirst|]. split; [exact Hne|]. split; [exact Hgroups|].
  split; [|exact Ha].
  rewrite prev_after_last in Hb. destruct (last pre); [exact Hb | reflexivity].
Qed.

Lemma first_match_date_inv (q x : string) :
  _detect_metadata q = Some ("date " +:+ x) -> is_Some (search DATE_PATTERN q).
Proof.
  unfold _detect_metadata. cbn [first_match].
  destruct (search RG_PATTERN q); [discriminate|].
  destruct (search AE_PATTERN q); [discriminate|].
  destruct (search EK_PATTERN q); [discriminate|].
  destruct (search DATE_PATTERN q); [eauto | discriminate].
Qed.

End DateFacts.

(** X3. A query on which the date pattern (two digits, dot, two digits,
    dot, four digits) matches is routed to CODE, because the date is also
    a dotted number; hence the router never reports a metadata text with
    the label [date]: the fourth entry of the pattern list of
    [_detect_metadata] is never reached with a match. *)
Theorem date_routes_to_code (st : state) :
  (is_Some (Re.search Router.DATE_PATTERN (get query st "")) ->
   query_type (Router.route_query st) = Some CODE)
  /\ forall (r : RouterResult) (x : string),
       router_result (Router.route_query st) = Some r ->
       extracted_metadata r <> Some ("date " +:+ x).
Proof.
  assert (Hdate : is_Some (Re.search Router.DATE_PATTERN (get query st "")) ->
                  query_type (Router.route_query st) = Some CODE).
  { intros Hm. destruct (date_is_token _ Hm) as [tok Htok].
    destruct (detect_code_first _ tok Htok) as (c & Hc & _).
    apply (route_query_code st c Hc). }
  split; [exact Hdate|].
  intros r x Hr Hmeta.
  destruct (route_query_cases st)
    as [(c & _ & _ & Hr') | [(m & _ & Hd & Hq & Hr') | (_ & _ & _ & Hr')]];
    rewrite Hr' in Hr; injection Hr as <-; cbn in Hmeta; try discriminate.
  injection Hmeta as ->.
  apply detected_inv in Hd as [Hd _].
  apply first_match_date_inv in Hd. rewrite (Hdate Hd) in Hq. discriminate.
Qed.

Lemma date_routes_to_code_witness :
  query_type (Router.route_query (Fixture.asks "decisions of 01.02.2024")) = Some CODE.
Proof.
  apply (proj1 (date_routes_to_code (Fixture.asks "decisions of 01.02.2024"))).
  vm_compute. eexists. reflexivity.
Defined.

Section HistoryFacts.
Import Router.

Lemma route_query_history (st : state) :
  let q := get query st "" in
  let history := get query_history st [] in
  query_history (route_query st)
  = Some (if truthy q && negb (bool_decide (q ∈ history)) then history ++ [q] else history)
  /\ query (route_query st) = Some q.
Proof.
  intros q history. unfold route_query. cbv zeta. fold q. fold history.
  destruct (detected (_detect_code q)); [split; reflexivity|].
  destruct (detected (_detect_metadata q)); split; reflexivity.
Qed.

End HistoryFacts.

(** X4. [route_query] returns the query unchanged and a history that is
    the old one, or the old one with the query appended when the query is
    non-empty and not yet in it: a non-empty query is in the returned
    history, and a history without repetitions stays without repetitions. *)
Theorem route_query_history_grows (st : state) :
  let q := get query st "" in
  let history := get query_history st [] in
  exists history',
    query_history (Router.route_query st) = Some history'
    /\ query (Router.route_query st) = Some q
    /\ (history' = history \/ (history' = history ++ [q] /\ q ∉ history))
    /\ (q <> "" -> q ∈ history')
    /\ (NoDup history -> NoDup history').
Proof.
  intros q history.
  destruct (route_query_history st) as [Hh Hq]. fold q history in Hh, Hq.
  eexists. split; [exact Hh|]. split; [exact Hq|].
  destruct (truthy q) eqn:Ht; cbn [andb].
  - destruct (bool_decide (q ∈ history)) eqn:Hin; cbn [negb].
    + apply bool_decide_eq_true in Hin. auto.
    + apply bool_decide_eq_false in Hin.
      split; [right; auto|]. split.
      * intros _. apply elem_of_app. right. apply list_elem_of_singleton. reflexivity.
      * intros Hnd. apply NoDup_app. split; [exact Hnd|]. split.
        -- intros x Hx Hx'. apply list_elem_of_singleton in Hx'. subst x. contradiction.
        -- apply NoDup_singleton.
  - split; [left; reflexivity|]. split; [|auto].
    intros Hne. apply truthy_nonempty in Hne. congruence.
Qed.

(** ** Retrieval *)

Section FuseMore.
Context {W : Type} (sv : Services W).
Import Retrieve.

Lemma sorted_app_elem {A} (R : A -> A -> Prop) (l1 l2 : list A) (x1 x2 : A) :
  StronglySorted R (l1 ++ l2) -> x1 ∈ l1 -> x2 ∈ l2 -> R x1 x2.
Proof.
  induction l1 as [|a l1 IH]; cbn; intros Hs H1 H2.
  - inversion H1.
  - apply StronglySorted_inv in Hs as [Hs Hall].
    apply elem_of_cons in H1 as [-> | H1]; [|eauto].
    rewrite Forall_forall in Hall. apply Hall. apply elem_of_app. right. exact H2.
Qed.

(** Where the data of a scored chunk comes from: the vector result with
    that id, or the full-text result when the vector search had none. *)
Lemma score_entry_source (vec fts : list RetrievedChunk) (id : Z) (e : Q * RetrievedChunk) :
  score_entry (by_id vec) (by_id fts) id = Some e ->
  snd e ∈ vec \/ (snd e ∈ fts /\ id ∉ chunk_id <$> vec).
Proof.
  unfold score_entry, data_in.
  destruct (by_id vec !! id) as [[i c]|] eqn:Hv.
  - intros [= <-]. left. apply by_id_inv in Hv as (n & _ & Hn & _).
    cbn. eapply list_elem_of_lookup_2, Hn.
  - destruct (by_id fts !! id) as [[j c]|] eqn:Hf; [|discriminate].
    intros [= <-]. right. split.
    + apply by_id_inv in Hf as (n & _ & Hn & _). cbn. eapply list_elem_of_lookup_2, Hn.
    + intros Hin. apply dom_by_id, elem_of_dom in Hin as [x Hx]. congruence.
Qed.

Lemma fuse_elem (vec fts : list RetrievedChunk) (c : RetrievedChunk) :
  c ∈ fuse sv vec fts ->
  exists e, e ∈ scored_chunks sv vec fts /\ c = restamp e.
Proof.
  rewrite fuse_ranking. intros Hc.
  apply elem_of_take in Hc as (i & Hi & _).
  apply list_elem_of_lookup_2 in Hi. unfold ranking in Hi.
  apply list_elem_of_fmap in Hi as (e & -> & He).
  rewrite sort_desc_perm in He. eauto.
Qed.

Lemma fuse_source (vec fts : list RetrievedChunk) (c : RetrievedChunk) :
  c ∈ fuse sv vec fts ->
  exists c0,
    (c0 ∈ vec \/ (c0 ∈ fts /\ chunk_id c0 ∉ chunk_id <$> vec))
    /\ c = restamp (score_of vec fts (chunk_id c0), c0).
Proof.
  intros Hc. apply fuse_elem in Hc as (e & He & ->).
  pose proof (scored_chunks_inv sv vec fts e He) as Hscore.
  unfold scored_chunks in He. apply list_elem_of_omap in He as (id & _ & He).
  pose proof (score_entry_inv vec fts id e He) as [_ Hid].
  apply score_entry_source in He. rewrite <- Hid in He.
  exists (snd e). split; [exact He|]. rewrite <- Hscore. destruct e; reflexivity.
Qed.

Lemma fuse_ids_nodup (vec fts : list RetrievedChunk) :
  set_iter_ok sv -> NoDup (chunk_id <$> fuse sv vec fts).
Proof.
  intros Hiter. rewrite fuse_ranking, fmap_take.
  eapply sublist_NoDup; [|apply sublist_take].
  rewrite (ranking_perm sv vec fts Hiter). apply NoDup_elements.
Qed.

Lemma ranking_length (vec fts : list RetrievedChunk) :
  set_iter_ok sv ->
  length (ranking sv vec fts) = size (dom (by_id vec) ∪ dom (by_id fts)).
Proof.
  intros Hiter. rewrite <- (length_fmap chunk_id).
  rewrite (ranking_perm sv vec fts Hiter). reflexivity.
Qed.

End FuseMore.

(** X5. The fusion of [_search_hybrid] returns every chunk id at most
    once, and each returned chunk is a copy of a chunk of the vector list,
    or of a chunk of the full-text list whose id the vector list does not
    have, in which only [rrf_rank] is overwritten. *)
Theorem fuse_distinct_copies {W} (sv : Services W) (vec fts : list RetrievedChunk) :
  set_iter_ok sv ->
  NoDup (chunk_id <$> Retrieve.fuse sv vec fts)
  /\ forall c, c ∈ Retrieve.fuse sv vec fts ->
       exists c0,
         (c0 ∈ vec \/ (c0 ∈ fts /\ chunk_id c0 ∉ chunk_id <$> vec))
         /\ c = Retrieve.restamp (rrf_rank c, c0).
Proof.
  intros Hiter. split; [apply fuse_ids_nodup, Hiter|].
  intros c Hc. destruct (fuse_source sv vec fts c Hc) as (c0 & Hsrc & Heq).
  exists c0. split; [exact Hsrc|]. rewrite Heq at 2. rewrite Heq at 1.
  reflexivity.
Qed.

Lemma fuse_distinct_copies_witness :
  NoDup (chunk_id <$> Retrieve.fuse (Fixture.services Fixture.healthy)
                        Fixture.vec_demo Fixture.fts_demo).
Proof.
  refine (proj1 (fuse_distinct_copies (Fixture.services Fixture.healthy)
                   Fixture.vec_demo Fixture.fts_demo _)).
  intros s. reflexivity.
Defined.

(** X6. The fusion returns min(12, number of distinct ids) chunks; an id
    that is cut off has a fusion score no greater than the [rrf_rank] of
    every returned chunk; with at most 12 distinct ids none is cut off. *)
Theorem fuse_keeps_the_best {W} (sv : Services W) (vec fts : list RetrievedChunk) :
  set_iter_ok sv ->
  let union : gset Z := list_to_set (chunk_id <$> vec) ∪ list_to_set (chunk_id <$> fts) in
  let out := Retrieve.fuse sv vec fts in
  length out = Nat.min 12 (size union)
  /\ (forall id c, id ∈ union -> id ∉ chunk_id <$> out -> c ∈ out ->
        (score_of vec fts id <= rrf_rank c)%Q)
  /\ ((size union <= 12)%nat -> forall id, id ∈ union -> id ∈ chunk_id <$> out).
Proof.
  intros Hiter union out. subst union out. rewrite <- all_ids_union.
  pose proof (ranking_perm sv vec fts Hiter) as Hperm.
  pose proof (ranking_length sv vec fts Hiter) as Hlen.
  rewrite fuse_ranking. change (Z.to_nat Retrieve.TOP_K_FINAL) with 12%nat.
  split; [rewrite length_take, Hlen; reflexivity|]. split.
  - intros id c Hid Hnot Hc.
    assert (Hin : id ∈ chunk_id <$> ranking sv vec fts)
      by (rewrite Hperm; apply elem_of_elements, Hid).
    rewrite <- (take_drop 12 (ranking sv vec fts)), fmap_app, elem_of_app in Hin.
    destruct Hin as [Hin | Hin]; [contradiction|].
    apply list_elem_of_fmap in Hin as (d & -> & Hd).
    assert (Hd' : d ∈ ranking sv vec fts)
      by (rewrite <- (take_drop 12 (ranking sv vec fts)); apply elem_of_app; right; exact Hd).
    rewrite <- (ranking_score sv vec fts d Hd').
    eapply (sorted_app_elem (fun a b => (rrf_rank b <= rrf_rank a)%Q)
              (take 12 (ranking sv vec fts)) (drop 12 (ranking sv vec fts)));
      [rewrite take_drop; apply ranking_sorted | exact Hc | exact Hd].
  - intros Hsmall id Hid. rewrite take_ge by lia.
    rewrite Hperm. apply elem_of_elements, Hid.
Qed.

Lemma fuse_keeps_the_best_witness :
  length (Retrieve.fuse (Fixture.services Fixture.healthy) Fixture.vec_demo Fixture.fts_demo)
  = Nat.min 12 (size (list_to_set (chunk_id <$> Fixture.vec_demo)
                      ∪ list_to_set (chunk_id <$> Fixture.fts_demo) : gset Z)).
Proof.
  refine (proj1 (fuse_keeps_the_best (Fixture.services Fixture.healthy)
                   Fixture.vec_demo Fixture.fts_demo _)).
  intros s. reflexivity.
Defined.

Section SearchMore.
Context {W : Type} (sv : Services W).
Import Retrieve.

Lemma search_vector_run (emb : list Q) (w w' : W) (chunks : list RetrievedChunk) :
  _search_vector sv emb w = (inr chunks, w') ->
  exists rows,
    execute sv (SelectVector emb TOP_K_VECTOR) w = (inr rows, w')
    /\ existsb divides_by_zero rows = false
    /\ chunks = imap (fun i row =>
                        chunk_of_row row
                          (if truthy_float (row_metric row)
                           then (1 / (1 + default 0 (row_metric row)))%Q else 0%Q)
                          0%Q (rrf_term (Z.of_nat i))) rows.
Proof.
  unfold _search_vector. rewrite bind_run.
  destruct (execute sv _ w) as [[e | rows] w1]; [discriminate|].
  destruct (existsb divides_by_zero rows) eqn:Hz; [discriminate|].
  rewrite ret_run. intros [= <- <-]. eauto.
Qed.

Lemma search_text_only_run (q : string) (w w' : W) (chunks : list RetrievedChunk) :
  _search_text_only sv q w = (inr chunks, w') ->
  (chunks = [] /\ w' = w)
  \/ exists rows,
       execute sv (SelectText q TOP_K_FTS) w = (inr rows, w')
       /\ chunks = map (fun row => chunk_of_row row 0%Q (fts_value row) (fts_value row)) rows.
Proof.
  unfold _search_text_only.
  destruct (negb (truthy q) || PyStr.is_blank q).
  - rewrite ret_run. intros [= <- <-]. left. auto.
  - rewrite bind_run. destruct (execute sv _ w) as [[e | rows] w1]; [discriminate|].
    rewrite ret_run. intros [= <- <-]. right. eauto.
Qed.

Lemma search_hybrid_run (q : string) (emb : list Q) (w w' : W) (out : list RetrievedChunk) :
  _search_hybrid sv q emb w = (inr out, w') ->
  exists vec fts w1,
    _search_vector sv emb w = (inr vec, w1)
    /\ _search_text_only sv q w1 = (inr fts, w')
    /\ out = fuse sv vec fts.
Proof.
  unfold _search_hybrid. rewrite bind_run.
  destruct (_search_vector sv emb w) as [[e | vec] w1] eqn:Hvec; [discriminate|].
  rewrite bind_run.
  destruct (_search_text_only sv q w1) as [[e | fts] w2] eqn:Hfts; [discriminate|].
  rewrite ret_run. intros [= <- <-]. exists vec, fts, w1. auto.
Qed.

Lemma vector_chunks_no_fts (emb : list Q) (w w' : W) (vec : list RetrievedChunk) (c : RetrievedChunk) :
  _search_vector sv emb w = (inr vec, w') -> c ∈ vec -> score_fts c = 0%Q.
Proof.
  intros Hrun Hc. apply search_vector_run in Hrun as (rows & _ & _ & ->).
  apply elem_of_lookup_imap in Hc as (i & row & -> & _). reflexivity.
Qed.

Lemma text_chunks_no_vec (q : string) (w w' : W) (fts : list RetrievedChunk) (c : RetrievedChunk) :
  _search_text_only sv q w = (inr fts, w') -> c ∈ fts -> score_vec c = 0%Q.
Proof.
  intros Hrun Hc. apply search_text_only_run in Hrun as [[-> _] | (rows & _ & ->)].
  - inversion Hc.
  - rewrite <- fmap_is_map in Hc. apply list_elem_of_fmap in Hc as (row & -> & _).
    reflexivity.
Qed.

End SearchMore.

(** X7. Every chunk returned by [_search_hybrid] has [score_vec] or
    [score_fts] equal to zero: a chunk found by both searches is the
    vector search's copy, so its full-text score is not carried over. *)
Theorem hybrid_chunk_has_one_score {W} (sv : Services W) (q : string) (emb : list Q)
    (w w' : W) (out : list RetrievedChunk) (c : RetrievedChunk) :
  Retrieve._search_hybrid sv q emb w = (inr out, w') ->
  c ∈ out ->
  score_vec c = 0%Q \/ score_fts c = 0%Q.
Proof.
  intros Hrun Hc.
  apply search_hybrid_run in Hrun as (vec & fts & w1 & Hvec & Hfts & ->).
  apply fuse_source in Hc as (c0 & [Hsrc | [Hsrc _]] & ->); cbn.
  - right. exact (vector_chunks_no_fts sv emb w w1 vec c0 Hvec Hsrc).
  - left. exact (text_chunks_no_vec sv q w1 w' fts c0 Hfts Hsrc).
Qed.

Lemma hybrid_chunk_has_one_score_witness :
  exists out w',
    Retrieve._search_hybrid (Fixture.services Fixture.healthy) "registration period"
      [(1 # 2)%Q; (1 # 4)%Q] [] = (inr out, w')
    /\ forall c, c ∈ out -> score_vec c = 0%Q \/ score_fts c = 0%Q.
Proof.
  eexists _, _. split; [vm_compute; reflexivity|].
  intros c Hc.
  eapply (hybrid_chunk_has_one_score (Fixture.services Fixture.healthy) "registration period"
            [(1 # 2)%Q; (1 # 4)%Q] [] _ _ c); [vm_compute; reflexivity | exact Hc].
Defined.

(** X8. When [_search_vector] returns, it returns one chunk per row of
    the statement's result, in order; the chunk at 0-based position [i]
    has [score_fts] 0 and [rrf_rank] 1/(60+i+1); its [score_vec] is
    positive and at most 1 for a positive distance (the bounds that the
    quotient keeps when it is rounded) and is 0 when the distance is NULL
    or 0. *)
Theorem vector_search_scores {W} (sv : Services W) (emb : list Q) (w w' : W)
    (chunks : list RetrievedChunk) :
  Retrieve._search_vector sv emb w = (inr chunks, w') ->
  exists rows,
    execute sv (SelectVector emb Retrieve.TOP_K_VECTOR) w = (inr rows, w')
    /\ length chunks = length rows
    /\ forall (i : nat) (c : RetrievedChunk),
         chunks !! i = Some c ->
         exists row,
           rows !! i = Some row
           /\ chunk_id c = row_chunk_id row
           /\ content c = row_content row
           /\ score_fts c = 0%Q
           /\ (rrf_rank c == 1 / inject_Z (60 + Z.of_nat i + 1))%Q
           /\ (forall d, row_metric row = Some d -> (0 < d)%Q ->
                 (0 < score_vec c)%Q /\ (score_vec c <= 1)%Q)
           /\ (row_metric row = None \/ row_metric row = Some 0%Q -> score_vec c = 0%Q).
Proof.
  intros Hrun. apply search_vector_run in Hrun as (rows & Hexec & _ & ->).
  exists rows. split; [exact Hexec|]. split; [apply length_imap|].
  intros i c Hc. rewrite list_lookup_imap in Hc.
  destruct (rows !! i) as [row|] eqn:Hrow; [|discriminate].
  cbn in Hc. injection Hc as <-. exists row. split; [reflexivity|].
  cbn [chunk_id content score_fts rrf_rank score_vec Retrieve.chunk_of_row].
  split; [reflexivity|]. split; [reflexivity|]. split; [reflexivity|].
  split; [unfold Retrieve.rrf_term, Retrieve.RRF_K; reflexivity|]. split.
  - intros d Hd Hpos. rewrite Hd. cbn [truthy_float from_option id].
    destruct (Qeq_bool d 0) eqn:E.
    + apply Qeq_bool_iff in E. rewrite E in Hpos. exfalso. exact (Qlt_irrefl _ Hpos).
    + cbn [negb]. split.
      * apply Qlt_shift_div_l; lra.
      * apply Qle_shift_div_r; lra.
  - intros [-> | ->]; reflexivity.
Qed.

Lemma vector_search_scores_witness :
  exists chunks w' rows,
    Retrieve._search_vector (Fixture.services Fixture.healthy) [(1 # 2)%Q; (1 # 4)%Q] []
    = (inr chunks, w')
    /\ execute (Fixture.services Fixture.healthy)
         (SelectVector [(1 # 2)%Q; (1 # 4)%Q] Retrieve.TOP_K_VECTOR) [] = (inr rows, w')
    /\ length chunks = length rows.
Proof.
  eexists _, _.
  assert (Hrun : Retrieve._search_vector (Fixture.services Fixture.healthy)
                   [(1 # 2)%Q; (1 # 4)%Q] [] = (inr _, _)) by (vm_compute; reflexivity).
  destruct (vector_search_scores (Fixture.services Fixture.healthy) [(1 # 2)%Q; (1 # 4)%Q]
              [] _ _ Hrun) as (rows & Hexec & Hlen & _).
  exists rows. split; [exact Hrun|]. split; [exact Hexec | exact Hlen].
Defined.

(** X9. On an empty or whitespace-only query [_search_text_only] returns
    no chunk without running a statement, and [retrieve_documents] (with
    no code to look up) runs neither the embedding nor a search: it
    returns the sample of all chunks, asked a second time if the first
    statement raised, and no chunk if that raised too. *)
Theorem blank_query_samples_all {W} (sv : Services W) (st : state) (w : W) :
  Retrieve.code_route st = None ->
  get query st "" = "" \/ PyStr.is_blank (get query st "") = true ->
  Retrieve._search_text_only sv (get query st "") w = (inr [], w)
  /\ Retrieve.retrieve_documents sv st w = sample_all_twice sv st w.
Proof.
  intros Hroute Hblank.
  assert (Hskip : truthy (get query st "") && negb (PyStr.is_blank (get query st "")) = false).
  { destruct Hblank as [-> | ->]; [reflexivity | apply andb_false_r]. }
  split.
  - unfold Retrieve._search_text_only.
    apply andb_false_iff in Hskip as [-> | Hb]; [reflexivity|].
    apply negb_false_iff in Hb. rewrite Hb, orb_true_r. reflexivity.
  - unfold Retrieve.retrieve_documents, sample_all_twice. rewrite bind_run.
    unfold try_catch at 1. unfold Retrieve.search_with_fallback. rewrite bind_run.
    unfold Retrieve.primary_search. rewrite Hroute, Hskip, ret_run.
    cbn [Retrieve.is_empty].
    destruct (Retrieve._search_all_chunks sv Retrieve.TOP_K_FINAL w) as [[e | cs] w1];
      [|reflexivity].
    unfold try_catch.
    destruct (Retrieve._search_all_chunks sv Retrieve.TOP_K_FINAL w1) as [[e2 | cs] w2];
      reflexivity.
Qed.

Lemma blank_query_samples_all_witness :
  Retrieve.retrieve_documents (Fixture.services Fixture.healthy) (Fixture.asks "   ") []
  = sample_all_twice (Fixture.services Fixture.healthy) (Fixture.asks "   ") [].
Proof.
  apply (proj2 (blank_query_samples_all (Fixture.services Fixture.healthy)
                  (Fixture.asks "   ") [] eq_refl (or_intror eq_refl))).
Defined.

(** The retrieval node reads the query, the iteration count and the code
    to look up, and nothing else of the state. *)
Lemma retrieval_ignores_metadata {W} (sv : Services W) (st st' : state) (w : W) :
  get query st "" = get query st' "" ->
  get search_iterations st 0%Z = get search_iterations st' 0%Z ->
  Retrieve.code_route st = Retrieve.code_route st' ->
  Retrieve.retrieve_documents sv st w = Retrieve.retrieve_documents sv st' w.
Proof.
  intros Hq Hi Hroute.
  unfold Retrieve.retrieve_documents, Retrieve.search_with_fallback,
    Retrieve.primary_search, Retrieve.retrieved.
  rewrite Hq, Hi, Hroute. reflexivity.
Qed.

Section RouteThenRetrieve.
Import Router.

Lemma code_route_after_route (st : state) :
  Retrieve.code_route (route_query st)
  = match query_type (route_query st), router_result (route_query st) with
    | Some CODE, Some r => extracted_code r
    | _, _ => None
    end.
Proof.
  unfold Retrieve.code_route, get.
  destruct (route_query_cases st)
    as [(c & Hd & Hq & Hr) | [(m & _ & _ & Hq & Hr) | (_ & _ & Hq & Hr)]];
    rewrite Hq, Hr; cbn; try reflexivity.
  apply detected_inv in Hd as [_ Hne]. rewrite (truthy_nonempty c Hne). reflexivity.
Qed.

End RouteThenRetrieve.

(** X10. After [route_query], a query that is not routed to CODE has no
    code to look up, and [retrieve_documents] treats it exactly like the
    bare query with type VECTOR: a METADATA classification and its
    extracted text change nothing in the retrieval. *)
Theorem metadata_is_retrieved_like_vector {W} (sv : Services W) (st : state) (w : W) :
  query_type (Router.route_query st) <> Some CODE ->
  Retrieve.code_route (Router.route_query st) = None
  /\ Retrieve.retrieve_documents sv (Router.route_query st) w
     = Retrieve.retrieve_documents sv
         (mkState (Some (get query st "")) None (Some VECTOR) None None None None None
                  None None None None) w.
Proof.
  intros Hne.
  assert (Hroute : Retrieve.code_route (Router.route_query st) = None).
  { rewrite code_route_after_route.
    destruct (query_type (Router.route_query st)) as [[| |]|]; try reflexivity. congruence. }
  split; [exact Hroute|].
  apply retrieval_ignores_metadata.
  - destruct (route_query_history st) as [_ Hq]. unfold get at 1. rewrite Hq. reflexivity.
  - unfold get at 1. rewrite route_query_search_iterations. reflexivity.
  - rewrite Hroute. reflexivity.
Qed.

Lemma metadata_is_retrieved_like_vector_witness :
  Retrieve.code_route (Router.route_query (Fixture.asks "R.G. 62 on tuition")) = None.
Proof.
  refine (proj1 (metadata_is_retrieved_like_vector (Fixture.services Fixture.healthy)
                   (Fixture.asks "R.G. 62 on tuition") [] _)).
  vm_compute. discriminate.
Defined.

(** ** Grading *)

Section GradeMore.
Import Grade.

Lemma filter_length_le {A} (p : A -> bool) (l : list A) :
  (length (List.filter p l) <= length l)%nat.
Proof. induction l as [|a l IH]; cbn; [lia|]. destruct (p a); cbn; lia. Qed.

Lemma ratio_le_one (m n : nat) :
  (m <= n)%nat -> (0 < n)%nat ->
  (inject_Z (Z.of_nat m) / inject_Z (Z.of_nat n) <= 1)%Q.
Proof.
  intros Hmn Hn. apply Qle_shift_div_r.
  - change 0%Q with (inject_Z 0). rewrite <- Zlt_Qlt. lia.
  - rewrite Qmult_1_l. rewrite <- Zle_Qle. lia.
Qed.

Lemma max3_ge_all (a b c : Q) :
  (a <= max3 a b c)%Q /\ (b <= max3 a b c)%Q /\ (c <= max3 a b c)%Q.
Proof.
  unfold max3.
  destruct (Qltb a b) eqn:Hab; [apply Qltb_lt in Hab | apply Qltb_ge in Hab].
  - destruct (Qltb b c) eqn:Hbc; [apply Qltb_lt in Hbc | apply Qltb_ge in Hbc];
      repeat split; lra.
  - destruct (Qltb a c) eqn:Hac; [apply Qltb_lt in Hac | apply Qltb_ge in Hac];
      repeat split; lra.
Qed.

Lemma min2_le_second (a b : Q) : (min2 a b <= b)%Q.
Proof.
  unfold min2. destruct (Qltb b a) eqn:E; [lra|]. apply Qltb_ge in E. exact E.
Qed.

Lemma grade_long (q : string) (chunk : RetrievedChunk) :
  (MIN_CONTENT_LENGTH <= String.length (content chunk))%nat ->
  let ks := _keyword_match_score q (content chunk) in
  let rs := max3 (score_vec chunk) (score_fts chunk) (rrf_rank chunk) in
  confidence (_heuristic_grade q chunk) = min2 (ks * (6 # 10) + rs * (4 # 10) + (3 # 10)) 1
  /\ (Qltb (3 # 10) rs = true -> is_relevant (_heuristic_grade q chunk) = true).
Proof.
  intros Hlen ks rs. unfold _heuristic_grade.
  destruct (Nat.ltb_spec (String.length (content chunk)) MIN_CONTENT_LENGTH); [lia|].
  cbn [confidence is_relevant]. fold ks rs. split; [reflexivity|].
  intros ->. rewrite !orb_true_r. destruct (_ || _); reflexivity.
Qed.

End GradeMore.

(** X11. [_keyword_match_score] is a fraction between 0 and 1, and it is 0
    when the query or the content is empty. *)
Theorem keyword_score_range (q c : string) :
  (0 <= Grade._keyword_match_score q c <= 1)%Q
  /\ (q = "" \/ c = "" -> Grade._keyword_match_score q c = 0%Q).
Proof.
  split; [split; [apply keyword_score_nonneg|]|].
  - unfold Grade._keyword_match_score.
    destruct (negb (truthy q) || negb (truthy c)); [discriminate|].
    destruct (List.filter Grade.meaningful (PyStr.split (PyStr.lower q))) as [|x l] eqn:E;
      cbn [Retrieve.is_empty]; [discriminate|].
    apply ratio_le_one; [apply filter_length_le | cbn; lia].
  - intros [-> | ->]; unfold Grade._keyword_match_score; cbn [truthy String.eqb negb orb];
      [reflexivity|]. rewrite orb_true_r. reflexivity.
Qed.

(** X12. For a chunk with non-negative scores the confidence returned by
    [_heuristic_grade] lies between 0.3 and 1. *)
Theorem grade_confidence_range (q : string) (chunk : RetrievedChunk) :
  (0 <= score_vec chunk)%Q -> (0 <= score_fts chunk)%Q -> (0 <= rrf_rank chunk)%Q ->
  (3 # 10 <= confidence (Grade._heuristic_grade q chunk) <= 1)%Q.
Proof.
  intros Hv Hf Hr.
  destruct (Nat.lt_ge_cases (String.length (content chunk)) Grade.MIN_CONTENT_LENGTH)
    as [Hshort | Hlong].
  - rewrite (grade_short q chunk Hshort). cbn [confidence]. split; discriminate.
  - destruct (grade_long q chunk Hlong) as [-> _].
    pose proof (keyword_score_nonneg q (content chunk)) as Hk.
    pose proof (max3_ge_all (score_vec chunk) (score_fts chunk) (rrf_rank chunk)) as (Hm & _ & _).
    set (ks := Grade._keyword_match_score q (content chunk)) in *.
    set (rs := Grade.max3 _ _ _) in *.
    split; [apply min2_glb; lra | apply min2_le_second].
Qed.

Lemma grade_confidence_range_witness :
  (3 # 10 <= confidence (Grade._heuristic_grade "registration period" Fixture.long_chunk) <= 1)%Q.
Proof.
  apply (grade_confidence_range "registration period" Fixture.long_chunk);
    vm_compute; discriminate.
Defined.

Section GradeDocuments.
Import Grade.

Lemma relevant_filter (q : string) (retr : list RetrievedChunk) :
  map fst (List.filter (fun g => is_relevant (snd g))
             (map (fun chunk => (chunk, _heuristic_grade q chunk)) retr))
  = List.filter (fun chunk => is_relevant (_heuristic_grade q chunk)) retr.
Proof.
  induction retr as [|c retr IH]; [reflexivity|].
  cbn. destruct (is_relevant (_heuristic_grade q c)); cbn; rewrite IH; reflexivity.
Qed.

Lemma list_filter_sublist {A} (p : A -> bool) (l : list A) :
  List.filter p l `sublist_of` l.
Proof.
  induction l as [|a l IH]; cbn; [constructor|].
  destruct (p a); [apply sublist_skip | apply sublist_cons]; exact IH.
Qed.

Lemma relevant_is_long (q : string) (chunk : RetrievedChunk) :
  is_relevant (_heuristic_grade q chunk) = true ->
  (MIN_CONTENT_LENGTH <= String.length (content chunk))%nat.
Proof.
  intros H. destruct (Nat.lt_ge_cases (String.length (content chunk)) MIN_CONTENT_LENGTH)
    as [Hshort | Hlong]; [|exact Hlong].
  rewrite (grade_short q chunk Hshort) in H. discriminate.
Qed.

End GradeDocuments.

(** X13. [grade_documents] grades the retrieved chunks in order with
    [_heuristic_grade] on the state's query; [relevant_chunks] is the
    sublist of the retrieved chunks graded relevant, each with at least 50
    characters of content; the returned dict keeps the query and has no
    [retrieval] key. *)
Theorem grade_documents_filters (st : state) :
  let q := get query st "" in
  let retr := get retrieval st [] in
  exists graded relevant,
    graded_chunks (Grade.grade_documents st) = Some graded
    /\ relevant_chunks (Grade.grade_documents st) = Some relevant
    /\ query (Grade.grade_documents st) = Some q
    /\ retrieval (Grade.grade_documents st) = None
    /\ map fst graded = retr
    /\ (forall c g, (c, g) ∈ graded -> g = Grade._heuristic_grade q c)
    /\ relevant = List.filter (fun c => is_relevant (Grade._heuristic_grade q c)) retr
    /\ relevant `sublist_of` retr
    /\ (forall c, c ∈ relevant -> (50 <= String.length (content c))%nat).
Proof.
  intros q retr. unfold Grade.grade_documents. fold q retr.
  eexists _, _. split; [reflexivity|]. split; [reflexivity|]. split; [reflexivity|].
  split; [reflexivity|]. split.
  { rewrite map_map. cbn. apply map_id. }
  split.
  { intros c g Hin. rewrite <- fmap_is_map in Hin.
    apply list_elem_of_fmap in Hin as (c' & [= -> ->] & _). reflexivity. }
  rewrite relevant_filter. split; [reflexivity|]. split; [apply list_filter_sublist|].
  intros c Hc. apply list_elem_of_In, filter_In in Hc as [_ Hc].
  apply (relevant_is_long q c Hc).
Qed.

Section FallbackGrades.
Context {W : Type} (sv : Services W).
Import Retrieve Grade.

Lemma search_all_chunks_scores (limit : Z) (w w' : W) (chunks : list RetrievedChunk)
    (c : RetrievedChunk) :
  _search_all_chunks sv limit w = (inr chunks, w') -> In c chunks ->
  score_vec c = 0%Q /\ score_fts c = 0%Q /\ rrf_rank c = (1 # 2)%Q.
Proof.
  unfold _search_all_chunks. rewrite bind_run.
  destruct (execute sv _ w) as [[e | rows] w1]; [discriminate|].
  rewrite ret_run. intros [= <- <-] Hin.
  apply in_map_iff in Hin as (row & <- & _). repeat split.
Qed.

End FallbackGrades.

(** X14. A chunk returned by the sample-all fallback [_search_all_chunks]
    whose content has at least 50 characters is graded relevant for every
    query, with confidence at least 0.5, whatever the query's words are. *)
Theorem sample_all_chunks_relevant {W} (sv : Services W) (limit : Z) (w w' : W)
    (chunks : list RetrievedChunk) (c : RetrievedChunk) (q : string) :
  Retrieve._search_all_chunks sv limit w = (inr chunks, w') ->
  In c chunks ->
  (50 <= String.length (content c))%nat ->
  is_relevant (Grade._heuristic_grade q c) = true
  /\ (1 # 2 <= confidence (Grade._heuristic_grade q c))%Q.
Proof.
  intros Hrun Hin Hlen.
  destruct (search_all_chunks_scores sv limit w w' chunks c Hrun Hin) as (Hv & Hf & Hr).
  destruct (grade_long q c Hlen) as [Hconf Hrel].
  rewrite Hv, Hf, Hr in Hconf, Hrel.
  split; [apply Hrel; reflexivity|].
  rewrite Hconf. change (Grade.max3 0 0 (1 # 2)) with (1 # 2)%Q.
  pose proof (keyword_score_nonneg q (content c)) as Hk.
  set (ks := Grade._keyword_match_score q (content c)) in *.
  apply min2_glb; [lra | discriminate].
Qed.

Lemma sample_all_chunks_relevant_witness :
  is_relevant (Grade._heuristic_grade "canteen opening hours"
                 (Retrieve.chunk_of_row (Fixture.row 3 "6.3" None) 0 0 (1 # 2))) = true.
Proof.
  refine (proj1 (sample_all_chunks_relevant (Fixture.services Fixture.healthy)
                   Retrieve.TOP_K_FINAL [] _ _ _ "canteen opening hours" _ _ _)).
  - vm_compute. reflexivity.
  - vm_compute. auto.
  - vm_compute. lia.
Defined.

Section TextGrades.
Context {W : Type} (sv : Services W).
Import Retrieve Grade.


End TextGrades.



(** ** Answer stage *)

Section GenerateMore.
Context {W : Type} (sv : Services W).
Import Generate.

Lemma take_length (n : nat) (s : string) :
  String.length (PyStr.take n s) = Nat.min n (String.length s).
Proof.
  unfold PyStr.take. revert n. induction s as [|c s IH]; intros [|n]; cbn; try reflexivity.
  rewrite IH. reflexivity.
Qed.

Lemma append_length (a b : string) :
  String.length (a +:+ b) = (String.length a + String.length b)%nat.
Proof. induction a as [|c a IH]; simpl; [reflexivity|]. f_equal. exact IH. Qed.

Lemma excerpt_length (c : string) : (String.length (excerpt_of c) <= 203)%nat.
Proof.
  unfold excerpt_of. destruct (Nat.ltb_spec 200 (String.length c)).
  - rewrite append_length, take_length. change (String.length "...") with 3%nat. lia.
  - lia.
Qed.

(** A successful generation. *)
Lemma generate_answer_success (st : state) (w w' : W) (out : state) (g : GenerationResult) :
  generate_answer sv st w = (inr out, w') ->
  generation out = Some g ->
  has_sufficient_evidence g = true ->
  chunks_to_use st <> []
  /\ error out = None
  /\ exists a,
       g = mkGenerationResult a (map citation_of (take 8 (chunks_to_use st)))
             (if (3 <=? length (chunks_to_use st))%nat then (8 # 10)%Q else (6 # 10)%Q)
             true.
Proof.
  intros Hrun Hg Hev.
  destruct (generate_answer_cases sv st w w' out Hrun)
    as [(_ & _ & ->) | [[a ->] | [e ->]]]; cbn in Hg; injection Hg as <-;
    cbn in Hev; try discriminate.
  split; [|split; [reflexivity | eauto]].
  intros Hnone. unfold generate_answer in Hrun. rewrite Hnone in Hrun.
  cbn [Retrieve.is_empty] in Hrun. rewrite ret_run in Hrun. discriminate.
Qed.

End GenerateMore.

(** X16. Every result of [generate_answer] has a generation;
    [has_sufficient_evidence] holds exactly when the citation list is not
    empty; with sufficient evidence no error is reported, and a reported
    error is the tail of the answer text. *)
Theorem evidence_iff_citations {W} (sv : Services W) (st : state) (w w' : W) (out : state) :
  Generate.generate_answer sv st w = (inr out, w') ->
  exists g,
    generation out = Some g
    /\ (has_sufficient_evidence g = true <-> citations g <> [])
    /\ (has_sufficient_evidence g = true -> error out = None)
    /\ (forall e, error out = Some e ->
          answer g = "I encountered an error generating the response: " +:+ e).
Proof.
  intros Hrun.
  destruct (generate_answer_cases sv st w w' out Hrun)
    as [(_ & _ & ->) | [[a Hout] | [e ->]]].
  - eexists. split; [reflexivity|]. cbn.
    split; [split; [discriminate | congruence]|].
    split; [discriminate|]. intros e [=].
  - subst out. eexists. split; [reflexivity|].
    destruct (generate_answer_success sv st w w' _ _ Hrun eq_refl eq_refl) as (Hne & _ & _).
    cbn. split; [split; [|reflexivity]|split; [reflexivity|intros e [=]]].
    intros _. destruct (Generate.chunks_to_use st); [congruence | discriminate].
  - eexists. split; [reflexivity|]. cbn.
    split; [split; [discriminate | congruence]|].
    split; [discriminate|]. intros e' [= <-]. reflexivity.
Qed.

Lemma evidence_iff_citations_witness :
  exists out w',
    Generate.generate_answer (Fixture.services Fixture.no_completion)
      (Fixture.graded_state "registration period" [Fixture.long_chunk] [Fixture.long_chunk])
      [] = (inr out, w')
    /\ exists g,
         generation out = Some g
         /\ (has_sufficient_evidence g = true <-> citations g <> [])
         /\ (has_sufficient_evidence g = true -> error out = None)
         /\ (forall e, error out = Some e ->
               answer g = "I encountered an error generating the response: " +:+ e).
Proof.
  eexists _, _. split; [vm_compute; reflexivity|].
  eapply (evidence_iff_citations (Fixture.services Fixture.no_completion)
            (Fixture.graded_state "registration period" [Fixture.long_chunk]
               [Fixture.long_chunk]) [] _ _).
  vm_compute. reflexivity.
Defined.

(** X17. In a generation with sufficient evidence the citations are those
    of the first eight chunks used, in order (between one and eight), each
    excerpt has at most 203 characters, the confidence is 0.8 with three
    or more chunks used and 0.6 otherwise, and the chunks used are the
    relevant ones whenever there is one. *)
Theorem citations_follow_chunks {W} (sv : Services W) (st : state) (w w' : W)
    (out : state) (g : GenerationResult) :
  Generate.generate_answer sv st w = (inr out, w') ->
  generation out = Some g ->
  has_sufficient_evidence g = true ->
  let chunks := Generate.chunks_to_use st in
  map cit_chunk_id (citations g) = map chunk_id (take 8 chunks)
  /\ (1 <= length (citations g) <= 8)%nat
  /\ (forall cit, In cit (citations g) -> (String.length (excerpt cit) <= 203)%nat)
  /\ gen_confidence g = (if (3 <=? length chunks)%nat then (8 # 10)%Q else (6 # 10)%Q)
  /\ (get relevant_chunks st [] <> [] -> chunks = get relevant_chunks st []).
Proof.
  intros Hrun Hg Hev chunks.
  destruct (generate_answer_success sv st w w' out g Hrun Hg Hev) as (Hne & _ & a & ->).
  fold chunks in Hne |- *. cbn [citations gen_confidence].
  split; [rewrite map_map; reflexivity|]. split.
  { rewrite length_map, length_take. destruct chunks as [|c cs]; [congruence|].
    cbn [length]. lia. }
  split.
  { intros cit Hin. apply in_map_iff in Hin as (c & <- & _). apply excerpt_length. }
  split; [reflexivity|].
  intros Hrel. subst chunks. unfold Generate.chunks_to_use.
  destruct (get relevant_chunks st []); [congruence | reflexivity].
Qed.

Lemma citations_follow_chunks_witness :
  let st := Fixture.graded_state "registration period" [Fixture.long_chunk] [Fixture.long_chunk] in
  let g := mkGenerationResult
             "Registration takes place in the announced period [Source: 5.1.2, 1]."
             [Generate.citation_of Fixture.long_chunk] (6 # 10)%Q true in
  map cit_chunk_id (citations g) = map chunk_id (take 8 (Generate.chunks_to_use st))
  /\ (1 <= length (citations g) <= 8)%nat.
Proof.
  intros st g.
  destruct (citations_follow_chunks (Fixture.services Fixture.healthy) st []
              [Fixture.GetLlm; Fixture.Invoke (Generate.prompt_of "registration period"
                 (Generate._build_context (take 8 (Generate.chunks_to_use st))))]
              (Generate.only_generation g None) g) as (H1 & H2 & _).
  - vm_compute. reflexivity.
  - reflexivity.
  - reflexivity.
  - split; [exact H1 | exact H2].
Defined.

(** X18. [_should_generate_or_fail] answers [fail] or [generate]; it
    answers [fail] exactly when the state has neither relevant nor
    retrieved chunks, which is exactly when [generate_answer] returns the
    insufficient-evidence response without calling the completion
    service. *)
Theorem should_generate_iff_answer_attempted {W} (sv : Services W) (st : state) (w : W) :
  (Graph._should_generate_or_fail st = "fail"
   \/ Graph._should_generate_or_fail st = "generate")
  /\ (Graph._should_generate_or_fail st = "fail"
      <-> get relevant_chunks st [] = [] /\ get retrieval st [] = [])
  /\ (Graph._should_generate_or_fail st = "fail"
      <-> Generate.generate_answer sv st w
          = (inr (Generate.only_generation (Generate._build_insufficient_response sv st) None),
             w)).
Proof.
  assert (Hfail : Graph._should_generate_or_fail st = "fail"
                  <-> get relevant_chunks st [] = [] /\ get retrieval st [] = []).
  { unfold Graph._should_generate_or_fail.
    destruct (get relevant_chunks st []) as [|c cs]; cbn.
    - destruct (get retrieval st []) as [|c cs]; cbn; split;
        try discriminate; try tauto. intros [_ [=]].
    - split; [discriminate | intros [[=] _]]. }
  assert (Huse : Generate.chunks_to_use st = []
                 <-> get relevant_chunks st [] = [] /\ get retrieval st [] = []).
  { unfold Generate.chunks_to_use.
    destruct (get relevant_chunks st []) as [|c cs]; cbn; [tauto|].
    split; [discriminate | intros [[=] _]]. }
  split.
  { unfold Graph._should_generate_or_fail.
    destruct (negb _); [right; reflexivity|]. destruct (negb _); auto. }
  split; [exact Hfail|].
  rewrite Hfail, <- Huse. split.
  - intros Hnone. unfold Generate.generate_answer. rewrite Hnone. reflexivity.
  - intros Hrun.
    destruct (Generate.chunks_to_use st) as [|c cs] eqn:Hc; [reflexivity|].
    exfalso.
    destruct (generate_answer_cases sv st w w _ Hrun)
      as [(Hnone & _) | [[a Heq] | [e Heq]]].
    + rewrite Hc in Hnone. discriminate.
    + apply (f_equal (fun s => has_sufficient_evidence <$> generation s)) in Heq.
      unfold Generate.only_generation, Generate._build_insufficient_response in Heq.
      cbn in Heq. discriminate.
    + apply (f_equal error) in Heq. discriminate.
Qed.

(** X19. On the dict returned by [grade_documents] the answer stage uses
    exactly the chunks graded relevant (the fallback to all retrieved
    chunks cannot apply, the dict having no [retrieval] key); so when every
    retrieved chunk has fewer than 50 characters the answer is the
    insufficient-evidence response with the no-documents sentence, and the
    completion service is not called. *)
Theorem answer_stage_sees_relevant_only {W} (sv : Services W) (st : state) (w : W) :
  Generate.chunks_to_use (Grade.grade_documents st)
  = List.filter (fun c => is_relevant (Grade._heuristic_grade (get query st "") c))
                (get retrieval st [])
  /\ (Forall (fun c => (String.length (content c) < 50)%nat) (get retrieval st []) ->
      exists g,
        Generate.generate_answer sv (Grade.grade_documents st) w
        = (inr (Generate.only_generation g None), w)
        /\ has_sufficient_evidence g = false
        /\ template_with Generate.no_documents (answer g)).
Proof.
  assert (Huse : Generate.chunks_to_use (Grade.grade_documents st)
                 = List.filter (fun c => is_relevant (Grade._heuristic_grade (get query st "") c))
                     (get retrieval st [])).
  { unfold Generate.chunks_to_use, Grade.grade_documents, get. cbn [relevant_chunks retrieval default].
    rewrite relevant_filter. fold (get query st ""). fold (get retrieval st []).
    destruct (List.filter _ _); reflexivity. }
  split; [exact Huse|].
  intros Hshort.
  assert (Hnone : Generate.chunks_to_use (Grade.grade_documents st) = []).
  { rewrite Huse. clear Huse. induction Hshort as [|c l Hc _ IH]; [reflexivity|].
    cbn. rewrite (grade_short _ c Hc). cbn. exact IH. }
  eexists. split; [|split].
  - unfold Generate.generate_answer. rewrite Hnone. reflexivity.
  - reflexivity.
  - eexists _, _, _. reflexivity.
Qed.

(** ** Typed state, chat endpoint and query rewriting *)

(** X20. On [AgentState], [has_sufficient_evidence] equals [is_relevant]:
    it holds exactly when there is a relevant chunk, the test on two
    chunks or one distinct document adding nothing; and [should_retry]
    implies insufficient evidence and iterations left. *)
Theorem agent_state_evidence_is_relevance (s : AgentState.t) :
  AgentState.has_sufficient_evidence s = AgentState.is_relevant s
  /\ (AgentState.should_retry s = true ->
      AgentState.has_sufficient_evidence s = false
      /\ (AgentState.search_iterations s < AgentState.max_iterations s)%Z)
  /\ (AgentState.has_sufficient_evidence s = true <-> AgentState.relevant_chunks s <> []).
Proof.
  assert (H : AgentState.has_sufficient_evidence s = AgentState.is_relevant s).
  { unfold AgentState.has_sufficient_evidence, AgentState.is_relevant.
    destruct (AgentState.relevant_chunks s) as [|c [|c' l]]; [reflexivity| |reflexivity].
    cbn [length map Nat.ltb Nat.leb orb]. cbn [list_to_set foldr].
    rewrite union_empty_r_L, size_singleton. reflexivity. }
  split; [exact H|]. split.
  - unfold AgentState.should_retry. rewrite H. intros Hretry.
    apply andb_true_iff in Hretry as [Hrel Hlt].
    apply negb_true_iff in Hrel. apply Z.ltb_lt in Hlt. auto.
  - rewrite H. unfold AgentState.is_relevant.
    destruct (AgentState.relevant_chunks s); cbn; split; try discriminate; congruence.
Qed.

Lemma agent_state_evidence_is_relevance_witness :
  AgentState.has_sufficient_evidence (AgentState.create "registration period" 0) = false
  /\ (AgentState.search_iterations (AgentState.create "registration period" 0)
      < AgentState.max_iterations (AgentState.create "registration period" 0))%Z.
Proof.
  apply (proj1 (proj2 (agent_state_evidence_is_relevance
                         (AgentState.create "registration period" 0)))).
  reflexivity.
Defined.

(** X21. The chat endpoint answers with status 500 and the detail
    [Agent error: e] when the run raised [e], and otherwise with a response
    whose [search_iterations] is 0 and whose [query_history] is empty (the
    final state of the graph holds the generation only), whose
    [has_sufficient_evidence] holds exactly when it has citations and
    whose confidence is 0 without sufficient evidence; the detail
    [Agent did not produce a response] never occurs. *)
Theorem chat_reports_generation_only {W} (sv : Services W) (request : Chat.ChatRequest) (w : W) :
  (exists e w',
      Graph.run_agent sv (Chat.req_query request) (Chat.req_thread_id request) w = (inl e, w')
      /\ Chat.chat sv request w
         = (inl (Chat.mkHTTPException 500 ("Agent error: " +:+ e)), w'))
  \/ exists resp w',
       Chat.chat sv request w = (inr resp, w')
       /\ Chat.resp_search_iterations resp = 0%Z
       /\ Chat.resp_query_history resp = []
       /\ (Chat.resp_has_sufficient_evidence resp = true <-> Chat.resp_citations resp <> [])
       /\ (Chat.resp_has_sufficient_evidence resp = false -> Chat.resp_confidence resp = 0%Q).
Proof.
  destruct (run_agent_cases sv (Chat.req_query request) (Chat.req_thread_id request) w)
    as (chunks & w1 & _ & [(e & w' & _ & Hrun) | (g & err & w' & Hgen & Hrun)]).
  - left. exists e, w'. split; [exact Hrun|]. unfold Chat.chat. rewrite Hrun. reflexivity.
  - right. unfold Chat.chat. rewrite Hrun. cbn [generation Generate.only_generation].
    eexists _, w'. split; [reflexivity|].
    cbn [Chat.resp_search_iterations Chat.resp_query_history Chat.resp_citations
           Chat.resp_has_sufficient_evidence Chat.resp_confidence].
    split; [reflexivity|]. split; [reflexivity|].
    destruct (generate_answer_cases sv _ _ _ _ Hgen)
      as [(_ & _ & Heq) | [[a Heq] | [e Heq]]].
    + injection Heq as -> _. cbn.
      split; [split; [discriminate | congruence] | reflexivity].
    + injection Heq as -> ->.
      destruct (generate_answer_success sv _ _ _ _ _ Hgen eq_refl eq_refl) as (Hne & _).
      cbn. split; [split; [|reflexivity] | discriminate].
      intros _. destruct (Generate.chunks_to_use _); [congruence | discriminate].
    + injection Heq as -> _. cbn.
      split; [split; [discriminate | congruence] | reflexivity].
Qed.

Section RewriteFacts.
Context {W : Type} (sv : Services W).
Import Rewrite.



Lemma str_chars (s : string) : PyStr.str (PyStr.chars s) = s.
Proof. apply string_of_list_ascii_of_string. Qed.




End RewriteFacts.


